(** * The goldfish / qemu pipe device (hw/misc/android_pipe.c)

    A shallow embedding of the device control core: the per-channel
    records ([HwPipe]), the device ([PipeDevice]) with its traversal list,
    its channel table and its two fast-path slots, the command engine
    ([pipeDevice_doCommand]), the MMIO register file ([pipe_dev_write],
    [pipe_dev_read]) and the host callbacks ([qemu2_android_pipe_wake],
    [qemu2_android_pipe_close]).

    Conventions.
    - C integers are [Z] with the wrap-around of their type written out
      ([u8], [u32], [u64]).
    - [HwPipe*] is an address ([ptr]); a nullable pointer is [option ptr]
      and the C heap of channel records is a finite map from addresses to
      records.  Reading through [NULL] or through an address that holds no
      record is undefined behaviour in C and is a [Crash] here.
    - Everything the file calls but does not define (the pipe services, the
      guest memory accessors, the constants and the [access_params] union of
      hw/misc/android_pipe.h) is a parameter, see [PipeHeader] and
      [PipeHost].
    - The mutexes are left out: every function below is one atomic step of
      a sequential interleaving. *)

From Stdlib Require Import ZArith Lia.
From stdpp Require Import base option list gmap.

Open Scope Z_scope.

(** ** Machine integers *)

Definition u8 (z : Z) : Z := z mod 2 ^ 8.
Definition u32 (z : Z) : Z := z mod 2 ^ 32.
Definition u64 (z : Z) : Z := z mod 2 ^ 64.

(** [uint64_set_low] keeps the high half of the 64-bit register and puts
    [value], a [uint32], in its low half. *)
Definition uint64_set_low (addr value : Z) : Z :=
  Z.lor (Z.land addr 0xFFFFFFFF00000000) (u32 value).

(** [uint64_set_high] keeps the low half and puts [value] in the high
    half. *)
Definition uint64_set_high (addr value : Z) : Z :=
  Z.lor (Z.land addr 0xFFFFFFFF) (Z.shiftl (u32 value) 32).

(** The two halves of a 64-bit value as the read path returns them: the
    casts to [uint32_t] of [x & 0xFFFFFFFFUL] and of [x >> 32]. *)
Definition lo32 (x : Z) : Z := u32 (Z.land x 0xFFFFFFFF).
Definition hi32 (x : Z) : Z := u32 (Z.shiftr x 32).

(** ** Pipe connections *)

Definition ptr : Type := positive.

Module HwPipe.
(** [struct HwPipe].  The [device] back link is left out (there is one
    device) and so is the mutex. *)
Record t : Type := mk {
  next : option ptr;
  channel : Z;          (* uint64_t, opaque kernel handle *)
  wanted : Z;           (* unsigned char *)
  closed : bool;        (* char, used as a flag *)
  pipe : Z              (* void*, the service side of the pipe *)
}.

Definition with_next (v : option ptr) (p : t) : t :=
  mk v (channel p) (wanted p) (closed p) (pipe p).
Definition with_channel (v : Z) (p : t) : t :=
  mk (next p) v (wanted p) (closed p) (pipe p).
Definition with_wanted (v : Z) (p : t) : t :=
  mk (next p) (channel p) v (closed p) (pipe p).
Definition with_closed (v : bool) (p : t) : t :=
  mk (next p) (channel p) (wanted p) v (pipe p).
Definition with_pipe (v : Z) (p : t) : t :=
  mk (next p) (channel p) (wanted p) (closed p) v.

(** What [g_malloc0] hands out. *)
Definition zero : t := mk None 0 0 false 0.
End HwPipe.

Module PipeDevice.
(** [struct PipeDevice], without the back link [ps] and the mutex.
    [pipes_by_channel] is the GLib hash table: its keys compare by the
    64-bit channel value ([hash_channel_equal]) on both pointer widths, so
    it is a finite map keyed by channel. *)
Record t : Type := mk {
  pipes : option ptr;
  save_pipes : option ptr;
  cache_pipe : option ptr;
  cache_pipe_64bit : option ptr;
  pipes_by_channel : gmap Z ptr;
  address : Z;          (* uint64_t *)
  size : Z;             (* uint32_t *)
  status : Z;           (* uint32_t *)
  channel : Z;          (* uint64_t *)
  wakes : Z;            (* uint32_t *)
  params_addr : Z       (* uint64_t *)
}.

Definition with_pipes v (d : t) : t :=
  mk v (save_pipes d) (cache_pipe d) (cache_pipe_64bit d)
     (pipes_by_channel d) (address d) (size d) (status d) (channel d)
     (wakes d) (params_addr d).
Definition with_save_pipes v (d : t) : t :=
  mk (pipes d) v (cache_pipe d) (cache_pipe_64bit d)
     (pipes_by_channel d) (address d) (size d) (status d) (channel d)
     (wakes d) (params_addr d).
Definition with_cache_pipe v (d : t) : t :=
  mk (pipes d) (save_pipes d) v (cache_pipe_64bit d)
     (pipes_by_channel d) (address d) (size d) (status d) (channel d)
     (wakes d) (params_addr d).
Definition with_cache_pipe_64bit v (d : t) : t :=
  mk (pipes d) (save_pipes d) (cache_pipe d) v
     (pipes_by_channel d) (address d) (size d) (status d) (channel d)
     (wakes d) (params_addr d).
Definition with_pipes_by_channel v (d : t) : t :=
  mk (pipes d) (save_pipes d) (cache_pipe d) (cache_pipe_64bit d)
     v (address d) (size d) (status d) (channel d)
     (wakes d) (params_addr d).
Definition with_address v (d : t) : t :=
  mk (pipes d) (save_pipes d) (cache_pipe d) (cache_pipe_64bit d)
     (pipes_by_channel d) v (size d) (status d) (channel d)
     (wakes d) (params_addr d).
Definition with_size v (d : t) : t :=
  mk (pipes d) (save_pipes d) (cache_pipe d) (cache_pipe_64bit d)
     (pipes_by_channel d) (address d) v (status d) (channel d)
     (wakes d) (params_addr d).
Definition with_status v (d : t) : t :=
  mk (pipes d) (save_pipes d) (cache_pipe d) (cache_pipe_64bit d)
     (pipes_by_channel d) (address d) (size d) v (channel d)
     (wakes d) (params_addr d).
Definition with_channel v (d : t) : t :=
  mk (pipes d) (save_pipes d) (cache_pipe d) (cache_pipe_64bit d)
     (pipes_by_channel d) (address d) (size d) (status d) v
     (wakes d) (params_addr d).
Definition with_wakes v (d : t) : t :=
  mk (pipes d) (save_pipes d) (cache_pipe d) (cache_pipe_64bit d)
     (pipes_by_channel d) (address d) (size d) (status d) (channel d)
     v (params_addr d).
Definition with_params_addr v (d : t) : t :=
  mk (pipes d) (save_pipes d) (cache_pipe d) (cache_pipe_64bit d)
     (pipes_by_channel d) (address d) (size d) (status d) (channel d)
     (wakes d) v.

(** The device as [android_pipe_realize] leaves it ([g_malloc0], an empty
    table). *)
Definition zero : t := mk None None None None ∅ 0 0 0 0 0 0.
End PipeDevice.

(** ** What hw/misc/android_pipe.h declares *)

(** The header is not part of the sources at hand, so the register offsets,
    the command, error and wake codes and the accessors of
    [union access_params] are parameters.  A value of [union access_params]
    is the list of bytes last read into it; [aps32_*] and [aps64_*] read a
    field of the 32-bit or of the 64-bit shape and [aps32_set_result],
    [aps64_set_result] store into the [result] field. *)
Class PipeHeader : Type := {
  PIPE_REG_COMMAND : Z;
  PIPE_REG_STATUS : Z;
  PIPE_REG_CHANNEL : Z;
  PIPE_REG_CHANNEL_HIGH : Z;
  PIPE_REG_SIZE : Z;
  PIPE_REG_ADDRESS : Z;
  PIPE_REG_ADDRESS_HIGH : Z;
  PIPE_REG_WAKES : Z;
  PIPE_REG_PARAMS_ADDR_LOW : Z;
  PIPE_REG_PARAMS_ADDR_HIGH : Z;
  PIPE_REG_ACCESS_PARAMS : Z;
  PIPE_REG_VERSION : Z;
  PIPE_CMD_OPEN : Z;
  PIPE_CMD_CLOSE : Z;
  PIPE_CMD_POLL : Z;
  PIPE_CMD_WRITE_BUFFER : Z;
  PIPE_CMD_WAKE_ON_WRITE : Z;
  PIPE_CMD_READ_BUFFER : Z;
  PIPE_CMD_WAKE_ON_READ : Z;
  PIPE_ERROR_INVAL : Z;
  PIPE_ERROR_IO : Z;
  PIPE_WAKE_CLOSED : Z;
  PIPE_WAKE_READ : Z;
  PIPE_WAKE_WRITE : Z;
  sizeof_aps32 : nat;
  sizeof_aps64 : nat;
  aps32_channel : list Z → Z;
  aps32_size : list Z → Z;
  aps32_address : list Z → Z;
  aps32_cmd : list Z → Z;
  aps32_flags : list Z → Z;
  aps32_set_result : Z → list Z → list Z;
  aps64_channel : list Z → Z;
  aps64_size : list Z → Z;
  aps64_address : list Z → Z;
  aps64_cmd : list Z → Z;
  aps64_set_result : Z → list Z → list Z
}.

(** The labels of [switch (command)] are compared as [uint32_t], those of
    [switch (offset)] as [hwaddr]. *)
Definition command_labels `{PipeHeader} : list Z :=
  u32 <$> [PIPE_CMD_OPEN; PIPE_CMD_CLOSE; PIPE_CMD_POLL; PIPE_CMD_READ_BUFFER;
           PIPE_CMD_WRITE_BUFFER; PIPE_CMD_WAKE_ON_READ; PIPE_CMD_WAKE_ON_WRITE].

Definition register_labels `{PipeHeader} : list Z :=
  u64 <$> [PIPE_REG_COMMAND; PIPE_REG_STATUS; PIPE_REG_CHANNEL;
           PIPE_REG_CHANNEL_HIGH; PIPE_REG_SIZE; PIPE_REG_ADDRESS;
           PIPE_REG_ADDRESS_HIGH; PIPE_REG_WAKES; PIPE_REG_PARAMS_ADDR_LOW;
           PIPE_REG_PARAMS_ADDR_HIGH; PIPE_REG_ACCESS_PARAMS;
           PIPE_REG_VERSION].

(** A C compiler accepts the two [switch] statements only if their labels
    are pairwise distinct. *)
Definition header_ok `{PipeHeader} : bool :=
  bool_decide (NoDup command_labels) && bool_decide (NoDup register_labels).

(** ** The host side *)

(** The two entry points of [AndroidPipeHwFuncs] a service may call,
    [signalWake] and [closeFromHost], with the [HwPipe] they are called on. *)
Inductive Upcall : Type :=
  | signalWake (hwpipe : ptr) (flags : Z)
  | closeFromHost (hwpipe : ptr).

(** What a call into a pipe service yields: its return value, the calls it
    made back into the device before returning, and the host afterwards. *)
Record Reply (W A : Type) : Type := mkReply {
  ret : A;
  upcalls : list Upcall;
  after : W
}.
Arguments mkReply {W A} _ _ _.
Arguments ret {W A} _.
Arguments upcalls {W A} _.
Arguments after {W A} _.

(** [AndroidPipeBuffer]: a host address and a size. *)
Record AndroidPipeBuffer : Type := mkBuffer {
  data : Z;
  buf_size : Z
}.

(** The collaborators of the device: the pipe services ([android_pipe_*])
    and guest physical memory ([cpu_physical_memory_*]).  [World] is the
    state of the host outside the device.  [cpu_physical_memory_map] returns
    the host address ([None] for [NULL]) and the length it stored back
    through its length argument. *)
Class PipeHost : Type := {
  World : Type;
  android_pipe_new : World → ptr → Reply World Z;
  android_pipe_free : World → Z → Reply World unit;
  android_pipe_poll : World → Z → Reply World Z;
  android_pipe_recv : World → Z → AndroidPipeBuffer → Z → Reply World Z;
  android_pipe_send : World → Z → AndroidPipeBuffer → Z → Reply World Z;
  android_pipe_wake_on : World → Z → Z → Reply World unit;
  cpu_physical_memory_map : World → Z → Z → Z → option Z * Z * World;
  cpu_physical_memory_unmap : World → Z → Z → Z → Z → World;
  cpu_physical_memory_read : World → Z → nat → list Z;
  cpu_physical_memory_write : World → Z → list Z → World
}.

(** ** The machine and its monad *)

(** The whole state: the heap of [HwPipe] records, the device, the calls
    made to [qemu_set_irq] on the device's line (latest first) and the
    host. *)
Record Machine `{PipeHost} : Type := mkMachine {
  heap : gmap ptr HwPipe.t;
  dev : PipeDevice.t;
  irq : list Z;
  world : World
}.

Inductive crash : Type :=
  | BadPointer      (* a read or write through NULL or a freed record *)
  | AssertFailed    (* assert() *)
  | Diverges.       (* a loop that never ends *)

Inductive result (A : Type) : Type :=
  | Ok (a : A)
  | Crash (c : crash).
Arguments Ok {A} _.
Arguments Crash {A} _.

Definition M `{PipeHost} (A : Type) : Type := Machine → result (A * Machine).

Section Device.
Context {hdr : PipeHeader} {host : PipeHost}.

#[global] Instance M_ret : MRet M := λ A (a : A) m, Ok (a, m).
#[global] Instance M_bind : MBind M := λ A B (f : A → M B) (x : M A) m,
  match x m with
  | Ok (a, m') => f a m'
  | Crash c => Crash c
  end.

Definition raise {A : Type} (c : crash) : M A := λ _, Crash c.

Definition get_dev : M PipeDevice.t := λ m, Ok (dev m, m).

Definition set_dev (f : PipeDevice.t → PipeDevice.t) : M unit :=
  λ m, Ok (tt, mkMachine _ (heap m) (f (dev m)) (irq m) (world m)).

Definition get_world : M World := λ m, Ok (world m, m).

Definition set_world (w : World) : M unit :=
  λ m, Ok (tt, mkMachine _ (heap m) (dev m) (irq m) w).

(** A read of [*p]. *)
Definition load (p : option ptr) : M HwPipe.t := λ m,
  match p with
  | None => Crash BadPointer
  | Some a =>
      match heap m !! a with
      | Some r => Ok (r, m)
      | None => Crash BadPointer
      end
  end.

(** An assignment to one field of [*p]. *)
Definition store (p : option ptr) (f : HwPipe.t → HwPipe.t) : M unit := λ m,
  match p with
  | None => Crash BadPointer
  | Some a =>
      match heap m !! a with
      | Some r => Ok (tt, mkMachine _ (<[a := f r]> (heap m)) (dev m) (irq m) (world m))
      | None => Crash BadPointer
      end
  end.

(** [g_malloc0(sizeof(HwPipe))]: a zeroed record at an address that holds
    none. *)
Definition g_malloc0 : M ptr := λ m,
  let a := fresh (dom (heap m)) in
  Ok (a, mkMachine _ (<[a := HwPipe.zero]> (heap m)) (dev m) (irq m) (world m)).

(** [g_free(p)]. *)
Definition g_free (p : option ptr) : M unit := λ m,
  match p with
  | None => Ok (tt, m)
  | Some a =>
      match heap m !! a with
      | Some _ => Ok (tt, mkMachine _ (delete a (heap m)) (dev m) (irq m) (world m))
      | None => Crash BadPointer
      end
  end.

(** [qemu_set_irq(s->irq, level)]. *)
Definition qemu_set_irq (level : Z) : M unit :=
  λ m, Ok (tt, mkMachine _ (heap m) (dev m) (level :: irq m) (world m)).

Definition get_and_clear_pipe_wanted (pipe : option ptr) : M Z :=
  r ← load pipe;
  store pipe (HwPipe.with_wanted 0);;
  mret (HwPipe.wanted r).

Definition set_pipe_wanted_bits (pipe : option ptr) (val : Z) : M unit :=
  r ← load pipe;
  store pipe (HwPipe.with_wanted (u8 (Z.lor (HwPipe.wanted r) val))).

(** *** The fast-path slots *)

Definition get_and_clear_cache_pipe : M (option ptr) :=
  d ← get_dev;
  match PipeDevice.cache_pipe_64bit d with
  | Some val =>
      set_dev (PipeDevice.with_cache_pipe_64bit None);;
      mret (Some val)
  | None =>
      set_dev (PipeDevice.with_cache_pipe None);;
      mret (PipeDevice.cache_pipe d)
  end.

Definition set_cache_pipe (cache_pipe : option ptr) : M unit :=
  set_dev (PipeDevice.with_cache_pipe cache_pipe).

Definition clear_cache_pipe_if_equal (pipe : option ptr) : M unit :=
  d ← get_dev;
  (if decide (PipeDevice.cache_pipe d = pipe)
   then set_dev (PipeDevice.with_cache_pipe None) else mret tt);;
  d ← get_dev;
  (if decide (PipeDevice.cache_pipe_64bit d = pipe)
   then set_dev (PipeDevice.with_cache_pipe_64bit None) else mret tt).

(** *** The host callbacks *)

Definition qemu2_android_pipe_wake (hwpipe : option ptr) (flags : Z) : M unit :=
  set_pipe_wanted_bits hwpipe (u8 flags);;
  r ← load hwpipe;
  (if HwPipe.closed r then mret tt else set_cache_pipe hwpipe);;
  qemu_set_irq 1.

Definition qemu2_android_pipe_close (hwpipe : option ptr) : M unit :=
  r ← load hwpipe;
  if HwPipe.closed r then mret tt
  else
    store hwpipe (HwPipe.with_closed true);;
    qemu2_android_pipe_wake hwpipe PIPE_WAKE_CLOSED.

Definition run_upcall (u : Upcall) : M unit :=
  match u with
  | signalWake hwpipe flags => qemu2_android_pipe_wake (Some hwpipe) flags
  | closeFromHost hwpipe => qemu2_android_pipe_close (Some hwpipe)
  end.

Fixpoint run_upcalls (us : list Upcall) : M unit :=
  match us with
  | [] => mret tt
  | u :: us' => run_upcall u;; run_upcalls us'
  end.

(** A call into a pipe service: the calls the service makes back into the
    device run before it returns. *)
Definition call {A : Type} (f : World → Reply World A) : M A :=
  w ← get_world;
  set_world (after (f w));;
  run_upcalls (upcalls (f w));;
  mret (ret (f w)).

(** *** Creation and destruction of a pipe *)

Definition pipe_new0 : M ptr := g_malloc0.

Definition pipe_new (channel : Z) : M ptr :=
  pipe ← pipe_new0;
  store (Some pipe) (HwPipe.with_channel channel);;
  h ← call (λ w, android_pipe_new w pipe);
  store (Some pipe) (HwPipe.with_pipe h);;
  mret pipe.

Definition pipe_free (pipe : option ptr) : M unit :=
  r ← load pipe;
  call (λ w, android_pipe_free w (HwPipe.pipe r));;
  g_free pipe.

(** *** Loops over the traversal list *)

(** A loop that follows [next] pointers and changes nothing is given one
    step more than the heap has records.  A walk that needs more has read
    through more records than there are, so it has come back to one it
    already left, and then the C loop never ends ([skip_unwanted_diverges],
    [find_pnode_diverges]). *)
Definition bounded {A : Type} (loop : nat → M A) : M A :=
  λ m, loop (S (size (heap m))) m.

(** [while (pipe && pipe->wanted == 0) pipe = pipe->next;] *)
Fixpoint skip_unwanted (fuel : nat) (pipe : option ptr) : M (option ptr) :=
  match pipe with
  | None => mret None
  | Some _ =>
      r ← load pipe;
      if HwPipe.wanted r =? 0 then
        match fuel with
        | O => raise Diverges
        | S fuel' => skip_unwanted fuel' (HwPipe.next r)
        end
      else mret pipe
  end.

(** [HwPipe** pnode]: the address of [dev->pipes] or of the [next] field of
    a record. *)
Inductive pnode : Type :=
  | pnode_pipes
  | pnode_next (q : ptr).

Definition read_pnode (pn : pnode) : M (option ptr) :=
  match pn with
  | pnode_pipes => d ← get_dev; mret (PipeDevice.pipes d)
  | pnode_next q => r ← load (Some q); mret (HwPipe.next r)
  end.

Definition write_pnode (pn : pnode) (v : option ptr) : M unit :=
  match pn with
  | pnode_pipes => set_dev (PipeDevice.with_pipes v)
  | pnode_next q => store (Some q) (HwPipe.with_next v)
  end.

(** The walk of [PIPE_CMD_CLOSE]: as long as the cell [pnode] points at
    holds a record other than [pipe], move [pnode] to that record's [next]
    field. *)
Fixpoint find_pnode (fuel : nat) (pn : pnode) (pipe : option ptr) : M pnode :=
  cur ← read_pnode pn;
  match cur with
  | None => mret pn
  | Some c =>
      if decide (cur = pipe) then mret pn
      else
        match fuel with
        | O => raise Diverges
        | S fuel' => find_pnode fuel' (pnode_next c) pipe
        end
  end.

(** *** Guest buffers *)

Definition map_guest_buffer (phys size is_write : Z) : M (option Z) :=
  w ← get_world;
  let '(p, l, w') := cpu_physical_memory_map w phys size is_write in
  set_world w';;
  match p with
  | None => mret None
  | Some a =>
      if l =? size then mret (Some a)
      else
        set_world (cpu_physical_memory_unmap w' a l 0 0);;
        mret None
  end.

(** *** The command engine *)

Definition set_status (v : Z) : M unit :=
  set_dev (PipeDevice.with_status (u32 v)).

Definition cmd_open (pipe : option ptr) : M unit :=
  match pipe with
  | Some _ => set_status PIPE_ERROR_INVAL
  | None =>
      d ← get_dev;
      pipe ← pipe_new (PipeDevice.channel d);
      d ← get_dev;
      store (Some pipe) (HwPipe.with_next (PipeDevice.pipes d));;
      set_dev (PipeDevice.with_pipes (Some pipe));;
      set_dev (PipeDevice.with_save_pipes (Some pipe));;
      set_status 0;;
      d ← get_dev;
      set_dev (PipeDevice.with_pipes_by_channel
                 (<[PipeDevice.channel d := pipe]> (PipeDevice.pipes_by_channel d)))
  end.

Definition cmd_close (pipe : option ptr) : M unit :=
  pn ← bounded (λ fuel, find_pnode fuel pnode_pipes pipe);
  cur ← read_pnode pn;
  match cur with
  | None => set_status PIPE_ERROR_INVAL
  | Some _ =>
      r ← load pipe;
      write_pnode pn (HwPipe.next r);;
      store pipe (HwPipe.with_next None);;
      d ← get_dev;
      set_dev (PipeDevice.with_save_pipes (PipeDevice.pipes d));;
      r ← load pipe;
      set_dev (λ d, PipeDevice.with_pipes_by_channel
                      (delete (HwPipe.channel r) (PipeDevice.pipes_by_channel d)) d);;
      clear_cache_pipe_if_equal pipe;;
      pipe_free pipe
  end.

Definition cmd_poll (pipe : option ptr) : M unit :=
  r ← load pipe;
  v ← call (λ w, android_pipe_poll w (HwPipe.pipe r));
  set_status v.

Definition cmd_read_buffer (pipe : option ptr) : M unit :=
  d ← get_dev;
  buffer_data ← map_guest_buffer (PipeDevice.address d) (PipeDevice.size d) 1;
  match buffer_data with
  | None => set_status PIPE_ERROR_INVAL
  | Some a =>
      r ← load pipe;
      v ← call (λ w, android_pipe_recv w (HwPipe.pipe r)
                       (mkBuffer a (PipeDevice.size d)) 1);
      set_status v;;
      d ← get_dev;
      w ← get_world;
      set_world (cpu_physical_memory_unmap w a (PipeDevice.size d) 1
                   (PipeDevice.size d))
  end.

Definition cmd_write_buffer (pipe : option ptr) : M unit :=
  d ← get_dev;
  buffer_data ← map_guest_buffer (PipeDevice.address d) (PipeDevice.size d) 0;
  match buffer_data with
  | None => set_status PIPE_ERROR_INVAL
  | Some a =>
      r ← load pipe;
      v ← call (λ w, android_pipe_send w (HwPipe.pipe r)
                       (mkBuffer a (PipeDevice.size d)) 1);
      set_status v;;
      d ← get_dev;
      w ← get_world;
      set_world (cpu_physical_memory_unmap w a (PipeDevice.size d) 0
                   (PipeDevice.size d))
  end.

(** [PIPE_CMD_WAKE_ON_READ] with [flag = PIPE_WAKE_READ], and
    [PIPE_CMD_WAKE_ON_WRITE] with [flag = PIPE_WAKE_WRITE]. *)
Definition cmd_wake_on (flag : Z) (pipe : option ptr) : M unit :=
  r ← load pipe;
  (if Z.land (HwPipe.wanted r) flag =? 0 then
     store pipe (HwPipe.with_wanted (u8 (Z.lor (HwPipe.wanted r) flag)));;
     r ← load pipe;
     call (λ w, android_pipe_wake_on w (HwPipe.pipe r) (HwPipe.wanted r))
   else mret tt);;
  set_status 0.

Definition pipeDevice_doCommand (command : Z) : M unit :=
  d ← get_dev;
  let pipe := PipeDevice.pipes_by_channel d !! PipeDevice.channel d in
  if negb (command =? u32 PIPE_CMD_OPEN) && bool_decide (pipe = None) then
    set_status PIPE_ERROR_INVAL
  else
    closed ← match pipe with
             | None => mret false
             | Some _ => r ← load pipe; mret (HwPipe.closed r)
             end;
    if closed && negb (command =? u32 PIPE_CMD_CLOSE) then
      set_status PIPE_ERROR_IO
    else if command =? u32 PIPE_CMD_OPEN then cmd_open pipe
    else if command =? u32 PIPE_CMD_CLOSE then cmd_close pipe
    else if command =? u32 PIPE_CMD_POLL then cmd_poll pipe
    else if command =? u32 PIPE_CMD_READ_BUFFER then cmd_read_buffer pipe
    else if command =? u32 PIPE_CMD_WRITE_BUFFER then cmd_write_buffer pipe
    else if command =? u32 PIPE_CMD_WAKE_ON_READ then cmd_wake_on PIPE_WAKE_READ pipe
    else if command =? u32 PIPE_CMD_WAKE_ON_WRITE then cmd_wake_on PIPE_WAKE_WRITE pipe
    else mret tt.

(** *** The register file *)

(** The [PIPE_REG_ACCESS_PARAMS] case of [pipe_dev_write]. *)
Definition access_params : M unit :=
  d ← get_dev;
  if PipeDevice.params_addr d =? 0 then mret tt
  else
    w ← get_world;
    let aps := cpu_physical_memory_read w (PipeDevice.params_addr d) sizeof_aps32 in
    let is_64bit := negb (aps32_flags aps =? 0) in
    let aps :=
      if is_64bit
      then cpu_physical_memory_read w (PipeDevice.params_addr d) sizeof_aps64
      else aps in
    (if is_64bit then
       set_dev (PipeDevice.with_channel (u64 (aps64_channel aps)));;
       set_dev (PipeDevice.with_size (u32 (aps64_size aps)));;
       set_dev (PipeDevice.with_address (u64 (aps64_address aps)))
     else
       set_dev (PipeDevice.with_channel (u64 (aps32_channel aps)));;
       set_dev (PipeDevice.with_size (u32 (aps32_size aps)));;
       set_dev (PipeDevice.with_address (u64 (aps32_address aps))));;
    let cmd := u32 (if is_64bit then aps64_cmd aps else aps32_cmd aps) in
    if negb (cmd =? u32 PIPE_CMD_READ_BUFFER) && negb (cmd =? u32 PIPE_CMD_WRITE_BUFFER)
    then mret tt
    else
      pipeDevice_doCommand cmd;;
      d ← get_dev;
      w ← get_world;
      if is_64bit then
        set_world (cpu_physical_memory_write w (PipeDevice.params_addr d)
                     (take sizeof_aps64 (aps64_set_result (PipeDevice.status d) aps)))
      else
        set_world (cpu_physical_memory_write w (PipeDevice.params_addr d)
                     (take sizeof_aps32 (aps32_set_result (PipeDevice.status d) aps))).

(** [pipe_dev_write(opaque, offset, value, size)]; the access width [size]
    is not looked at. *)
Definition pipe_dev_write (offset value : Z) : M unit :=
  if offset =? u64 PIPE_REG_COMMAND then pipeDevice_doCommand (u32 value)
  else if offset =? u64 PIPE_REG_SIZE then
    set_dev (PipeDevice.with_size (u32 value))
  else if offset =? u64 PIPE_REG_ADDRESS then
    set_dev (λ d, PipeDevice.with_address (uint64_set_low (PipeDevice.address d) value) d)
  else if offset =? u64 PIPE_REG_ADDRESS_HIGH then
    set_dev (λ d, PipeDevice.with_address (uint64_set_high (PipeDevice.address d) value) d)
  else if offset =? u64 PIPE_REG_CHANNEL then
    set_dev (λ d, PipeDevice.with_channel (uint64_set_low (PipeDevice.channel d) value) d)
  else if offset =? u64 PIPE_REG_CHANNEL_HIGH then
    set_dev (λ d, PipeDevice.with_channel (uint64_set_high (PipeDevice.channel d) value) d)
  else if offset =? u64 PIPE_REG_PARAMS_ADDR_HIGH then
    set_dev (λ d, PipeDevice.with_params_addr (uint64_set_high (PipeDevice.params_addr d) value) d)
  else if offset =? u64 PIPE_REG_PARAMS_ADDR_LOW then
    set_dev (λ d, PipeDevice.with_params_addr (uint64_set_low (PipeDevice.params_addr d) value) d)
  else if offset =? u64 PIPE_REG_ACCESS_PARAMS then access_params
  else mret tt.

Definition PIPE_DEVICE_VERSION : Z := 1.

Definition assert (b : bool) : M unit :=
  if b then mret tt else raise AssertFailed.

(** The [PIPE_REG_CHANNEL] case of [pipe_dev_read]. *)
Definition read_channel : M Z :=
  cache_pipe ← get_and_clear_cache_pipe;
  match cache_pipe with
  | Some _ =>
      v ← get_and_clear_pipe_wanted cache_pipe;
      set_dev (PipeDevice.with_wakes v);;
      r ← load cache_pipe;
      mret (lo32 (HwPipe.channel r))
  | None =>
      d ← get_dev;
      let hadPipesInList := bool_decide (PipeDevice.pipes d ≠ None) in
      pipe ← bounded (λ fuel, skip_unwanted fuel (PipeDevice.pipes d));
      match pipe with
      | None =>
          set_dev (PipeDevice.with_pipes (PipeDevice.save_pipes d));;
          (if hadPipesInList then qemu_set_irq 0 else mret tt);;
          mret 0
      | Some _ =>
          v ← get_and_clear_pipe_wanted pipe;
          set_dev (PipeDevice.with_wakes v);;
          r ← load pipe;
          set_dev (PipeDevice.with_pipes (HwPipe.next r));;
          (if bool_decide (HwPipe.next r = None) then qemu_set_irq 0 else mret tt);;
          mret (lo32 (HwPipe.channel r))
      end
  end.

(** The [PIPE_REG_CHANNEL_HIGH] case of [pipe_dev_read]. *)
Definition read_channel_high : M Z :=
  cache_pipe ← get_and_clear_cache_pipe;
  match cache_pipe with
  | Some _ =>
      set_dev (PipeDevice.with_cache_pipe_64bit cache_pipe);;
      r ← load cache_pipe;
      assert (negb (hi32 (HwPipe.channel r) =? 0));;
      mret (hi32 (HwPipe.channel r))
  | None =>
      d ← get_dev;
      let hadPipesInList := bool_decide (PipeDevice.pipes d ≠ None) in
      pipe ← bounded (λ fuel, skip_unwanted fuel (PipeDevice.pipes d));
      match pipe with
      | None =>
          set_dev (PipeDevice.with_pipes (PipeDevice.save_pipes d));;
          (if hadPipesInList then qemu_set_irq 0 else mret tt);;
          mret 0
      | Some _ =>
          set_dev (PipeDevice.with_pipes pipe);;
          r ← load pipe;
          assert (negb (hi32 (HwPipe.channel r) =? 0));;
          mret (hi32 (HwPipe.channel r))
      end
  end.

(** [pipe_dev_read(opaque, offset, size)]. *)
Definition pipe_dev_read (offset : Z) : M Z :=
  if offset =? u64 PIPE_REG_STATUS then
    d ← get_dev; mret (PipeDevice.status d)
  else if offset =? u64 PIPE_REG_CHANNEL then read_channel
  else if offset =? u64 PIPE_REG_CHANNEL_HIGH then read_channel_high
  else if offset =? u64 PIPE_REG_WAKES then
    d ← get_dev; mret (PipeDevice.wakes d)
  else if offset =? u64 PIPE_REG_PARAMS_ADDR_HIGH then
    d ← get_dev; mret (hi32 (PipeDevice.params_addr d))
  else if offset =? u64 PIPE_REG_PARAMS_ADDR_LOW then
    d ← get_dev; mret (lo32 (PipeDevice.params_addr d))
  else if offset =? u64 PIPE_REG_VERSION then mret PIPE_DEVICE_VERSION
  else mret 0.

End Device.

(** ** A concrete header and a concrete host *)

(** Little-endian fields of a byte buffer. *)
Definition le_bytes (bs : list Z) : Z :=
  foldr (λ b acc, b + 256 * acc) 0 bs.

Definition field (off len : nat) (bs : list Z) : Z :=
  le_bytes (take len (drop off bs)).

Fixpoint to_le (len : nat) (v : Z) : list Z :=
  match len with
  | O => []
  | S len' => v mod 256 :: to_le len' (v / 256)
  end.

Definition set_field (off len : nat) (v : Z) (bs : list Z) : list Z :=
  take off bs ++ to_le len v ++ drop (off + len)%nat bs.

(** Modelled from the spec: hw/misc/android_pipe.h is not among the sources.
    The interface description names the registers, the command, status and
    wake codes, makes the error codes small negative integers and the wake
    flags single bits, and gives the 32-bit parameter block as six 32-bit
    fields in the order channel, size, address, cmd, result, flags.  The
    values below are the wire values of the goldfish pipe protocol, which
    fit that description; in the 64-bit block [channel] and [address] are
    64 bits wide and the fields are packed.  Fields are little-endian. *)
Definition goldfish_header : PipeHeader := {|
  PIPE_REG_COMMAND := 0x00;
  PIPE_REG_STATUS := 0x04;
  PIPE_REG_CHANNEL := 0x08;
  PIPE_REG_CHANNEL_HIGH := 0x30;
  PIPE_REG_SIZE := 0x0c;
  PIPE_REG_ADDRESS := 0x10;
  PIPE_REG_ADDRESS_HIGH := 0x34;
  PIPE_REG_WAKES := 0x14;
  PIPE_REG_PARAMS_ADDR_LOW := 0x18;
  PIPE_REG_PARAMS_ADDR_HIGH := 0x1c;
  PIPE_REG_ACCESS_PARAMS := 0x20;
  PIPE_REG_VERSION := 0x24;
  PIPE_CMD_OPEN := 1;
  PIPE_CMD_CLOSE := 2;
  PIPE_CMD_POLL := 3;
  PIPE_CMD_WRITE_BUFFER := 4;
  PIPE_CMD_WAKE_ON_WRITE := 5;
  PIPE_CMD_READ_BUFFER := 6;
  PIPE_CMD_WAKE_ON_READ := 7;
  PIPE_ERROR_INVAL := -1;
  PIPE_ERROR_IO := -4;
  PIPE_WAKE_CLOSED := 1;
  PIPE_WAKE_READ := 2;
  PIPE_WAKE_WRITE := 4;
  sizeof_aps32 := 24;
  sizeof_aps64 := 32;
  aps32_channel := field 0 4;
  aps32_size := field 4 4;
  aps32_address := field 8 4;
  aps32_cmd := field 12 4;
  aps32_flags := field 20 4;
  aps32_set_result := set_field 16 4;
  aps64_channel := field 0 8;
  aps64_size := field 8 4;
  aps64_address := field 12 8;
  aps64_cmd := field 20 4;
  aps64_set_result := set_field 24 4
|}.

(** Modelled from the spec: the pipe services and the guest memory
    accessors, which the interface description lists as capabilities the
    device consumes, are not among the sources.  This host has one megabyte
    of guest RAM, mapped one to one, and the "zero" pipe as its only
    service: it is always readable and writable, reads give zero bytes,
    writes are swallowed, and it never calls back.  As in QEMU's
    [address_space_map], mapping a length of 0 gives [NULL] and a mapping
    that runs past the end of RAM comes back short. *)
Definition RAM_SIZE : Z := 0x100000.

Definition ram_read (w : gmap Z Z) (addr : Z) (len : nat) : list Z :=
  (λ i, default 0 (w !! (addr + i))) <$> seqZ 0 (Z.of_nat len).

Fixpoint ram_write (w : gmap Z Z) (addr : Z) (bs : list Z) : gmap Z Z :=
  match bs with
  | [] => w
  | b :: bs' => ram_write (<[addr := b]> w) (addr + 1) bs'
  end.

Definition ram_map (w : gmap Z Z) (phys len is_write : Z)
  : option Z * Z * gmap Z Z :=
  if (len =? 0) || (phys <? 0) || (RAM_SIZE <=? phys) then (None, 0, w)
  else (Some phys, Z.min len (RAM_SIZE - phys), w).

Definition zero_host : PipeHost := {|
  World := gmap Z Z;
  android_pipe_new w hwpipe := mkReply (Z.pos hwpipe) [] w;
  android_pipe_free w h := mkReply tt [] w;
  android_pipe_poll w h := mkReply 3 [] w;
  android_pipe_recv w h buffer n :=
    mkReply (buf_size buffer) []
      (ram_write w (data buffer) (replicate (Z.to_nat (buf_size buffer)) 0));
  android_pipe_send w h buffer n := mkReply (buf_size buffer) [] w;
  android_pipe_wake_on w h flags := mkReply tt [] w;
  cpu_physical_memory_map := ram_map;
  cpu_physical_memory_unmap w p len is_write access_len := w;
  cpu_physical_memory_read := ram_read;
  cpu_physical_memory_write := ram_write
|}.

(** Modelled from the spec: the same host with a service that wakes its
    own pipe while it is torn down, as the note in [pipe_free] says
    [android_pipe_free] does. *)
Definition waking_host : PipeHost := {|
  World := gmap Z Z;
  android_pipe_new w hwpipe := mkReply (Z.pos hwpipe) [] w;
  android_pipe_free w h := mkReply tt [signalWake (Z.to_pos h) 1] w;
  android_pipe_poll w h := mkReply 3 [] w;
  android_pipe_recv w h buffer n := mkReply (buf_size buffer) [] w;
  android_pipe_send w h buffer n := mkReply (buf_size buffer) [] w;
  android_pipe_wake_on w h flags := mkReply tt [] w;
  cpu_physical_memory_map := ram_map;
  cpu_physical_memory_unmap w p len is_write access_len := w;
  cpu_physical_memory_read := ram_read;
  cpu_physical_memory_write := ram_write
|}.

(** The machine after [android_pipe_realize], with the given guest RAM. *)
Definition power_on `{PipeHost} (w : World) : Machine :=
  mkMachine _ ∅ PipeDevice.zero [] w.

(** A run of guest and host steps, for building example states. *)
Inductive Step : Type :=
  | GuestWrite (offset value : Z)
  | GuestRead (offset : Z)
  | HostWake (hwpipe : ptr) (flags : Z)
  | HostClose (hwpipe : ptr).

Definition step `{PipeHeader} `{PipeHost} (s : Step) : M unit :=
  match s with
  | GuestWrite offset value => pipe_dev_write offset value
  | GuestRead offset => pipe_dev_read offset;; mret tt
  | HostWake hwpipe flags => qemu2_android_pipe_wake (Some hwpipe) flags
  | HostClose hwpipe => qemu2_android_pipe_close (Some hwpipe)
  end.

Fixpoint run `{PipeHeader} `{PipeHost} (ss : list Step) : M unit :=
  match ss with
  | [] => mret tt
  | s :: ss' => step s;; run ss'
  end.

(** The machine a run leaves, or the machine it started from if the run
    crashed (only used on runs that do not). *)
Definition after_run `{PipeHeader} `{PipeHost} (ss : list Step) (m : Machine) : Machine :=
  match run ss m with
  | Ok (_, m') => m'
  | Crash _ => m
  end.

(** ** Observations used in the statements *)

Section Observations.
Context {hdr : PipeHeader} {host : PipeHost}.

Definition with_dev (f : PipeDevice.t → PipeDevice.t) (m : Machine) : Machine :=
  mkMachine _ (heap m) (f (dev m)) (irq m) (world m).

Definition with_world (w : World) (m : Machine) : Machine :=
  mkMachine _ (heap m) (dev m) (irq m) w.

Definition with_irq (l : list Z) (m : Machine) : Machine :=
  mkMachine _ (heap m) (dev m) l (world m).

Definition with_heap (h : gmap ptr HwPipe.t) (m : Machine) : Machine :=
  mkMachine _ h (dev m) (irq m) (world m).

(** The record the table gives for the latched [channel] register. *)
Definition latched_pipe (m : Machine) : option ptr :=
  PipeDevice.pipes_by_channel (dev m) !! PipeDevice.channel (dev m).

(** The traversal list from [p]: the records reached through [next] up to
    [NULL]. *)
Fixpoint chain (h : gmap ptr HwPipe.t) (p : option ptr) (l : list ptr) : Prop :=
  match l with
  | [] => p = None
  | a :: l' => p = Some a ∧ ∃ r, h !! a = Some r ∧ chain h (HwPipe.next r) l'
  end.

(** The first record from [p] on whose [wanted] is not 0, as the loop of
    the two channel reads finds it. *)
Definition scan (m : Machine) : result (option ptr) :=
  match bounded (λ fuel, skip_unwanted fuel (PipeDevice.pipes (dev m))) m with
  | Ok (p, _) => Ok p
  | Crash c => Crash c
  end.

(** The record a read of [PIPE_REG_CHANNEL] or [PIPE_REG_CHANNEL_HIGH]
    surfaces: a fast-path slot if one is set, else what the scan finds. *)
Definition selected (m : Machine) : result (option ptr) :=
  match PipeDevice.cache_pipe_64bit (dev m), PipeDevice.cache_pipe (dev m) with
  | Some c, _ => Ok (Some c)
  | None, Some c => Ok (Some c)
  | None, None => scan m
  end.


(** The union of the flags, as [unsigned char], that [calls] deposit on
    [p]. *)
Fixpoint deposited (p : ptr) (calls : list (ptr * Z)) : Z :=
  match calls with
  | [] => 0
  | (hwpipe, flags) :: calls' =>
      if decide (hwpipe = p) then Z.lor (u8 flags) (deposited p calls')
      else deposited p calls'
  end.

(** The parameter block as [access_params] decodes it from guest memory:
    whether it is the 64-bit shape, its bytes, and its [channel], [size],
    [address] and [cmd] converted to the types of the device registers. *)
Definition aps_is_64bit (m : Machine) : bool :=
  negb (aps32_flags (cpu_physical_memory_read (world m)
          (PipeDevice.params_addr (dev m)) sizeof_aps32) =? 0).

Definition aps_bytes (m : Machine) : list Z :=
  cpu_physical_memory_read (world m) (PipeDevice.params_addr (dev m))
    (if aps_is_64bit m then sizeof_aps64 else sizeof_aps32).

Definition aps_channel (m : Machine) : Z :=
  u64 (if aps_is_64bit m then aps64_channel (aps_bytes m) else aps32_channel (aps_bytes m)).

Definition aps_size (m : Machine) : Z :=
  u32 (if aps_is_64bit m then aps64_size (aps_bytes m) else aps32_size (aps_bytes m)).

Definition aps_address (m : Machine) : Z :=
  u64 (if aps_is_64bit m then aps64_address (aps_bytes m) else aps32_address (aps_bytes m)).

Definition aps_cmd (m : Machine) : Z :=
  u32 (if aps_is_64bit m then aps64_cmd (aps_bytes m) else aps32_cmd (aps_bytes m)).

(** The bytes written back: the block with [status] in its [result]
    field, in the shape that was detected. *)
Definition aps_result (m : Machine) (status : Z) : list Z :=
  if aps_is_64bit m
  then take sizeof_aps64 (aps64_set_result status (aps_bytes m))
  else take sizeof_aps32 (aps32_set_result status (aps_bytes m)).

(** The device with the given values latched in [channel], [size] and
    [address]. *)
Definition latch (channel size address : Z) (m : Machine) : Machine :=
  with_dev (λ d, PipeDevice.with_address address
                   (PipeDevice.with_size size
                      (PipeDevice.with_channel channel d))) m.

(** The device with [channel], [size] and [address] latched from the
    parameter block. *)
Definition latch_params (m : Machine) : Machine :=
  latch (aps_channel m) (aps_size m) (aps_address m) m.

(** Run command [cmd] on [m0], then write [bytes status] to guest memory at
    [pa], where [status] is the status register the command left. *)
Definition command_then_write_back
    (cmd pa : Z) (bytes : Z → list Z) (m0 : Machine) : result (unit * Machine) :=
  match pipeDevice_doCommand cmd m0 with
  | Ok (_, m1) =>
      Ok (tt, with_world
                (cpu_physical_memory_write (world m1) pa
                   (bytes (PipeDevice.status (dev m1)))) m1)
  | Crash c => Crash c
  end.

(** [upd_status v m]: [m] after [dev->status = v]. *)
Definition upd_status (v : Z) (m : Machine) : Machine :=
  with_dev (PipeDevice.with_status (u32 v)) m.

(** A computation keeps an observation [f] of the machine if every run of
    it that returns leaves [f] as it was. *)
Definition keeps {A X : Type} (f : Machine → X) (x : M A) : Prop :=
  ∀ m a m', x m = Ok (a, m') → f m' = f m.

(** The device registers apart from the slot [cache_pipe], which a host
    wake may set at any time. *)
Definition regs (m : Machine) : PipeDevice.t :=
  PipeDevice.with_cache_pipe None (dev m).

(** What a host callback leaves alone in every record: its links. *)
Definition link_of (r : HwPipe.t) : option ptr * Z * Z :=
  (HwPipe.next r, HwPipe.channel r, HwPipe.pipe r).

Definition links (m : Machine) : gmap ptr (option ptr * Z * Z) :=
  link_of <$> heap m.

Definition params_addr_of (m : Machine) : Z := PipeDevice.params_addr (dev m).

(** The device after [get_and_clear_cache_pipe]: the slot that was read is
    emptied. *)
Definition slots_cleared (d : PipeDevice.t) : PipeDevice.t :=
  match PipeDevice.cache_pipe_64bit d with
  | Some _ => PipeDevice.with_cache_pipe_64bit None d
  | None => PipeDevice.with_cache_pipe None d
  end.

(** What [get_and_clear_cache_pipe] returns: [cache_pipe_64bit] if it is
    set, else [cache_pipe]. *)
Definition in_slot (m : Machine) : option ptr :=
  match PipeDevice.cache_pipe_64bit (dev m) with
  | Some c => Some c
  | None => PipeDevice.cache_pipe (dev m)
  end.

(** The record an upcall is made on, and the upcalls a service may make on
    heap [h]: those on records that have not been freed. *)
Definition upcall_target (u : Upcall) : ptr :=
  match u with
  | signalWake hwpipe _ => hwpipe
  | closeFromHost hwpipe => hwpipe
  end.

Definition upcalls_live (h : gmap ptr HwPipe.t) (us : list Upcall) : Prop :=
  Forall (λ u, is_Some (h !! upcall_target u)) us.

Definition world_of (m : Machine) : World := world m.

(** The two buffer commands: [reading] is [PIPE_CMD_READ_BUFFER], served by
    [android_pipe_recv] on a buffer mapped for writing; otherwise it is
    [PIPE_CMD_WRITE_BUFFER], served by [android_pipe_send]. *)
Definition buffer_cmd (reading : bool) : Z :=
  u32 (if reading then PIPE_CMD_READ_BUFFER else PIPE_CMD_WRITE_BUFFER).

Definition buffer_dir (reading : bool) : Z := if reading then 1 else 0.

Definition transfer (reading : bool) (w : World) (h : Z) (b : AndroidPipeBuffer)
  : Reply World Z :=
  if reading then android_pipe_recv w h b 1 else android_pipe_send w h b 1.

(** Where the walk of [PIPE_CMD_CLOSE] stops on a list [l]: at the cell
    that holds [p], or at the last cell. *)
Fixpoint stop_at (pn : pnode) (p : ptr) (l : list ptr) : pnode :=
  match l with
  | [] => pn
  | a :: l' => if decide (a = p) then pn else stop_at (pnode_next a) p l'
  end.

(** The value a computation returned, and the machine it left ([d] if it
    crashed). *)
Definition returned {A : Type} (x : result (A * Machine)) : option A :=
  match x with
  | Ok (a, _) => Some a
  | Crash _ => None
  end.

Definition crashed {A : Type} (x : result (A * Machine)) : option crash :=
  match x with
  | Ok _ => None
  | Crash c => Some c
  end.

Definition left_by {A : Type} (x : result (A * Machine)) (d : Machine) : Machine :=
  match x with
  | Ok (_, m) => m
  | Crash _ => d
  end.

(** A run of records through which [skip_unwanted] walks: each is live, has
    a [wanted] mask of 0 and points to the next. *)
Fixpoint idle_run (h : gmap ptr HwPipe.t) (p : option ptr) (l : list ptr) : Prop :=
  match l with
  | [] => True
  | a :: l' =>
      p = Some a
      ∧ ∃ r, h !! a = Some r ∧ HwPipe.wanted r = 0 ∧ idle_run h (HwPipe.next r) l'
  end.

(** A run of records through which the walk of [PIPE_CMD_CLOSE] goes: each
    is live, is not [pipe], and points to the next; the cell after the last
    holds one more record that is not [pipe]. *)
Fixpoint other_run (h : gmap ptr HwPipe.t) (pipe q : option ptr) (l : list ptr) : Prop :=
  match l with
  | [] => ∃ c, q = Some c ∧ q ≠ pipe
  | a :: l' =>
      q = Some a ∧ q ≠ pipe
      ∧ ∃ r, h !! a = Some r ∧ other_run h pipe (HwPipe.next r) l'
  end.

(** *** The shape the device keeps *)

(** The table and the two list heads agree with the heap.  Every table
    entry is a live record that carries its key as channel id.  The list
    from [save_pipes] runs over live records to [NULL]; the traversal
    position [pipes] is a suffix of it ([passed] are the records the
    traversal has gone by).  Every record of the list is in the table under
    its id. *)
Definition consistent (m : Machine) : Prop :=
  (∀ c p, PipeDevice.pipes_by_channel (dev m) !! c = Some p →
          ∃ r, heap m !! p = Some r ∧ HwPipe.channel r = c)
  ∧ ∃ passed rest,
      chain (heap m) (PipeDevice.save_pipes (dev m)) (passed ++ rest)
      ∧ chain (heap m) (PipeDevice.pipes (dev m)) rest
      ∧ ∀ p r, p ∈ passed ++ rest → heap m !! p = Some r →
               PipeDevice.pipes_by_channel (dev m) !! HwPipe.channel r = Some p.

(** The part of the device [consistent] speaks of. *)
Definition lists_of (m : Machine) : option ptr * option ptr * gmap Z ptr :=
  (PipeDevice.pipes (dev m), PipeDevice.save_pipes (dev m),
   PipeDevice.pipes_by_channel (dev m)).

(** The two fast-path slots hold no freed record. *)
Definition slots_live (m : Machine) : Prop :=
  ∀ c, PipeDevice.cache_pipe (dev m) = Some c
       ∨ PipeDevice.cache_pipe_64bit (dev m) = Some c →
       is_Some (heap m !! c).

(** A host whose services never call back into the device before they
    return: every wake and every close from the host arrives as a step of
    its own. *)
Definition quiet_host : Prop :=
  (∀ w p, upcalls (android_pipe_new w p) = [])
  ∧ (∀ w h, upcalls (android_pipe_free w h) = [])
  ∧ (∀ w h, upcalls (android_pipe_poll w h) = [])
  ∧ (∀ w h b n, upcalls (android_pipe_recv w h b n) = [])
  ∧ (∀ w h b n, upcalls (android_pipe_send w h b n) = [])
  ∧ (∀ w h f, upcalls (android_pipe_wake_on w h f) = []).

(** A step the environment may take on [m]: any guest access, and a host
    callback on a record that has not been freed. *)
Definition step_allowed (s : Step) (m : Machine) : Prop :=
  match s with
  | GuestWrite _ _ | GuestRead _ => True
  | HostWake hwpipe _ | HostClose hwpipe => is_Some (heap m !! hwpipe)
  end.

(** What no step changes in a record: its channel id and its service
    handle stay, and a closed record stays closed. *)
Definition settled (r r' : HwPipe.t) : Prop :=
  HwPipe.channel r' = HwPipe.channel r
  ∧ HwPipe.pipe r' = HwPipe.pipe r
  ∧ (HwPipe.closed r = true → HwPipe.closed r' = true).

(** A computation moves the machine along a relation [R] if every run of
    it that returns relates the machine it started on to the one it
    left. *)
Definition steps_by (R : Machine → Machine → Prop) {A : Type} (x : M A) : Prop :=
  ∀ m a m', x m = Ok (a, m') → R m m'.

(** Every record of [m] is still there in [m'], settled. *)
Definition records_kept (m m' : Machine) : Prop :=
  ∀ q r, heap m !! q = Some r → ∃ r', heap m' !! q = Some r' ∧ settled r r'.

(** The same, except that the record at [p] may have been freed. *)
Definition kept_or_freed (p : ptr) (m m' : Machine) : Prop :=
  ∀ q r, heap m !! q = Some r →
         (∃ r', heap m' !! q = Some r' ∧ settled r r')
         ∨ (q = p ∧ heap m' !! q = None).

(** The calls made to [qemu_set_irq], as an observation. *)
Definition irq_of (m : Machine) : list Z := irq m.

(** The interrupt line was only raised between [m] and [m']. *)
Definition irq_raised (m m' : Machine) : Prop :=
  ∃ k, irq m' = replicate k 1 ++ irq m.

(** [n] reads of [PIPE_REG_CHANNEL] in a row, with the values read. *)
Fixpoint read_channels (n : nat) : M (list Z) :=
  match n with
  | O => mret []
  | S n' =>
      v ← pipe_dev_read (u64 PIPE_REG_CHANNEL);
      vs ← read_channels n';
      mret (v :: vs)
  end.

(** The records of the list [l] whose [wanted] mask is not 0, in the order
    of the list, and the first of them. *)
Definition signalled (h : gmap ptr HwPipe.t) (l : list ptr) : list HwPipe.t :=
  omap (λ p, match h !! p with
             | Some r => if HwPipe.wanted r =? 0 then None else Some r
             | None => None
             end) l.

Fixpoint first_wanted (h : gmap ptr HwPipe.t) (l : list ptr) : option ptr :=
  match l with
  | [] => None
  | a :: l' =>
      match h !! a with
      | Some r => if HwPipe.wanted r =? 0 then first_wanted h l' else Some a
      | None => None
      end
  end.

(** The two wake-on commands: [on_read] is [PIPE_CMD_WAKE_ON_READ], which
    asks for [PIPE_WAKE_READ]; otherwise [PIPE_CMD_WAKE_ON_WRITE], which asks
    for [PIPE_WAKE_WRITE]. *)
Definition wake_on_cmd (on_read : bool) : Z :=
  u32 (if on_read then PIPE_CMD_WAKE_ON_READ else PIPE_CMD_WAKE_ON_WRITE).

Definition wake_on_flag (on_read : bool) : Z :=
  if on_read then PIPE_WAKE_READ else PIPE_WAKE_WRITE.

End Observations.

(** ** Example machines *)

Section Examples.
#[local] Existing Instance goldfish_header.
#[local] Existing Instance zero_host.

(** The machine after power-on with empty guest RAM. *)
Definition bench : Machine := power_on ∅.

(** Channel 2 is opened, the host closes it, and the guest polls it: the
    poll fails and leaves [PIPE_ERROR_IO] in the status register. *)
Definition m_polled_closed : Machine :=
  after_run [GuestWrite PIPE_REG_CHANNEL 2; GuestWrite PIPE_REG_COMMAND PIPE_CMD_OPEN;
             HostClose 1%positive;
             GuestWrite PIPE_REG_COMMAND PIPE_CMD_POLL] bench.

(** Channels 1, 2 and 3 are opened, the third after the guest has read
    the channel register once with channel 2 signaled: the list then starts
    at the record of channel 3 and skips the one of channel 2, which is
    still in the table. *)
Definition m_dropped : Machine :=
  after_run [GuestWrite PIPE_REG_CHANNEL 1; GuestWrite PIPE_REG_COMMAND PIPE_CMD_OPEN;
             GuestWrite PIPE_REG_CHANNEL 2; GuestWrite PIPE_REG_COMMAND PIPE_CMD_OPEN;
             GuestWrite PIPE_REG_COMMAND PIPE_CMD_WAKE_ON_READ;
             GuestRead PIPE_REG_CHANNEL;
             GuestWrite PIPE_REG_CHANNEL 3; GuestWrite PIPE_REG_COMMAND PIPE_CMD_OPEN;
             GuestWrite PIPE_REG_CHANNEL 2] bench.

(** No channel is open and the channel register holds 0xDEAD. *)
Definition m_unknown : Machine :=
  after_run [GuestWrite PIPE_REG_CHANNEL 0xDEAD] bench.

(** Channels 1 and 2 are open, the host has woken both for reading, and
    the guest has read the channel register once (which gave channel 2,
    from the fast-path slot). *)
Definition m_two_woken : Machine :=
  after_run [GuestWrite PIPE_REG_CHANNEL 1; GuestWrite PIPE_REG_COMMAND PIPE_CMD_OPEN;
             GuestWrite PIPE_REG_CHANNEL 2; GuestWrite PIPE_REG_COMMAND PIPE_CMD_OPEN;
             HostWake 1%positive PIPE_WAKE_READ; HostWake 2%positive PIPE_WAKE_READ;
             GuestRead PIPE_REG_CHANNEL] bench.

(** Channel 0x700000005 is open and the host has woken it for reading. *)
Definition m_wide_woken : Machine :=
  after_run [GuestWrite PIPE_REG_CHANNEL 5; GuestWrite PIPE_REG_CHANNEL_HIGH 7;
             GuestWrite PIPE_REG_COMMAND PIPE_CMD_OPEN;
             HostWake 1%positive PIPE_WAKE_READ] bench.

(** Channel 1 is open and the host has woken it for reading. *)
Definition m_narrow_woken : Machine :=
  after_run [GuestWrite PIPE_REG_CHANNEL 1; GuestWrite PIPE_REG_COMMAND PIPE_CMD_OPEN;
             HostWake 1%positive PIPE_WAKE_READ] bench.

(** Channel 1 is open; [address] is 0x2000 and [size] is 0. *)
Definition m_zero_size : Machine :=
  after_run [GuestWrite PIPE_REG_CHANNEL 1; GuestWrite PIPE_REG_COMMAND PIPE_CMD_OPEN;
             GuestWrite PIPE_REG_ADDRESS 0x2000; GuestWrite PIPE_REG_SIZE 0] bench.

(** Channel 3 is open. *)
Definition m_open3 : Machine :=
  after_run [GuestWrite PIPE_REG_CHANNEL 3; GuestWrite PIPE_REG_COMMAND PIPE_CMD_OPEN] bench.

(** Channel 3 is open and the host has closed it. *)
Definition m_closed3 : Machine :=
  after_run [HostClose 1%positive] m_open3.

(** Channel 1 is open, and guest memory holds at 0x1000 a parameter block
    in the 32-bit shape: channel 1, size 4, address 0x2000, command [cmd],
    result 0, flags 0. *)
Definition params32 (cmd : Z) : list Z :=
  to_le 4 1 ++ to_le 4 4 ++ to_le 4 0x2000 ++ to_le 4 cmd ++ to_le 4 0 ++ to_le 4 0.

Definition m_params32 (cmd : Z) : Machine :=
  after_run [GuestWrite PIPE_REG_CHANNEL 1; GuestWrite PIPE_REG_COMMAND PIPE_CMD_OPEN;
             GuestWrite PIPE_REG_CHANNEL 9;
             GuestWrite PIPE_REG_PARAMS_ADDR_LOW 0x1000]
    (power_on (ram_write ∅ 0x1000 (params32 cmd))).

(** The same with a block in the 64-bit shape: channel 1, size 4, address
    0x2000, command [cmd], result 0, flags 1. *)
Definition params64 (cmd : Z) : list Z :=
  to_le 8 1 ++ to_le 4 4 ++ to_le 8 0x2000 ++ to_le 4 cmd ++ to_le 4 0 ++ to_le 4 1.

Definition m_params64 (cmd : Z) : Machine :=
  after_run [GuestWrite PIPE_REG_CHANNEL 1; GuestWrite PIPE_REG_COMMAND PIPE_CMD_OPEN;
             GuestWrite PIPE_REG_CHANNEL 9;
             GuestWrite PIPE_REG_PARAMS_ADDR_LOW 0x1000]
    (power_on (ram_write ∅ 0x1000 (params64 cmd))).

(** Channel 1 is open; [address] is 0x2000 and [size] is 4. *)
Definition m_buffer4 : Machine :=
  after_run [GuestWrite PIPE_REG_CHANNEL 1; GuestWrite PIPE_REG_COMMAND PIPE_CMD_OPEN;
             GuestWrite PIPE_REG_ADDRESS 0x2000; GuestWrite PIPE_REG_SIZE 4] bench.

(** Channels 0x700000005 and 0x700000006 are open, in records 1 and 2; the
    guest has asked to be woken when the first is readable.  No slot is
    set; the list runs from record 2 to record 1. *)
Definition m_pair : Machine :=
  after_run [GuestWrite PIPE_REG_CHANNEL 5; GuestWrite PIPE_REG_CHANNEL_HIGH 7;
             GuestWrite PIPE_REG_COMMAND PIPE_CMD_OPEN;
             GuestWrite PIPE_REG_CHANNEL 6; GuestWrite PIPE_REG_COMMAND PIPE_CMD_OPEN;
             GuestWrite PIPE_REG_CHANNEL 5;
             GuestWrite PIPE_REG_COMMAND PIPE_CMD_WAKE_ON_READ] bench.

(** Channel 1 is open on the host whose service wakes its pipe while it is
    torn down. *)
Definition m_waking_open : Machine (H:=waking_host) :=
  after_run (H0:=waking_host)
    [GuestWrite PIPE_REG_CHANNEL 1; GuestWrite PIPE_REG_COMMAND PIPE_CMD_OPEN]
    (power_on (H:=waking_host) ∅).

End Examples.

(** ** Proofs *)

Section Proofs.
Context {hdr : PipeHeader} {host : PipeHost}.

(** *** The monad *)

Lemma bind_unfold {A B : Type} (x : M A) (f : A → M B) (m : Machine) :
  (x ≫= f) m = match x m with Ok (a, m') => f a m' | Crash c => Crash c end.
Proof. reflexivity. Qed.

Lemma bind_Ok {A B : Type} (x : M A) (f : A → M B) (m m' : Machine) (a : A) :
  x m = Ok (a, m') → (x ≫= f) m = f a m'.
Proof. intros E. rewrite bind_unfold, E. reflexivity. Qed.

Lemma bind_Ok_inv {A B : Type} (x : M A) (f : A → M B) (m m2 : Machine) (b : B) :
  (x ≫= f) m = Ok (b, m2) → ∃ a m1, x m = Ok (a, m1) ∧ f a m1 = Ok (b, m2).
Proof.
  rewrite bind_unfold. destruct (x m) as [[a m1]|c]; [|discriminate].
  intros E. exists a, m1. split; [reflexivity|exact E].
Qed.

Lemma returned_Ok {A : Type} (x : result (A * Machine)) (a : A) (d : Machine) :
  returned x = Some a → x = Ok (a, left_by x d).
Proof. destruct x as [[a' m]|c]; simpl; [intros [= ->]; reflexivity|discriminate]. Qed.

Lemma crashed_Crash {A : Type} (x : result (A * Machine)) (c : crash) :
  crashed x = Some c → x = Crash c.
Proof. destruct x as [[a' m]|c']; simpl; [discriminate|intros [= ->]; reflexivity]. Qed.

Lemma machine_eta (m : Machine) :
  mkMachine _ (heap m) (dev m) (irq m) (world m) = m.
Proof. destruct m; reflexivity. Qed.

(** *** The labels of the two switches *)

Lemma NoDup_neq {A : Type} (l : list A) (i j : nat) (x y : A) :
  NoDup l → l !! i = Some x → l !! j = Some y → i ≠ j → x ≠ y.
Proof.
  intros Hnd Hi Hj Hij ->. apply Hij. eapply NoDup_lookup; eauto.
Qed.

Lemma header_ok_commands : header_ok = true → NoDup command_labels.
Proof.
  unfold header_ok. intros H%andb_prop. destruct H as [H _].
  exact (bool_decide_unpack _ (Is_true_true_2 _ H)).
Qed.

Lemma header_ok_registers : header_ok = true → NoDup register_labels.
Proof.
  unfold header_ok. intros H%andb_prop. destruct H as [_ H].
  exact (bool_decide_unpack _ (Is_true_true_2 _ H)).
Qed.

Lemma command_neq (i j : nat) (x y : Z) :
  header_ok = true → command_labels !! i = Some x → command_labels !! j = Some y →
  i ≠ j → (x =? y) = false.
Proof.
  intros Hok Hi Hj Hij. apply Z.eqb_neq.
  eapply NoDup_neq; eauto using header_ok_commands.
Qed.

Lemma register_neq (i j : nat) (x y : Z) :
  header_ok = true → register_labels !! i = Some x → register_labels !! j = Some y →
  i ≠ j → (x =? y) = false.
Proof.
  intros Hok Hi Hj Hij. apply Z.eqb_neq.
  eapply NoDup_neq; eauto using header_ok_registers.
Qed.

Lemma write_access_params (value : Z) :
  header_ok = true →
  pipe_dev_write (u64 PIPE_REG_ACCESS_PARAMS) value = access_params.
Proof.
  intros Hok. unfold pipe_dev_write.
  rewrite (register_neq 10 0 _ _ Hok eq_refl eq_refl) by lia.
  rewrite (register_neq 10 4 _ _ Hok eq_refl eq_refl) by lia.
  rewrite (register_neq 10 5 _ _ Hok eq_refl eq_refl) by lia.
  rewrite (register_neq 10 6 _ _ Hok eq_refl eq_refl) by lia.
  rewrite (register_neq 10 2 _ _ Hok eq_refl eq_refl) by lia.
  rewrite (register_neq 10 3 _ _ Hok eq_refl eq_refl) by lia.
  rewrite (register_neq 10 9 _ _ Hok eq_refl eq_refl) by lia.
  rewrite (register_neq 10 8 _ _ Hok eq_refl eq_refl) by lia.
  rewrite Z.eqb_refl. reflexivity.
Qed.

Lemma read_reg_channel :
  header_ok = true → pipe_dev_read (u64 PIPE_REG_CHANNEL) = read_channel.
Proof.
  intros Hok. unfold pipe_dev_read.
  rewrite (register_neq 2 1 _ _ Hok eq_refl eq_refl) by lia.
  rewrite Z.eqb_refl. reflexivity.
Qed.

Lemma read_reg_channel_high :
  header_ok = true → pipe_dev_read (u64 PIPE_REG_CHANNEL_HIGH) = read_channel_high.
Proof.
  intros Hok. unfold pipe_dev_read.
  rewrite (register_neq 3 1 _ _ Hok eq_refl eq_refl) by lia.
  rewrite (register_neq 3 2 _ _ Hok eq_refl eq_refl) by lia.
  rewrite Z.eqb_refl. reflexivity.
Qed.

Lemma Ok_inv {A : Type} (a a' : A) (m m' : Machine) :
  Ok (a, m) = Ok (a', m') → a = a' ∧ m = m'.
Proof. intros [= -> ->]. done. Qed.

(** *** Frame rules *)

Lemma keeps_ret {A X : Type} (f : Machine → X) (a : A) : keeps f (mret a).
Proof. intros m a' m' [_ <-]%Ok_inv. reflexivity. Qed.

Lemma keeps_raise {A X : Type} (f : Machine → X) (c : crash) :
  keeps f (raise (A:=A) c).
Proof. intros m a' m' [=]. Qed.

Lemma keeps_bind {A B X : Type} (f : Machine → X) (x : M A) (k : A → M B) :
  keeps f x → (∀ a, keeps f (k a)) → keeps f (x ≫= k).
Proof.
  intros Hx Hk m b m2 (a & m1 & E1 & E2)%bind_Ok_inv.
  rewrite (Hk _ _ _ _ E2). eauto.
Qed.

Lemma keeps_get_dev {X : Type} (f : Machine → X) : keeps f get_dev.
Proof. intros m a' m' [_ <-]%Ok_inv. reflexivity. Qed.

Lemma keeps_get_world {X : Type} (f : Machine → X) : keeps f get_world.
Proof. intros m a' m' [_ <-]%Ok_inv. reflexivity. Qed.

Lemma keeps_load {X : Type} (f : Machine → X) (p : option ptr) : keeps f (load p).
Proof.
  intros m a' m'. unfold load. destruct p as [a|]; [|done].
  destruct (heap m !! a); [|done]. intros [_ <-]%Ok_inv. reflexivity.
Qed.

Lemma keeps_set_dev {X : Type} (f : Machine → X) (g : PipeDevice.t → PipeDevice.t) :
  (∀ m, f (with_dev g m) = f m) → keeps f (set_dev g).
Proof. intros H m a' m' [_ <-]%Ok_inv. apply H. Qed.

Lemma keeps_set_world {X : Type} (f : Machine → X) (w : World) :
  (∀ m, f (with_world w m) = f m) → keeps f (set_world w).
Proof. intros H m a' m' [_ <-]%Ok_inv. apply H. Qed.

Lemma keeps_qemu_set_irq {X : Type} (f : Machine → X) (l : Z) :
  (∀ m i, f (with_irq i m) = f m) → keeps f (qemu_set_irq l).
Proof. intros H m a' m' [_ <-]%Ok_inv. apply (H m). Qed.

Lemma keeps_store {X : Type} (f : Machine → X) (p : option ptr) (g : HwPipe.t → HwPipe.t) :
  (∀ m h, f (with_heap h m) = f m) → keeps f (store p g).
Proof.
  intros H m a' m'. unfold store. destruct p as [a|]; [|done].
  destruct (heap m !! a); [|done]. intros [_ <-]%Ok_inv. apply (H m).
Qed.

Lemma keeps_g_malloc0 {X : Type} (f : Machine → X) :
  (∀ m h, f (with_heap h m) = f m) → keeps f g_malloc0.
Proof. intros H m a' m' [_ <-]%Ok_inv. apply (H m). Qed.

Lemma keeps_g_free {X : Type} (f : Machine → X) (p : option ptr) :
  (∀ m h, f (with_heap h m) = f m) → keeps f (g_free p).
Proof.
  intros H m a' m'. unfold g_free.
  destruct p as [a|]; [|intros [_ <-]%Ok_inv; reflexivity].
  destruct (heap m !! a); [|done]. intros [_ <-]%Ok_inv. apply (H m).
Qed.

Lemma keeps_bounded {A X : Type} (f : Machine → X) (loop : nat → M A) :
  (∀ fuel, keeps f (loop fuel)) → keeps f (bounded loop).
Proof. intros H m a m'. apply H. Qed.

Ltac keeps_step :=
  match goal with
  | |- keeps _ (mret _) => apply keeps_ret
  | |- keeps _ (raise _) => apply keeps_raise
  | |- keeps _ (_ ≫= _) => apply keeps_bind; [|intros ?]
  | |- keeps _ get_dev => apply keeps_get_dev
  | |- keeps _ get_world => apply keeps_get_world
  | |- keeps _ (load _) => apply keeps_load
  | |- keeps _ (set_dev _) => apply keeps_set_dev; intros ?; reflexivity
  | |- keeps _ (set_world _) => apply keeps_set_world; intros ?; reflexivity
  | |- keeps _ (qemu_set_irq _) => apply keeps_qemu_set_irq; intros ? ?; reflexivity
  | |- keeps _ (store _ _) => apply keeps_store; intros ? ?; reflexivity
  | |- keeps _ g_malloc0 => apply keeps_g_malloc0; intros ? ?; reflexivity
  | |- keeps _ (g_free _) => apply keeps_g_free; intros ? ?; reflexivity
  | |- keeps _ (bounded _) => apply keeps_bounded; intros ?
  | |- keeps _ (if ?b then _ else _) => destruct b
  | |- keeps _ (match ?o with Some _ => _ | None => _ end) => destruct o
  | |- keeps _ (let '(_, _) := ?p in _) => destruct p
  | |- keeps _ (match ?o with pnode_pipes => _ | pnode_next _ => _ end) => destruct o
  | H : context [keeps] |- keeps _ _ => solve [apply H]
  end.

(** *** Nothing but a write to the two [PARAMS_ADDR] registers changes
    [params_addr] *)

Lemma wake_keeps_params_addr (p : option ptr) (flags : Z) :
  keeps params_addr_of (qemu2_android_pipe_wake p flags).
Proof.
  unfold qemu2_android_pipe_wake, set_pipe_wanted_bits, set_cache_pipe.
  repeat keeps_step.
Qed.

Lemma close_keeps_params_addr (p : option ptr) :
  keeps params_addr_of (qemu2_android_pipe_close p).
Proof.
  pose proof wake_keeps_params_addr.
  unfold qemu2_android_pipe_close. repeat keeps_step.
Qed.

Lemma upcalls_keep_params_addr (us : list Upcall) :
  keeps params_addr_of (run_upcalls us).
Proof.
  pose proof wake_keeps_params_addr. pose proof close_keeps_params_addr.
  induction us as [|[q fl|q] us IH]; simpl; unfold run_upcall; repeat keeps_step.
Qed.

Lemma call_keeps_params_addr {A : Type} (f : World → Reply World A) :
  keeps params_addr_of (call f).
Proof.
  pose proof upcalls_keep_params_addr. unfold call. repeat keeps_step.
Qed.

Lemma map_guest_buffer_keeps_params_addr (phys size is_write : Z) :
  keeps params_addr_of (map_guest_buffer phys size is_write).
Proof. unfold map_guest_buffer. repeat keeps_step. Qed.

Lemma find_pnode_keeps_params_addr (fuel : nat) (pn : pnode) (pipe : option ptr) :
  keeps params_addr_of (find_pnode fuel pn pipe).
Proof.
  revert pn. induction fuel as [|fuel IH]; intros pn; simpl;
    unfold read_pnode; destruct pn; repeat keeps_step.
Qed.

Lemma doCommand_keeps_params_addr (command : Z) :
  keeps params_addr_of (pipeDevice_doCommand command).
Proof.
  pose proof (@call_keeps_params_addr Z).
  pose proof (@call_keeps_params_addr unit).
  pose proof map_guest_buffer_keeps_params_addr.
  pose proof find_pnode_keeps_params_addr.
  unfold pipeDevice_doCommand, cmd_open, cmd_close, cmd_poll, cmd_read_buffer,
    cmd_write_buffer, cmd_wake_on, set_status, pipe_new, pipe_new0, pipe_free,
    clear_cache_pipe_if_equal, read_pnode, write_pnode.
  repeat keeps_step.
Qed.

Ltac munfold :=
  cbv [mbind M_bind mret M_ret set_dev get_dev get_world set_world
       qemu_set_irq raise].

(** *** The packed-parameter path *)

Lemma access_params_spec (m : Machine) :
  access_params m =
  if PipeDevice.params_addr (dev m) =? 0 then Ok (tt, m)
  else if negb (aps_cmd m =? u32 PIPE_CMD_READ_BUFFER)
          && negb (aps_cmd m =? u32 PIPE_CMD_WRITE_BUFFER)
  then Ok (tt, latch_params m)
  else command_then_write_back (aps_cmd m) (PipeDevice.params_addr (dev m))
         (aps_result m) (latch_params m).
Proof.
  unfold access_params, command_then_write_back, aps_cmd, aps_result,
    latch_params, latch, aps_channel, aps_size, aps_address, aps_bytes,
    aps_is_64bit, with_dev, with_world.
  munfold.
  destruct (PipeDevice.params_addr (dev m) =? 0) eqn:Epa; [reflexivity|].
  destruct (aps32_flags _ =? 0) eqn:Efl; simpl.
  - destruct (negb _ && negb _) eqn:Ec; [reflexivity|].
    match goal with |- context [pipeDevice_doCommand ?c ?m0] =>
      pose proof (doCommand_keeps_params_addr c m0) as Hk;
      destruct (pipeDevice_doCommand c m0) as [[[] m1]|e] eqn:Ed; [|reflexivity] end.
    specialize (Hk _ _ eq_refl). unfold params_addr_of in Hk. simpl in Hk.
    rewrite Hk. reflexivity.
  - destruct (negb _ && negb _) eqn:Ec; [reflexivity|].
    match goal with |- context [pipeDevice_doCommand ?c ?m0] =>
      pose proof (doCommand_keeps_params_addr c m0) as Hk;
      destruct (pipeDevice_doCommand c m0) as [[[] m1]|e] eqn:Ed; [|reflexivity] end.
    specialize (Hk _ _ eq_refl). unfold params_addr_of in Hk. simpl in Hk.
    rewrite Hk. reflexivity.
Qed.

(** C8.  A write to [PIPE_REG_ACCESS_PARAMS] with [params_addr] not 0 reads
    the 32-bit shape of the parameter block.  If its [flags] are 0 the block
    is decoded in the 32-bit layout, else it is read again in the 64-bit
    layout.  In both cases [channel], [size] and [address] are latched from
    the block; a [cmd] other than [PIPE_CMD_READ_BUFFER] and
    [PIPE_CMD_WRITE_BUFFER] is not run; a buffer command is run by the
    command engine, and then the block, with the status the command left in
    its [result] field, is written back at [params_addr] in the shape that
    was detected. *)
Theorem access_params_runs_buffer_commands (m : Machine) (value : Z) :
  header_ok = true →
  PipeDevice.params_addr (dev m) ≠ 0 →
  let pa := PipeDevice.params_addr (dev m) in
  let b32 := cpu_physical_memory_read (world m) pa sizeof_aps32 in
  let b64 := cpu_physical_memory_read (world m) pa sizeof_aps64 in
  let is_buffer_cmd c :=
    c = u32 PIPE_CMD_READ_BUFFER ∨ c = u32 PIPE_CMD_WRITE_BUFFER in
  (aps32_flags b32 = 0 →
     let m0 := latch (u64 (aps32_channel b32)) (u32 (aps32_size b32))
                 (u64 (aps32_address b32)) m in
     let cmd := u32 (aps32_cmd b32) in
     (¬ is_buffer_cmd cmd →
        pipe_dev_write (u64 PIPE_REG_ACCESS_PARAMS) value m = Ok (tt, m0))
     ∧ (is_buffer_cmd cmd →
          pipe_dev_write (u64 PIPE_REG_ACCESS_PARAMS) value m =
          command_then_write_back cmd pa
            (λ status, take sizeof_aps32 (aps32_set_result status b32)) m0))
  ∧ (aps32_flags b32 ≠ 0 →
       let m0 := latch (u64 (aps64_channel b64)) (u32 (aps64_size b64))
                   (u64 (aps64_address b64)) m in
       let cmd := u32 (aps64_cmd b64) in
       (¬ is_buffer_cmd cmd →
          pipe_dev_write (u64 PIPE_REG_ACCESS_PARAMS) value m = Ok (tt, m0))
       ∧ (is_buffer_cmd cmd →
            pipe_dev_write (u64 PIPE_REG_ACCESS_PARAMS) value m =
            command_then_write_back cmd pa
              (λ status, take sizeof_aps64 (aps64_set_result status b64)) m0)).
Proof.
  intros Hok Hpa. cbv zeta.
  rewrite (write_access_params value Hok), access_params_spec.
  apply Z.eqb_neq in Hpa. rewrite Hpa.
  unfold latch_params, aps_cmd, aps_channel, aps_size, aps_address,
    aps_result, aps_bytes, aps_is_64bit.
  split; intros Hfl.
  - apply Z.eqb_eq in Hfl. rewrite Hfl. simpl. split; intros Hc.
    + destruct (Z.eqb_spec (u32 (aps32_cmd (cpu_physical_memory_read (world m)
                  (PipeDevice.params_addr (dev m)) sizeof_aps32)))
                  (u32 PIPE_CMD_READ_BUFFER)); [tauto|].
      destruct (Z.eqb_spec (u32 (aps32_cmd (cpu_physical_memory_read (world m)
                  (PipeDevice.params_addr (dev m)) sizeof_aps32)))
                  (u32 PIPE_CMD_WRITE_BUFFER)); [tauto|].
      reflexivity.
    + destruct Hc as [-> | ->]; rewrite Z.eqb_refl; simpl;
        rewrite ?andb_false_r; reflexivity.
  - apply Z.eqb_neq in Hfl. rewrite Hfl. simpl. split; intros Hc.
    + destruct (Z.eqb_spec (u32 (aps64_cmd (cpu_physical_memory_read (world m)
                  (PipeDevice.params_addr (dev m)) sizeof_aps64)))
                  (u32 PIPE_CMD_READ_BUFFER)); [tauto|].
      destruct (Z.eqb_spec (u32 (aps64_cmd (cpu_physical_memory_read (world m)
                  (PipeDevice.params_addr (dev m)) sizeof_aps64)))
                  (u32 PIPE_CMD_WRITE_BUFFER)); [tauto|].
      reflexivity.
    + destruct Hc as [-> | ->]; rewrite Z.eqb_refl; simpl;
        rewrite ?andb_false_r; reflexivity.
Qed.

(** C10.  A write to [PIPE_REG_ACCESS_PARAMS] with [params_addr] equal to 0
    changes nothing.  With [params_addr] not 0 and a decoded [cmd] that is
    neither [PIPE_CMD_READ_BUFFER] nor [PIPE_CMD_WRITE_BUFFER], the write
    latches [channel], [size] and [address] from the parameter block and
    changes nothing else: the status register, the other registers, the
    heap, the interrupt line and the host (so guest memory, and with it the
    [result] field of the block) are as before. *)
Theorem access_params_ignored_command (m : Machine) (value : Z) :
  header_ok = true →
  (PipeDevice.params_addr (dev m) = 0 →
     pipe_dev_write (u64 PIPE_REG_ACCESS_PARAMS) value m = Ok (tt, m))
  ∧ (PipeDevice.params_addr (dev m) ≠ 0 →
     aps_cmd m ≠ u32 PIPE_CMD_READ_BUFFER →
     aps_cmd m ≠ u32 PIPE_CMD_WRITE_BUFFER →
     ∃ m',
       pipe_dev_write (u64 PIPE_REG_ACCESS_PARAMS) value m = Ok (tt, m')
       ∧ dev m' = PipeDevice.with_address (aps_address m)
                    (PipeDevice.with_size (aps_size m)
                       (PipeDevice.with_channel (aps_channel m) (dev m)))
       ∧ PipeDevice.status (dev m') = PipeDevice.status (dev m)
       ∧ world m' = world m
       ∧ heap m' = heap m
       ∧ irq m' = irq m).
Proof.
  intros Hok. rewrite (write_access_params value Hok), access_params_spec.
  split.
  - intros ->. reflexivity.
  - intros Hpa Hr Hw. apply Z.eqb_neq in Hpa, Hr, Hw. rewrite Hpa, Hr, Hw.
    simpl. exists (latch_params m). repeat split; reflexivity.
Qed.

(** *** The two checks at the head of the command engine *)

(** C2.  For every command other than [PIPE_CMD_OPEN], if the table has no
    channel for the latched [channel] register the command engine sets
    [status] to [PIPE_ERROR_INVAL] and does nothing else; and if the table
    gives a channel that is closed, every command other than
    [PIPE_CMD_CLOSE] sets [status] to [PIPE_ERROR_IO] and does nothing
    else. *)
Theorem doCommand_unknown_or_closed (m : Machine) (command : Z) :
  (command ≠ u32 PIPE_CMD_OPEN → latched_pipe m = None →
     pipeDevice_doCommand command m = Ok (tt, upd_status PIPE_ERROR_INVAL m))
  ∧ (∀ p r, latched_pipe m = Some p → heap m !! p = Some r →
       HwPipe.closed r = true → command ≠ u32 PIPE_CMD_CLOSE →
       pipeDevice_doCommand command m = Ok (tt, upd_status PIPE_ERROR_IO m)).
Proof.
  unfold latched_pipe, pipeDevice_doCommand, set_status, load. munfold. split.
  - intros Hc ->. apply Z.eqb_neq in Hc. rewrite Hc. reflexivity.
  - intros p r -> Hr Hcl Hc. apply Z.eqb_neq in Hc.
    rewrite andb_false_r, Hr, Hcl, Hc. reflexivity.
Qed.

(** *** The two channel reads *)

Tactic Notation "msimpl" :=
  cbn [heap dev irq world
       HwPipe.next HwPipe.channel HwPipe.wanted HwPipe.closed HwPipe.pipe
       HwPipe.with_next HwPipe.with_channel HwPipe.with_wanted
       HwPipe.with_closed HwPipe.with_pipe
       PipeDevice.pipes PipeDevice.save_pipes PipeDevice.cache_pipe
       PipeDevice.cache_pipe_64bit PipeDevice.pipes_by_channel
       PipeDevice.address PipeDevice.size PipeDevice.status
       PipeDevice.channel PipeDevice.wakes PipeDevice.params_addr
       PipeDevice.with_pipes PipeDevice.with_save_pipes
       PipeDevice.with_cache_pipe PipeDevice.with_cache_pipe_64bit
       PipeDevice.with_pipes_by_channel PipeDevice.with_address
       PipeDevice.with_size PipeDevice.with_status PipeDevice.with_channel
       PipeDevice.with_wakes PipeDevice.with_params_addr].
Tactic Notation "msimpl" "in" hyp(H) :=
  cbn [heap dev irq world
       HwPipe.next HwPipe.channel HwPipe.wanted HwPipe.closed HwPipe.pipe
       HwPipe.with_next HwPipe.with_channel HwPipe.with_wanted
       HwPipe.with_closed HwPipe.with_pipe
       PipeDevice.pipes PipeDevice.save_pipes PipeDevice.cache_pipe
       PipeDevice.cache_pipe_64bit PipeDevice.pipes_by_channel
       PipeDevice.address PipeDevice.size PipeDevice.status
       PipeDevice.channel PipeDevice.wakes PipeDevice.params_addr
       PipeDevice.with_pipes PipeDevice.with_save_pipes
       PipeDevice.with_cache_pipe PipeDevice.with_cache_pipe_64bit
       PipeDevice.with_pipes_by_channel PipeDevice.with_address
       PipeDevice.with_size PipeDevice.with_status PipeDevice.with_channel
       PipeDevice.with_wakes PipeDevice.with_params_addr] in H.

Lemma skip_unwanted_pure (fuel : nat) (p q : option ptr) (m m' : Machine) :
  skip_unwanted fuel p m = Ok (q, m') → m' = m.
Proof.
  revert p. induction fuel as [|fuel IH]; intros p; simpl;
    (destruct p as [a|]; [|intros [_ <-]%Ok_inv; reflexivity]);
    unfold load; munfold; destruct (heap m !! a) as [r|]; try discriminate;
    destruct (HwPipe.wanted r =? 0); try discriminate;
    try (intros [_ <-]%Ok_inv; reflexivity).
  apply IH.
Qed.

Lemma skip_unwanted_found (fuel : nat) (p : option ptr) (a : ptr) (m m' : Machine) :
  skip_unwanted fuel p m = Ok (Some a, m') →
  ∃ r, heap m !! a = Some r ∧ HwPipe.wanted r ≠ 0.
Proof.
  revert p. induction fuel as [|fuel IH]; intros p; simpl;
    (destruct p as [b|]; [|discriminate]);
    unfold load; munfold; destruct (heap m !! b) as [r|] eqn:Eb; try discriminate;
    destruct (Z.eqb_spec (HwPipe.wanted r) 0); try discriminate;
    try (intros [[= <-] _]%Ok_inv; eauto).
  apply IH.
Qed.

Lemma skip_unwanted_here (fuel : nat) (a : ptr) (r : HwPipe.t) (m : Machine) :
  heap m !! a = Some r → HwPipe.wanted r ≠ 0 →
  skip_unwanted fuel (Some a) m = Ok (Some a, m).
Proof.
  intros Hr Hw. apply Z.eqb_neq in Hw.
  destruct fuel; simpl; unfold load; munfold; rewrite Hr, Hw; reflexivity.
Qed.

Lemma scan_Ok (m : Machine) (q : option ptr) :
  scan m = Ok q ↔
  bounded (λ fuel, skip_unwanted fuel (PipeDevice.pipes (dev m))) m = Ok (q, m).
Proof.
  unfold scan. split.
  - destruct (bounded _ m) as [[q' m']|c] eqn:E; [|discriminate].
    intros [= ->]. unfold bounded in E. rewrite (skip_unwanted_pure _ _ _ _ _ E) in E |- *.
    reflexivity.
  - intros ->. reflexivity.
Qed.

Lemma scan_Crash (m : Machine) (c : crash) :
  scan m = Crash c ↔
  bounded (λ fuel, skip_unwanted fuel (PipeDevice.pipes (dev m))) m = Crash c.
Proof.
  unfold scan. destruct (bounded _ m) as [[q' m']|c']; split; congruence.
Qed.

Lemma read_channel_cached (m : Machine) (p : ptr) (r : HwPipe.t) :
  selected m = Ok (Some p) →
  heap m !! p = Some r →
  in_slot m ≠ None →
  read_channel m =
  Ok (lo32 (HwPipe.channel r),
      mkMachine _ (<[p := HwPipe.with_wanted 0 r]> (heap m))
        (PipeDevice.with_wakes (HwPipe.wanted r)
           (slots_cleared (dev m)))
        (irq m) (world m)).
Proof.
  unfold selected, in_slot, slots_cleared, read_channel, get_and_clear_cache_pipe,
    get_and_clear_pipe_wanted, load, store.
  munfold.
  destruct (PipeDevice.cache_pipe_64bit (dev m)) as [c|] eqn:E64; intros Hs Hr Hc.
  - injection Hs as ->. msimpl. rewrite Hr.
    msimpl. rewrite Hr.
    msimpl. rewrite lookup_insert_eq. reflexivity.
  - destruct (PipeDevice.cache_pipe (dev m)) as [c|] eqn:E; [|done].
    injection Hs as ->. msimpl. rewrite Hr.
    msimpl. rewrite Hr.
    msimpl. rewrite lookup_insert_eq. reflexivity.
Qed.


Lemma with_cache_pipe_None_id (d : PipeDevice.t) :
  PipeDevice.cache_pipe d = None → PipeDevice.with_cache_pipe None d = d.
Proof. destruct d; simpl; intros ->; reflexivity. Qed.

Lemma selected_in_slot (m : Machine) (c : ptr) :
  in_slot m = Some c → selected m = Ok (Some c).
Proof.
  unfold in_slot, selected.
  destruct (PipeDevice.cache_pipe_64bit (dev m)); [congruence|].
  intros ->. reflexivity.
Qed.

Lemma selected_no_slot (m : Machine) :
  in_slot m = None → selected m = scan m.
Proof.
  unfold in_slot, selected.
  destruct (PipeDevice.cache_pipe_64bit (dev m)); [discriminate|].
  intros ->. reflexivity.
Qed.

Lemma read_channel_scanned (m : Machine) :
  in_slot m = None →
  read_channel m =
  match scan m with
  | Crash c => Crash c
  | Ok None =>
      Ok (0, mkMachine _ (heap m)
               (PipeDevice.with_pipes (PipeDevice.save_pipes (dev m))
                  (slots_cleared (dev m)))
               (if bool_decide (PipeDevice.pipes (dev m) ≠ None)
                then 0 :: irq m else irq m)
               (world m))
  | Ok (Some p) =>
      match heap m !! p with
      | None => Crash BadPointer
      | Some r =>
          Ok (lo32 (HwPipe.channel r),
              mkMachine _ (<[p := HwPipe.with_wanted 0 r]> (heap m))
                (PipeDevice.with_pipes (HwPipe.next r)
                   (PipeDevice.with_wakes (HwPipe.wanted r)
                      (slots_cleared (dev m))))
                (if bool_decide (HwPipe.next r = None)
                 then 0 :: irq m else irq m)
                (world m))
      end
  end.
Proof.
  intros Hs. unfold in_slot in Hs.
  destruct (PipeDevice.cache_pipe_64bit (dev m)) eqn:E64; [discriminate|].
  unfold read_channel, get_and_clear_cache_pipe, slots_cleared, scan, bounded.
  munfold. rewrite E64, Hs.
  rewrite (with_cache_pipe_None_id _ Hs), machine_eta.
  destruct (skip_unwanted _ _ m) as [[q m']|c] eqn:Es; [|reflexivity].
  pose proof (skip_unwanted_pure _ _ _ _ _ Es) as ->.
  destruct q as [p|].
  - unfold get_and_clear_pipe_wanted, load, store. munfold.
    destruct (heap m !! p) as [r|] eqn:Er; [|reflexivity].
    repeat (msimpl; rewrite ?Er, ?lookup_insert_eq).
    destruct (bool_decide (HwPipe.next r = None)); reflexivity.
  - destruct (bool_decide (PipeDevice.pipes (dev m) ≠ None)); reflexivity.
Qed.

Lemma read_channel_high_cached (m : Machine) (p : ptr) (r : HwPipe.t) :
  in_slot m = Some p →
  heap m !! p = Some r →
  read_channel_high m =
  if hi32 (HwPipe.channel r) =? 0 then Crash AssertFailed
  else Ok (hi32 (HwPipe.channel r),
           mkMachine _ (heap m)
             (PipeDevice.with_cache_pipe_64bit (Some p) (slots_cleared (dev m)))
             (irq m) (world m)).
Proof.
  unfold in_slot, slots_cleared, read_channel_high, get_and_clear_cache_pipe,
    load, assert.
  munfold. intros Hs Hr.
  destruct (PipeDevice.cache_pipe_64bit (dev m)) as [c|] eqn:E64.
  - injection Hs as ->. msimpl. rewrite Hr.
    destruct (hi32 (HwPipe.channel r) =? 0); reflexivity.
  - rewrite Hs. msimpl. rewrite Hr.
    destruct (hi32 (HwPipe.channel r) =? 0); reflexivity.
Qed.

Lemma read_channel_high_scanned (m : Machine) :
  in_slot m = None →
  read_channel_high m =
  match scan m with
  | Crash c => Crash c
  | Ok None =>
      Ok (0, mkMachine _ (heap m)
               (PipeDevice.with_pipes (PipeDevice.save_pipes (dev m))
                  (slots_cleared (dev m)))
               (if bool_decide (PipeDevice.pipes (dev m) ≠ None)
                then 0 :: irq m else irq m)
               (world m))
  | Ok (Some p) =>
      match heap m !! p with
      | None => Crash BadPointer
      | Some r =>
          if hi32 (HwPipe.channel r) =? 0 then Crash AssertFailed
          else Ok (hi32 (HwPipe.channel r),
                   mkMachine _ (heap m)
                     (PipeDevice.with_pipes (Some p) (slots_cleared (dev m)))
                     (irq m) (world m))
      end
  end.
Proof.
  intros Hs. unfold in_slot in Hs.
  destruct (PipeDevice.cache_pipe_64bit (dev m)) eqn:E64; [discriminate|].
  unfold read_channel_high, get_and_clear_cache_pipe, slots_cleared, scan, bounded.
  munfold. rewrite E64, Hs.
  rewrite (with_cache_pipe_None_id _ Hs), machine_eta.
  destruct (skip_unwanted _ _ m) as [[q m']|c] eqn:Es; [|reflexivity].
  pose proof (skip_unwanted_pure _ _ _ _ _ Es) as ->.
  destruct q as [p|].
  - unfold load, assert. munfold. msimpl.
    destruct (heap m !! p) as [r|] eqn:Er; [|reflexivity].
    destruct (hi32 (HwPipe.channel r) =? 0); reflexivity.
  - destruct (bool_decide (PipeDevice.pipes (dev m) ≠ None)); reflexivity.
Qed.

Lemma cons_neq_self {A : Type} (x : A) (l : list A) : l ≠ x :: l.
Proof.
  intros E. apply (f_equal length) in E. simpl in E. lia.
Qed.

Lemma in_slot_None (m : Machine) :
  in_slot m = None ↔
  PipeDevice.cache_pipe_64bit (dev m) = None ∧ PipeDevice.cache_pipe (dev m) = None.
Proof.
  unfold in_slot. destruct (PipeDevice.cache_pipe_64bit (dev m)); split;
    try tauto; try (intros [? ?]; congruence); congruence.
Qed.

Lemma read_channel_slot (m : Machine) (p : ptr) :
  in_slot m = Some p →
  read_channel m =
  match heap m !! p with
  | None => Crash BadPointer
  | Some r =>
      Ok (lo32 (HwPipe.channel r),
          mkMachine _ (<[p := HwPipe.with_wanted 0 r]> (heap m))
            (PipeDevice.with_wakes (HwPipe.wanted r) (slots_cleared (dev m)))
            (irq m) (world m))
  end.
Proof.
  intros Hs. destruct (heap m !! p) as [r|] eqn:Hr.
  - apply read_channel_cached; [by apply selected_in_slot|done|congruence].
  - revert Hs. unfold in_slot, read_channel, get_and_clear_cache_pipe,
      get_and_clear_pipe_wanted, load. munfold.
    destruct (PipeDevice.cache_pipe_64bit (dev m)) as [c|].
    + intros [= ->]. msimpl. rewrite Hr. reflexivity.
    + intros ->. msimpl. rewrite Hr. reflexivity.
Qed.

Lemma read_channel_high_slot (m : Machine) (p : ptr) :
  in_slot m = Some p →
  read_channel_high m =
  match heap m !! p with
  | None => Crash BadPointer
  | Some r =>
      if hi32 (HwPipe.channel r) =? 0 then Crash AssertFailed
      else Ok (hi32 (HwPipe.channel r),
               mkMachine _ (heap m)
                 (PipeDevice.with_cache_pipe_64bit (Some p) (slots_cleared (dev m)))
                 (irq m) (world m))
  end.
Proof.
  intros Hs. destruct (heap m !! p) as [r|] eqn:Hr.
  - by apply read_channel_high_cached.
  - revert Hs. unfold in_slot, read_channel_high, get_and_clear_cache_pipe, load.
    munfold.
    destruct (PipeDevice.cache_pipe_64bit (dev m)) as [c|].
    + intros [= ->]. msimpl. rewrite Hr. reflexivity.
    + intros ->. msimpl. rewrite Hr. reflexivity.
Qed.

(** C3, as amended.  A read of [PIPE_REG_CHANNEL] or of
    [PIPE_REG_CHANNEL_HIGH] that returns calls [qemu_set_irq(irq, 0)] at most
    once.  The [PIPE_REG_CHANNEL] read lowers the line exactly when no
    fast-path slot is set and either the scan finds no channel with a
    nonzero [wanted] while the list was not empty, or the scan finds one and
    it is the last record of the list (its id is then returned by the very
    read that lowers the line).  The [PIPE_REG_CHANNEL_HIGH] read lowers the
    line exactly when no slot is set, the scan finds nothing and the list
    was not empty. *)
Theorem irq_lowered_by_channel_reads (m : Machine) :
  header_ok = true →
  (∀ v m', pipe_dev_read (u64 PIPE_REG_CHANNEL) m = Ok (v, m') →
     (irq m' = irq m ∨ irq m' = 0 :: irq m)
     ∧ (irq m' = 0 :: irq m ↔
        in_slot m = None
        ∧ ((scan m = Ok None ∧ PipeDevice.pipes (dev m) ≠ None)
           ∨ (∃ p r, scan m = Ok (Some p) ∧ heap m !! p = Some r
                     ∧ HwPipe.next r = None))))
  ∧ (∀ v m', pipe_dev_read (u64 PIPE_REG_CHANNEL_HIGH) m = Ok (v, m') →
       (irq m' = irq m ∨ irq m' = 0 :: irq m)
       ∧ (irq m' = 0 :: irq m ↔
          in_slot m = None ∧ scan m = Ok None ∧ PipeDevice.pipes (dev m) ≠ None)).
Proof.
  intros Hok. rewrite (read_reg_channel Hok), (read_reg_channel_high Hok).
  destruct (in_slot m) as [c|] eqn:Hc.
  - (* a slot is set: no call to qemu_set_irq *)
    rewrite (read_channel_slot _ _ Hc), (read_channel_high_slot _ _ Hc).
    destruct (heap m !! c) as [r|]; [|split; intros; discriminate].
    split; intros v m' E.
    + apply Ok_inv in E as [_ <-]. simpl. split; [by left|].
      split; [intros []%cons_neq_self | intros [[=] _]].
    + destruct (hi32 (HwPipe.channel r) =? 0); [discriminate|].
      apply Ok_inv in E as [_ <-]. simpl. split; [by left|].
      split; [intros []%cons_neq_self | intros [[=] _]].
  - rewrite (read_channel_scanned _ Hc), (read_channel_high_scanned _ Hc).
    destruct (scan m) as [[p|]|e]; [| |split; intros; discriminate].
    + destruct (heap m !! p) as [r|] eqn:Hr; [|split; intros; discriminate].
      split; intros v m' E.
      * apply Ok_inv in E as [_ <-]. simpl.
        destruct (bool_decide_reflect (HwPipe.next r = None)) as [Hn|Hn].
        -- split; [by right|]. split; [|done]. intros _. split; [done|].
           right. eauto.
        -- split; [by left|]. split; [intros []%cons_neq_self|].
           intros [_ [[[=] _]|(p' & r' & [= <-] & Hr' & Hn')]]. congruence.
      * destruct (hi32 (HwPipe.channel r) =? 0); [discriminate|].
        apply Ok_inv in E as [_ <-]. simpl. split; [by left|].
        split; [intros []%cons_neq_self | intros (_ & [=] & _)].
    + split; intros v m' E; apply Ok_inv in E as [_ <-]; simpl;
        destruct (bool_decide_reflect (PipeDevice.pipes (dev m) ≠ None)) as [Hn|Hn].
      * split; [by right|]. split; [|done]. intros _. split; [done|]. by left.
      * split; [by left|]. split; [intros []%cons_neq_self|].
        intros [_ [[_ Hp]|(p' & r' & [=] & _)]]. done.
      * split; [by right|]. done.
      * split; [by left|]. split; [intros []%cons_neq_self|].
        intros (_ & _ & Hp). done.
Qed.

(** C6 (what the code does).  When the channel a [PIPE_REG_CHANNEL_HIGH]
    read selects has an id whose high 32 bits are zero (id 0 included), the
    read does not return 0: the [assert] on the high half, which stands
    before the [return] on the fast path and on the scan path alike, fails
    and the device aborts.  The comment at the head of the case says such
    ids happen and speaks of the 0 the read would return; the assertion in
    front of that [return] turns it into an abort. *)
Theorem channel_high_read_asserts_high_half (m : Machine) (p : ptr) (r : HwPipe.t) :
  header_ok = true →
  selected m = Ok (Some p) → heap m !! p = Some r →
  hi32 (HwPipe.channel r) = 0 →
  pipe_dev_read (u64 PIPE_REG_CHANNEL_HIGH) m = Crash AssertFailed.
Proof.
  intros Hok Hsel Hr Hz. rewrite (read_reg_channel_high Hok).
  destruct (in_slot m) as [c|] eqn:Hc.
  - rewrite (selected_in_slot _ _ Hc) in Hsel. injection Hsel as ->.
    rewrite (read_channel_high_slot _ _ Hc), Hr, Hz. reflexivity.
  - rewrite (selected_no_slot _ Hc) in Hsel.
    rewrite (read_channel_high_scanned _ Hc), Hsel, Hr, Hz. reflexivity.
Qed.

Lemma scan_found (m : Machine) (p : ptr) :
  scan m = Ok (Some p) → ∃ r, heap m !! p = Some r ∧ HwPipe.wanted r ≠ 0.
Proof.
  intros Hs%scan_Ok. unfold bounded in Hs.
  eapply skip_unwanted_found; eauto.
Qed.

Lemma scan_at_head (m : Machine) (p : ptr) (r : HwPipe.t) :
  PipeDevice.pipes (dev m) = Some p → heap m !! p = Some r →
  HwPipe.wanted r ≠ 0 → scan m = Ok (Some p).
Proof.
  intros Hp Hr Hw. apply scan_Ok. unfold bounded. rewrite Hp.
  by eapply skip_unwanted_here.
Qed.

(** What the high read leaves behind, and what the low read then does. *)
Lemma channel_high_holds (m m1 : Machine) (hi : Z) (p : ptr) (r : HwPipe.t) :
  selected m = Ok (Some p) → heap m !! p = Some r →
  read_channel_high m = Ok (hi, m1) →
  hi = hi32 (HwPipe.channel r) ∧ heap m1 = heap m ∧ selected m1 = Ok (Some p)
  ∧ (PipeDevice.cache_pipe_64bit (dev m1) = Some p
     ∨ (in_slot m1 = None ∧ PipeDevice.pipes (dev m1) = Some p)).
Proof.
  intros Hsel Hr E.
  destruct (in_slot m) as [c|] eqn:Hc.
  - rewrite (selected_in_slot _ _ Hc) in Hsel. injection Hsel as ->.
    rewrite (read_channel_high_slot _ _ Hc), Hr in E.
    destruct (hi32 (HwPipe.channel r) =? 0); [discriminate|].
    apply Ok_inv in E as [<- <-]. repeat split; try by left.
  - rewrite (selected_no_slot _ Hc) in Hsel.
    rewrite (read_channel_high_scanned _ Hc), Hsel, Hr in E.
    destruct (hi32 (HwPipe.channel r) =? 0); [discriminate|].
    apply Ok_inv in E as [<- <-].
    destruct (scan_found _ _ Hsel) as (r' & Hr' & Hw).
    assert (r' = r) as -> by congruence.
    apply in_slot_None in Hc as [H64 Hcp].
    assert (Hn : in_slot (mkMachine _ (heap m)
                   (PipeDevice.with_pipes (Some p) (slots_cleared (dev m)))
                   (irq m) (world m)) = None).
    { unfold in_slot, slots_cleared. rewrite H64. msimpl. by rewrite H64. }
    repeat split.
    + rewrite (selected_no_slot _ Hn). by eapply scan_at_head.
    + right. split; [exact Hn|reflexivity].
Qed.

Lemma read_channel_selected (m : Machine) (p : ptr) (r : HwPipe.t) :
  selected m = Ok (Some p) → heap m !! p = Some r →
  ∃ m', read_channel m = Ok (lo32 (HwPipe.channel r), m')
        ∧ PipeDevice.wakes (dev m') = HwPipe.wanted r
        ∧ heap m' = <[p := HwPipe.with_wanted 0 r]> (heap m).
Proof.
  intros Hsel Hr.
  destruct (in_slot m) as [c|] eqn:Hc.
  - rewrite (selected_in_slot _ _ Hc) in Hsel. injection Hsel as ->.
    rewrite (read_channel_slot _ _ Hc), Hr. eexists. split; [reflexivity|].
    split; [|reflexivity]. unfold slots_cleared.
    destruct (PipeDevice.cache_pipe_64bit (dev m)); reflexivity.
  - rewrite (selected_no_slot _ Hc) in Hsel.
    rewrite (read_channel_scanned _ Hc), Hsel, Hr. eexists. split; [reflexivity|].
    split; [|reflexivity]. unfold slots_cleared.
    destruct (PipeDevice.cache_pipe_64bit (dev m)); reflexivity.
Qed.

(** C4.  When a [PIPE_REG_CHANNEL_HIGH] read selects a channel (from a
    fast-path slot or by the scan) and returns, it returns the high 32 bits
    of the channel's id, leaves every [wanted] mask as it was, and holds
    the channel in [cache_pipe_64bit] or at the head of the list; the
    [PIPE_REG_CHANNEL] read that follows returns the low 32 bits of the same
    id. *)
Theorem channel_high_then_channel
    (m m1 : Machine) (hi : Z) (p : ptr) (r : HwPipe.t) :
  header_ok = true →
  selected m = Ok (Some p) → heap m !! p = Some r →
  pipe_dev_read (u64 PIPE_REG_CHANNEL_HIGH) m = Ok (hi, m1) →
  hi = hi32 (HwPipe.channel r)
  ∧ heap m1 = heap m
  ∧ (PipeDevice.cache_pipe_64bit (dev m1) = Some p
     ∨ (in_slot m1 = None ∧ PipeDevice.pipes (dev m1) = Some p))
  ∧ ∃ m2, pipe_dev_read (u64 PIPE_REG_CHANNEL) m1
          = Ok (lo32 (HwPipe.channel r), m2).
Proof.
  intros Hok Hsel Hr E. rewrite (read_reg_channel_high Hok) in E.
  rewrite (read_reg_channel Hok).
  destruct (channel_high_holds _ _ _ _ _ Hsel Hr E) as (Hhi & Hh & Hsel1 & Hheld).
  repeat split; try done.
  rewrite <- Hh in Hr.
  destruct (read_channel_selected _ _ _ Hsel1 Hr) as (m2 & E2 & _). eauto.
Qed.

(** *** Host wakes *)

Lemma u8_land (z : Z) : u8 z = Z.land z 255.
Proof. unfold u8. change 255 with (Z.ones 8). by rewrite Z.land_ones. Qed.

Lemma u8_lor (a b : Z) : u8 (Z.lor a b) = Z.lor (u8 a) (u8 b).
Proof. rewrite !u8_land. apply Z.land_lor_distr_l. Qed.

Lemma u8_idem (z : Z) : u8 (u8 z) = u8 z.
Proof. unfold u8. apply Z.mod_mod. lia. Qed.

Lemma wake_spec (m : Machine) (q : ptr) (flags : Z) :
  qemu2_android_pipe_wake (Some q) flags m =
  match heap m !! q with
  | None => Crash BadPointer
  | Some r =>
      Ok (tt, mkMachine _
                (<[q := HwPipe.with_wanted (u8 (Z.lor (HwPipe.wanted r) (u8 flags))) r]> (heap m))
                (if HwPipe.closed r then dev m
                 else PipeDevice.with_cache_pipe (Some q) (dev m))
                (1 :: irq m) (world m))
  end.
Proof.
  unfold qemu2_android_pipe_wake, set_pipe_wanted_bits, set_cache_pipe, load, store.
  munfold.
  destruct (heap m !! q) as [r|] eqn:Hr; [|reflexivity].
  repeat (msimpl; rewrite ?Hr, ?lookup_insert_eq).
  destruct (HwPipe.closed r); reflexivity.
Qed.

Lemma deposited_u8 (p : ptr) (calls : list (ptr * Z)) :
  u8 (deposited p calls) = deposited p calls.
Proof.
  induction calls as [|[q f] calls IH]; simpl; [reflexivity|].
  destruct (decide (q = p)); [|done].
  by rewrite u8_lor, u8_idem, IH.
Qed.



(** *** What a call back from a service changes *)

Lemma keeps_store_links (p : option ptr) (g : HwPipe.t → HwPipe.t) :
  (∀ r, link_of (g r) = link_of r) → keeps links (store p g).
Proof.
  intros Hg m a' m'. unfold store. destruct p as [a|]; [|done].
  destruct (heap m !! a) as [r|] eqn:Hr; [|done]. intros [_ <-]%Ok_inv.
  unfold links. msimpl. rewrite fmap_insert, Hg.
  apply insert_id. by rewrite lookup_fmap, Hr.
Qed.

Ltac frame_step :=
  first [ keeps_step
        | match goal with
          | |- keeps links (store _ _) =>
              apply keeps_store_links; intros ?; reflexivity
          end ].

Lemma wake_keeps_regs (p : option ptr) (flags : Z) :
  keeps regs (qemu2_android_pipe_wake p flags).
Proof.
  unfold qemu2_android_pipe_wake, set_pipe_wanted_bits, set_cache_pipe.
  repeat frame_step.
Qed.

Lemma wake_keeps_links (p : option ptr) (flags : Z) :
  keeps links (qemu2_android_pipe_wake p flags).
Proof.
  unfold qemu2_android_pipe_wake, set_pipe_wanted_bits, set_cache_pipe.
  repeat frame_step.
Qed.

Lemma wake_keeps_world (p : option ptr) (flags : Z) :
  keeps world_of (qemu2_android_pipe_wake p flags).
Proof.
  unfold qemu2_android_pipe_wake, set_pipe_wanted_bits, set_cache_pipe.
  repeat frame_step.
Qed.

Lemma close_keeps_regs (p : option ptr) : keeps regs (qemu2_android_pipe_close p).
Proof.
  pose proof wake_keeps_regs. unfold qemu2_android_pipe_close. repeat frame_step.
Qed.

Lemma close_keeps_links (p : option ptr) : keeps links (qemu2_android_pipe_close p).
Proof.
  pose proof wake_keeps_links. unfold qemu2_android_pipe_close. repeat frame_step.
Qed.

Lemma close_keeps_world (p : option ptr) : keeps world_of (qemu2_android_pipe_close p).
Proof.
  pose proof wake_keeps_world. unfold qemu2_android_pipe_close. repeat frame_step.
Qed.

Lemma upcalls_keep_regs (us : list Upcall) : keeps regs (run_upcalls us).
Proof.
  pose proof wake_keeps_regs. pose proof close_keeps_regs.
  induction us as [|[q fl|q] us IH]; simpl; unfold run_upcall; repeat frame_step.
Qed.

Lemma upcalls_keep_links (us : list Upcall) : keeps links (run_upcalls us).
Proof.
  pose proof wake_keeps_links. pose proof close_keeps_links.
  induction us as [|[q fl|q] us IH]; simpl; unfold run_upcall; repeat frame_step.
Qed.

Lemma upcalls_keep_world (us : list Upcall) : keeps world_of (run_upcalls us).
Proof.
  pose proof wake_keeps_world. pose proof close_keeps_world.
  induction us as [|[q fl|q] us IH]; simpl; unfold run_upcall; repeat frame_step.
Qed.

Lemma links_lookup (m m' : Machine) (a : ptr) (r : HwPipe.t) :
  links m' = links m → heap m !! a = Some r →
  ∃ r', heap m' !! a = Some r' ∧ link_of r' = link_of r.
Proof.
  intros E Hr. apply (f_equal (λ l, l !! a)) in E. unfold links in E.
  rewrite !lookup_fmap, Hr in E.
  destruct (heap m' !! a) as [r'|]; [|discriminate].
  change (Some (link_of r') = Some (link_of r)) in E.
  exists r'. split; [reflexivity|congruence].
Qed.

Lemma links_lookup_None (m m' : Machine) (a : ptr) :
  links m' = links m → heap m !! a = None → heap m' !! a = None.
Proof.
  intros E Hr. apply (f_equal (λ l, l !! a)) in E. unfold links in E.
  rewrite !lookup_fmap, Hr in E. simpl in E.
  destruct (heap m' !! a) as [r'|]; [discriminate|done].
Qed.

Lemma close_spec (m : Machine) (q : ptr) :
  qemu2_android_pipe_close (Some q) m =
  match heap m !! q with
  | None => Crash BadPointer
  | Some r =>
      if HwPipe.closed r then Ok (tt, m)
      else
        Ok (tt, mkMachine _
                  (<[q := HwPipe.with_wanted
                            (u8 (Z.lor (HwPipe.wanted r) (u8 PIPE_WAKE_CLOSED)))
                            (HwPipe.with_closed true r)]> (heap m))
                  (dev m) (1 :: irq m) (world m))
  end.
Proof.
  unfold qemu2_android_pipe_close, load, store. munfold.
  destruct (heap m !! q) as [r|] eqn:Hr; [|reflexivity].
  destruct (HwPipe.closed r) eqn:Hc; [reflexivity|].
  rewrite Hr, wake_spec. msimpl. rewrite lookup_insert_eq. msimpl.
  rewrite insert_insert_eq. reflexivity.
Qed.

Lemma upcalls_total (us : list Upcall) (m : Machine) :
  upcalls_live (heap m) us → ∃ m', run_upcalls us m = Ok (tt, m').
Proof.
  revert m. induction us as [|u us IH]; intros m Hl.
  - eexists. reflexivity.
  - apply Forall_cons in Hl as [[r Hr] Hl]. simpl. rewrite bind_unfold.
    assert (∃ m1, run_upcall u m = Ok (tt, m1) ∧ links m1 = links m)
      as (m1 & -> & Hlk).
    { destruct u as [q fl|q]; simpl in *.
      - pose proof (wake_keeps_links (Some q) fl m) as Hk.
        rewrite wake_spec, Hr in Hk |- *. eauto.
      - pose proof (close_keeps_links (Some q) m) as Hk.
        rewrite close_spec, Hr in Hk |- *.
        destruct (HwPipe.closed r); eauto. }
    apply IH. unfold upcalls_live in *. eapply Forall_impl; [exact Hl|].
    intros u' [r' Hr']. simpl in Hr'.
    destruct (links_lookup _ _ _ _ Hlk Hr') as (r'' & -> & _). eauto.
Qed.

(** A call into a service that calls back only on live records returns;
    it changes neither the registers (the slot [cache_pipe] apart) nor the
    links of any record, and leaves the host as the service left it. *)
Lemma call_spec {A : Type} (f : World → Reply World A) (m : Machine) :
  upcalls_live (heap m) (upcalls (f (world m))) →
  ∃ m', call f m = Ok (ret (f (world m)), m')
        ∧ regs m' = regs m ∧ links m' = links m
        ∧ world m' = after (f (world m)).
Proof.
  intros Hl. unfold call. munfold.
  destruct (upcalls_total _ (mkMachine _ (heap m) (dev m) (irq m) (after (f (world m)))) Hl)
    as (m' & E).
  pose proof (upcalls_keep_regs _ _ _ _ E) as Hregs.
  pose proof (upcalls_keep_links _ _ _ _ E) as Hlinks.
  pose proof (upcalls_keep_world _ _ _ _ E) as Hw.
  msimpl. rewrite E. exists m'. repeat split; assumption.
Qed.

(** *** Dispatch of the command engine on an open channel *)

Lemma doCommand_live (m : Machine) (command : Z) (p : ptr) (r : HwPipe.t) :
  latched_pipe m = Some p → heap m !! p = Some r → HwPipe.closed r = false →
  pipeDevice_doCommand command m =
  (if command =? u32 PIPE_CMD_OPEN then cmd_open (Some p)
   else if command =? u32 PIPE_CMD_CLOSE then cmd_close (Some p)
   else if command =? u32 PIPE_CMD_POLL then cmd_poll (Some p)
   else if command =? u32 PIPE_CMD_READ_BUFFER then cmd_read_buffer (Some p)
   else if command =? u32 PIPE_CMD_WRITE_BUFFER then cmd_write_buffer (Some p)
   else if command =? u32 PIPE_CMD_WAKE_ON_READ then cmd_wake_on PIPE_WAKE_READ (Some p)
   else if command =? u32 PIPE_CMD_WAKE_ON_WRITE then cmd_wake_on PIPE_WAKE_WRITE (Some p)
   else mret tt) m.
Proof.
  unfold latched_pipe, pipeDevice_doCommand, load. munfold.
  intros -> Hr Hc. rewrite andb_false_r, Hr, Hc. reflexivity.
Qed.

Lemma doCommand_buffer (m : Machine) (reading : bool) (p : ptr) (r : HwPipe.t) :
  header_ok = true →
  latched_pipe m = Some p → heap m !! p = Some r → HwPipe.closed r = false →
  pipeDevice_doCommand (buffer_cmd reading) m =
  (if reading then cmd_read_buffer (Some p) else cmd_write_buffer (Some p)) m.
Proof.
  intros Hok Hl Hr Hc. rewrite (doCommand_live _ _ _ _ Hl Hr Hc).
  unfold buffer_cmd. destruct reading.
  - rewrite (command_neq 3 0 _ _ Hok eq_refl eq_refl) by lia.
    rewrite (command_neq 3 1 _ _ Hok eq_refl eq_refl) by lia.
    rewrite (command_neq 3 2 _ _ Hok eq_refl eq_refl) by lia.
    by rewrite Z.eqb_refl.
  - rewrite (command_neq 4 0 _ _ Hok eq_refl eq_refl) by lia.
    rewrite (command_neq 4 1 _ _ Hok eq_refl eq_refl) by lia.
    rewrite (command_neq 4 2 _ _ Hok eq_refl eq_refl) by lia.
    rewrite (command_neq 4 3 _ _ Hok eq_refl eq_refl) by lia.
    by rewrite Z.eqb_refl.
Qed.

Lemma regs_field {X : Type} (f : PipeDevice.t → X) (m m' : Machine) :
  (∀ c d, f (PipeDevice.with_cache_pipe c d) = f d) →
  regs m' = regs m → f (dev m') = f (dev m).
Proof.
  intros Hf E. unfold regs in E.
  rewrite <- (Hf None (dev m')), <- (Hf None (dev m)). by rewrite E.
Qed.

(** C5, as amended.  On a live channel that is not closed, a
    [PIPE_CMD_READ_BUFFER] or [PIPE_CMD_WRITE_BUFFER] with the size register
    at 0 always asks the host to map the (empty) guest buffer.  If the host
    returns [NULL], or a mapping whose length is not 0, [status] becomes
    [PIPE_ERROR_INVAL].  Otherwise the service's [recv] or [send] runs on
    the zero-length buffer and [status] is its return value; the mapping is
    then released.  So [status] is 0 only where the host maps nothing
    successfully and the service reports 0 bytes. *)
Theorem zero_size_transfer
    (m : Machine) (reading : bool) (p : ptr) (r : HwPipe.t)
    (a : option Z) (l : Z) (w1 : World) :
  header_ok = true →
  latched_pipe m = Some p → heap m !! p = Some r → HwPipe.closed r = false →
  PipeDevice.size (dev m) = 0 →
  cpu_physical_memory_map (world m) (PipeDevice.address (dev m)) 0
    (buffer_dir reading) = (a, l, w1) →
  match a with
  | None =>
      pipeDevice_doCommand (buffer_cmd reading) m
      = Ok (tt, upd_status PIPE_ERROR_INVAL (with_world w1 m))
  | Some x =>
      if l =? 0 then
        let rp := transfer reading w1 (HwPipe.pipe r) (mkBuffer x 0) in
        upcalls_live (heap m) (upcalls rp) →
        ∃ m', pipeDevice_doCommand (buffer_cmd reading) m = Ok (tt, m')
              ∧ PipeDevice.status (dev m') = u32 (ret rp)
              ∧ world m' = cpu_physical_memory_unmap (after rp) x 0
                             (buffer_dir reading) 0
      else
        pipeDevice_doCommand (buffer_cmd reading) m
        = Ok (tt, upd_status PIPE_ERROR_INVAL
                    (with_world (cpu_physical_memory_unmap w1 x l 0 0) m))
  end.
Proof.
  intros Hok Hl Hr Hc Hsz Hmap.
  rewrite (doCommand_buffer _ _ _ _ Hok Hl Hr Hc).
  destruct reading; unfold cmd_read_buffer, cmd_write_buffer, map_guest_buffer,
    set_status, transfer, buffer_dir in *; munfold; rewrite Hsz, Hmap.
  - destruct a as [x|]; [|reflexivity].
    destruct (l =? 0) eqn:El; [|reflexivity].
    intros Hlive. unfold load. msimpl. rewrite Hr.
    match goal with |- context [call ?f ?m0] =>
      destruct (call_spec f m0 Hlive) as (m' & E & Hregs & Hlinks & Hw) end.
    rewrite E. msimpl in Hw. msimpl. eexists. split; [reflexivity|]. msimpl.
    split; [reflexivity|]. rewrite Hw.
    rewrite (regs_field PipeDevice.size _ _ ltac:(reflexivity) Hregs). msimpl.
    by rewrite Hsz.
  - destruct a as [x|]; [|reflexivity].
    destruct (l =? 0) eqn:El; [|reflexivity].
    intros Hlive. unfold load. msimpl. rewrite Hr.
    match goal with |- context [call ?f ?m0] =>
      destruct (call_spec f m0 Hlive) as (m' & E & Hregs & Hlinks & Hw) end.
    rewrite E. msimpl in Hw. msimpl. eexists. split; [reflexivity|]. msimpl.
    split; [reflexivity|]. rewrite Hw.
    rewrite (regs_field PipeDevice.size _ _ ltac:(reflexivity) Hregs). msimpl.
    by rewrite Hsz.
Qed.

Lemma doCommand_open_fresh (m : Machine) :
  latched_pipe m = None →
  pipeDevice_doCommand (u32 PIPE_CMD_OPEN) m = cmd_open None m.
Proof.
  unfold latched_pipe, pipeDevice_doCommand. munfold.
  intros ->. rewrite !Z.eqb_refl. reflexivity.
Qed.

Lemma fresh_None (h : gmap ptr HwPipe.t) : h !! fresh (dom h) = None.
Proof. apply not_elem_of_dom, is_fresh. Qed.

(** C7, as amended.  A [PIPE_CMD_OPEN] whose latched channel id is in the
    table changes nothing but [status], which becomes [PIPE_ERROR_INVAL]
    if that channel is not closed and [PIPE_ERROR_IO] if the host has closed
    it.  With an id that is not in the table (and a service that, while it
    is created, calls back only on live records) the command allocates a
    record for the id, binds the service to it, puts it at the head of the
    traversal list, sets the saved head to it, maps the id to it in the
    table and sets [status] to 0; the links of the other records are as
    before. *)
Theorem open_command (m : Machine) :
  header_ok = true →
  (∀ p r, latched_pipe m = Some p → heap m !! p = Some r →
     pipeDevice_doCommand (u32 PIPE_CMD_OPEN) m
     = Ok (tt, upd_status (if HwPipe.closed r then PIPE_ERROR_IO
                           else PIPE_ERROR_INVAL) m))
  ∧ (latched_pipe m = None →
     let p := fresh (dom (heap m)) in
     let rp := android_pipe_new (world m) p in
     upcalls_live (<[p := HwPipe.zero]> (heap m)) (upcalls rp) →
     ∃ m' r',
       pipeDevice_doCommand (u32 PIPE_CMD_OPEN) m = Ok (tt, m')
       ∧ heap m !! p = None
       ∧ heap m' !! p = Some r'
       ∧ HwPipe.next r' = PipeDevice.pipes (dev m)
       ∧ HwPipe.channel r' = PipeDevice.channel (dev m)
       ∧ HwPipe.pipe r' = ret rp
       ∧ PipeDevice.pipes (dev m') = Some p
       ∧ PipeDevice.save_pipes (dev m') = Some p
       ∧ PipeDevice.pipes_by_channel (dev m')
         = <[PipeDevice.channel (dev m) := p]> (PipeDevice.pipes_by_channel (dev m))
       ∧ PipeDevice.status (dev m') = 0
       ∧ latched_pipe m' = Some p
       ∧ (∀ q, q ≠ p → link_of <$> heap m' !! q = link_of <$> heap m !! q)).
Proof.
  intros Hok. split.
  - intros p r Hl Hr. destruct (HwPipe.closed r) eqn:Hc.
    + unfold latched_pipe, pipeDevice_doCommand, set_status, load in *. munfold.
      rewrite Hl, andb_false_r, Hr, Hc.
      rewrite (command_neq 0 1 _ _ Hok eq_refl eq_refl) by lia. reflexivity.
    + rewrite (doCommand_live _ _ _ _ Hl Hr Hc), Z.eqb_refl. reflexivity.
  - intros Hl p rp Hlive. rewrite (doCommand_open_fresh _ Hl).
    pose proof (fresh_None (heap m)) as Hfresh. fold p in Hfresh.
    unfold cmd_open, pipe_new, pipe_new0, g_malloc0, set_status, store, load.
    munfold. fold p. msimpl. rewrite lookup_insert_eq. msimpl.
    rewrite insert_insert_eq.
    match goal with |- context [call ?f ?m0] =>
      destruct (call_spec f m0) as (m1 & E & Hregs & Hlinks & Hw) end.
    { msimpl. unfold upcalls_live in *. fold rp.
      eapply Forall_impl; [exact Hlive|]. intros u [r0 Hr0].
      destruct (decide (upcall_target u = p)) as [->|Hne].
      - rewrite lookup_insert_eq. eauto.
      - rewrite lookup_insert_ne by done. rewrite lookup_insert_ne in Hr0 by done.
        eauto. }
    rewrite E. msimpl in Hw.
    destruct (links_lookup _ m1 p _ Hlinks ltac:(msimpl; apply lookup_insert_eq))
      as (r1 & Hr1 & Hlk1).
    rewrite Hr1. msimpl. rewrite lookup_insert_eq. msimpl.
    rewrite insert_insert_eq.
    unfold link_of in Hlk1. msimpl in Hlk1. injection Hlk1 as Hn1 Hc1 Hp1.
    pose proof (regs_field PipeDevice.pipes _ _ ltac:(reflexivity) Hregs) as Hpipes.
    pose proof (regs_field PipeDevice.channel _ _ ltac:(reflexivity) Hregs) as Hch.
    pose proof (regs_field PipeDevice.pipes_by_channel _ _ ltac:(reflexivity) Hregs) as Htab.
    msimpl in Hpipes. msimpl in Hch. msimpl in Htab.
    eexists _, _. split; [reflexivity|]. msimpl.
    rewrite lookup_insert_eq. msimpl.
    repeat split; try done.
    + by rewrite Htab, Hch.
    + unfold latched_pipe. msimpl. apply lookup_insert_eq.
    + intros q Hq. rewrite lookup_insert_ne by done.
      apply (f_equal (λ l, l !! q)) in Hlinks. unfold links in Hlinks.
      rewrite !lookup_fmap in Hlinks. msimpl in Hlinks.
      rewrite lookup_insert_ne in Hlinks by done. exact Hlinks.
Qed.

(** *** The traversal list *)

Lemma chain_functional (h : gmap ptr HwPipe.t) (q : option ptr) (l l' : list ptr) :
  chain h q l → chain h q l' → l = l'.
Proof.
  revert q l'. induction l as [|a l IH]; intros q [|a' l']; simpl.
  - done.
  - intros -> [[=] _].
  - intros [-> _] [=].
  - intros [-> (r & Hr & Hc)] [[= <-] (r' & Hr' & Hc')].
    assert (r' = r) as -> by congruence. f_equal. eauto.
Qed.

Lemma chain_app (h : gmap ptr HwPipe.t) (q : option ptr) (l1 l2 : list ptr) :
  chain h q (l1 ++ l2) → ∃ q', chain h q' l2.
Proof.
  revert q. induction l1 as [|a l1 IH]; intros q; simpl; [eauto|].
  intros [_ (r & _ & Hc)]. eauto.
Qed.

Lemma chain_live (h : gmap ptr HwPipe.t) (q : option ptr) (l : list ptr) (a : ptr) :
  chain h q l → a ∈ l → is_Some (h !! a).
Proof.
  revert q. induction l as [|b l IH]; intros q; simpl; [by intros _ ?%not_elem_of_nil|].
  intros [_ (r & Hr & Hc)] [->|Hin]%elem_of_cons; eauto.
Qed.

Lemma chain_NoDup (h : gmap ptr HwPipe.t) (q : option ptr) (l : list ptr) :
  chain h q l → NoDup l.
Proof.
  revert q. induction l as [|a l IH]; intros q; simpl; [constructor|].
  intros [_ (r & Hr & Hc)]. constructor; [|eauto].
  intros (l1 & l2 & ->)%list_elem_of_split.
  destruct (chain_app _ _ _ _ Hc) as (q' & [_ (r' & Hr' & Hc')]).
  assert (r' = r) as -> by congruence.
  pose proof (chain_functional _ _ _ _ Hc Hc') as E.
  apply (f_equal length) in E. rewrite length_app in E. simpl in E. lia.
Qed.

Lemma chain_length (h : gmap ptr HwPipe.t) (q : option ptr) (l : list ptr) :
  chain h q l → (length l ≤ size h)%nat.
Proof.
  intros Hc. rewrite <- size_dom.
  rewrite <- (size_list_to_set (C:=gset ptr) l) by (by eapply chain_NoDup).
  apply subseteq_size. intros a Ha%elem_of_list_to_set.
  apply elem_of_dom. by eapply chain_live.
Qed.

Lemma chain_ext (h h' : gmap ptr HwPipe.t) (q : option ptr) (l : list ptr) :
  (∀ a, a ∈ l → HwPipe.next <$> h' !! a = HwPipe.next <$> h !! a) →
  chain h q l → chain h' q l.
Proof.
  revert q. induction l as [|a l IH]; intros q Hext; simpl; [done|].
  intros [-> (r & Hr & Hc)]. split; [done|].
  pose proof (Hext a ltac:(left)) as Ha. rewrite Hr in Ha.
  destruct (h' !! a) as [r'|]; [|discriminate].
  injection Ha as Ha. exists r'. split; [done|]. rewrite Ha.
  apply IH; [|done]. intros b Hb. apply Hext. by right.
Qed.

Lemma read_pnode_pure (pn : pnode) (m m' : Machine) (q : option ptr) :
  read_pnode pn m = Ok (q, m') → m' = m.
Proof.
  destruct pn; unfold read_pnode, load; munfold.
  - by intros [_ <-]%Ok_inv.
  - destruct (heap m !! q0); [|done]. by intros [_ <-]%Ok_inv.
Qed.

Lemma find_pnode_chain (l : list ptr) (fuel : nat) (pn : pnode) (p : ptr)
    (m : Machine) (q : option ptr) :
  read_pnode pn m = Ok (q, m) → chain (heap m) q l → (length l ≤ fuel)%nat →
  find_pnode fuel pn (Some p) m = Ok (stop_at pn p l, m).
Proof.
  revert fuel pn q. induction l as [|a l IH]; intros fuel pn q Hrd Hc Hf.
  - simpl in Hc. subst q. destruct fuel; simpl; rewrite bind_unfold, Hrd; reflexivity.
  - simpl in Hc. destruct Hc as [-> (r & Hr & Hc)]. simpl in Hf.
    destruct fuel as [|fuel]; [lia|]. simpl. rewrite bind_unfold, Hrd.
    destruct (decide (a = p)) as [->|Hne].
    + rewrite decide_True by done. reflexivity.
    + rewrite decide_False by congruence.
      apply (IH fuel (pnode_next a) (HwPipe.next r)); [|done|lia].
      unfold read_pnode, load. munfold. rewrite Hr. reflexivity.
Qed.

Lemma stop_at_found (pn : pnode) (p : ptr) (l1 l2 : list ptr) :
  p ∉ l1 →
  stop_at pn p (l1 ++ p :: l2)
  = match last l1 with None => pn | Some q => pnode_next q end.
Proof.
  revert pn. induction l1 as [|a l1 IH]; intros pn Hp; simpl.
  - destruct (decide (p = p)); [reflexivity|congruence].
  - apply not_elem_of_cons in Hp as [Hne Hp].
    destruct (decide (a = p)); [congruence|]. rewrite (IH _ Hp), last_cons.
    destruct (last l1); reflexivity.
Qed.

Lemma stop_at_missing (pn : pnode) (p : ptr) (l : list ptr) :
  p ∉ l →
  stop_at pn p l = match last l with None => pn | Some q => pnode_next q end.
Proof.
  revert pn. induction l as [|a l IH]; intros pn Hp; simpl; [done|].
  apply not_elem_of_cons in Hp as [Hne Hp].
  destruct (decide (a = p)); [congruence|]. rewrite (IH _ Hp), last_cons.
  destruct (last l); reflexivity.
Qed.

(** The last cell of a list holds [NULL]. *)
Lemma chain_last (h : gmap ptr HwPipe.t) (q : option ptr) (l : list ptr) (a : ptr) :
  chain h q l → last l = Some a →
  ∃ r, h !! a = Some r ∧ HwPipe.next r = None.
Proof.
  revert q. induction l as [|b l IH]; intros q; simpl; [done|].
  intros [_ (r & Hr & Hc)]. rewrite last_cons.
  destruct (last l) as [c|] eqn:El.
  - intros [= ->]. eauto.
  - intros [= ->]. apply last_None in El as ->. simpl in Hc. eauto.
Qed.

(** The cell before [p] is made to point past [p]. *)
Lemma chain_unlink (h : gmap ptr HwPipe.t) (q : option ptr) (p : ptr)
    (r : HwPipe.t) (l1 l2 : list ptr) :
  chain h q (l1 ++ p :: l2) → h !! p = Some r →
  match last l1 with
  | None => q = Some p ∧ chain h (HwPipe.next r) l2
  | Some a =>
      ∃ ra, h !! a = Some ra ∧ a ≠ p ∧ HwPipe.next ra = Some p
            ∧ chain (<[a := HwPipe.with_next (HwPipe.next r) ra]> h) q (l1 ++ l2)
  end.
Proof.
  intros Hc Hr. pose proof (chain_NoDup _ _ _ Hc) as Hnd.
  revert q Hc Hnd. induction l1 as [|a l1 IH]; intros q Hc Hnd.
  - simpl in *. destruct Hc as [-> (r' & Hr' & Hc)].
    assert (r' = r) as -> by congruence. done.
  - simpl in Hc. destruct Hc as [-> (ra & Hra & Hc)].
    simpl in Hnd. apply NoDup_cons in Hnd as [Ha Hnd].
    specialize (IH _ Hc Hnd). rewrite last_cons.
    destruct (last l1) as [b|] eqn:El.
    + destruct IH as (rb & Hrb & Hbp & Hnb & Hcb). exists rb.
      assert (b ≠ a).
      { intros ->. apply Ha, elem_of_app. left.
        apply last_Some in El as (l' & ->). apply elem_of_app. right. by left. }
      split; [done|]. split; [done|]. split; [done|]. simpl. split; [done|].
      exists ra. split; [by rewrite lookup_insert_ne|done].
    + apply last_None in El as ->. simpl in *.
      destruct IH as [Hn Hc2]. exists ra.
      assert (a ≠ p) by (intros ->; apply Ha; by left).
      split; [done|]. split; [done|]. split; [done|]. simpl. split; [done|].
      rewrite lookup_insert_eq. eexists. split; [done|].
      simpl. eapply chain_ext; [|exact Hc2].
      intros c Hcin. rewrite lookup_insert_ne; [done|].
      intros ->. apply Ha. by right.
Qed.

Lemma upcalls_cache_pipe (us : list Upcall) (m m' : Machine) :
  run_upcalls us m = Ok (tt, m') →
  PipeDevice.cache_pipe (dev m') = PipeDevice.cache_pipe (dev m)
  ∨ ∃ u, u ∈ us ∧ PipeDevice.cache_pipe (dev m') = Some (upcall_target u).
Proof.
  revert m. induction us as [|u us IH]; intros m; simpl.
  - intros [_ <-]%Ok_inv. by left.
  - rewrite bind_unfold.
    destruct (run_upcall u m) as [[[] m1]|c] eqn:E1; [|done].
    intros E. destruct (IH _ E) as [Hsame|(u' & Hu' & Hc)].
    + rewrite Hsame. destruct u as [q fl|q]; simpl in E1.
      * rewrite wake_spec in E1. destruct (heap m !! q) as [r|]; [|done].
        apply Ok_inv in E1 as [_ <-]. msimpl.
        destruct (HwPipe.closed r); [by left|].
        right. exists (signalWake q fl). split; [by left|done].
      * rewrite close_spec in E1. destruct (heap m !! q) as [r|]; [|done].
        destruct (HwPipe.closed r); apply Ok_inv in E1 as [_ <-]; by left.
    + right. exists u'. split; [by right|done].
Qed.

Lemma call_cache_pipe {A : Type} (f : World → Reply World A) (m m' : Machine) (a : A) :
  call f m = Ok (a, m') →
  PipeDevice.cache_pipe (dev m') = PipeDevice.cache_pipe (dev m)
  ∨ ∃ u, u ∈ upcalls (f (world m))
         ∧ PipeDevice.cache_pipe (dev m') = Some (upcall_target u).
Proof.
  unfold call. munfold. msimpl.
  destruct (run_upcalls _ _) as [[[] m1]|c] eqn:E; [|done].
  intros [_ <-]%Ok_inv. apply upcalls_cache_pipe in E. exact E.
Qed.

Lemma clear_cache_pipe_spec (m : Machine) (p : ptr) :
  ∃ m1, clear_cache_pipe_if_equal (Some p) m = Ok (tt, m1)
     ∧ heap m1 = heap m ∧ world m1 = world m
     ∧ PipeDevice.cache_pipe (dev m1) ≠ Some p
     ∧ PipeDevice.cache_pipe_64bit (dev m1) ≠ Some p
     ∧ PipeDevice.with_cache_pipe_64bit None (regs m1)
       = PipeDevice.with_cache_pipe_64bit None (regs m).
Proof.
  unfold clear_cache_pipe_if_equal, regs. munfold. msimpl.
  destruct (decide (PipeDevice.cache_pipe (dev m) = Some p)) as [E1|E1]; msimpl;
    destruct (decide (PipeDevice.cache_pipe_64bit (dev m) = Some p)) as [E2|E2];
    eexists; (split; [reflexivity|]); msimpl; repeat split; done.
Qed.

Lemma doCommand_close (m : Machine) (p : ptr) (r : HwPipe.t) :
  header_ok = true →
  latched_pipe m = Some p → heap m !! p = Some r →
  pipeDevice_doCommand (u32 PIPE_CMD_CLOSE) m = cmd_close (Some p) m.
Proof.
  intros Hok Hl Hr.
  unfold latched_pipe, pipeDevice_doCommand, load in *. munfold.
  rewrite Hl, andb_false_r, Hr, Z.eqb_refl, andb_false_r.
  rewrite (command_neq 1 0 _ _ Hok eq_refl eq_refl) by lia. reflexivity.
Qed.

Lemma close_walk (m : Machine) (p : ptr) (l : list ptr) :
  chain (heap m) (PipeDevice.pipes (dev m)) l →
  bounded (λ fuel, find_pnode fuel pnode_pipes (Some p)) m
  = Ok (stop_at pnode_pipes p l, m).
Proof.
  intros Hc. unfold bounded.
  eapply find_pnode_chain; [reflexivity|exact Hc|].
  pose proof (chain_length _ _ _ Hc). lia.
Qed.

(** C1 (what the code does).  When the latched channel id resolves to a
    record [p] that is on the traversal list, [PIPE_CMD_CLOSE] unlinks [p]
    from the list, sets the saved head to the list head, removes the id
    from the table, empties [cache_pipe_64bit] and [cache_pipe] if they held
    [p], tears the service down and frees the record.  The status register
    is not written on this path: it keeps the value it had before the
    command, whatever that was.  (A service that wakes [p] while it is torn
    down puts [p] back into [cache_pipe].)  When the record is not on the
    list, the command only sets [status] to [PIPE_ERROR_INVAL]. *)
Theorem close_command (m : Machine) (p : ptr) (r : HwPipe.t) (l : list ptr) :
  header_ok = true →
  latched_pipe m = Some p → heap m !! p = Some r →
  HwPipe.channel r = PipeDevice.channel (dev m) →
  chain (heap m) (PipeDevice.pipes (dev m)) l →
  let rp := android_pipe_free (world m) (HwPipe.pipe r) in
  (p ∈ l → upcalls_live (heap m) (upcalls rp) →
    ∃ m' l1 l2, pipeDevice_doCommand (u32 PIPE_CMD_CLOSE) m = Ok (tt, m')
      ∧ l = l1 ++ p :: l2
      ∧ latched_pipe m' = None
      ∧ heap m' !! p = None
      ∧ chain (heap m') (PipeDevice.pipes (dev m')) (l1 ++ l2)
      ∧ (p ∉ l1 ++ l2)
      ∧ PipeDevice.save_pipes (dev m') = PipeDevice.pipes (dev m')
      ∧ PipeDevice.cache_pipe_64bit (dev m') ≠ Some p
      ∧ (p ∉ (upcall_target <$> upcalls rp) →
         PipeDevice.cache_pipe (dev m') ≠ Some p)
      ∧ PipeDevice.status (dev m') = PipeDevice.status (dev m))
  ∧ (p ∉ l →
     pipeDevice_doCommand (u32 PIPE_CMD_CLOSE) m
     = Ok (tt, upd_status PIPE_ERROR_INVAL m)).
Proof.
  intros Hok Hl Hr Hch Hc rp.
  rewrite (doCommand_close _ _ _ Hok Hl Hr).
  unfold cmd_close. rewrite bind_unfold, (close_walk _ _ _ Hc).
  split.
  - intros Hin Hlive.
    apply list_elem_of_split_l in Hin as (l1 & l2 & -> & Hp1).
    pose proof (chain_NoDup _ _ _ Hc) as Hnd.
    assert (Hp : p ∉ l1 ++ l2).
    { apply NoDup_app in Hnd as (_ & Hd & Hnd2). apply NoDup_cons in Hnd2 as [Hp2 _].
      intros [?|?]%elem_of_app; done. }
    rewrite (stop_at_found _ _ _ _ Hp1).
    pose proof (chain_unlink _ _ _ _ _ _ Hc Hr) as Hun.
    destruct (last l1) as [a|] eqn:El.
    + destruct Hun as (ra & Hra & Hap & Hna & Hc').
      unfold read_pnode, write_pnode, load, store, pipe_free, g_free. munfold.
      rewrite Hra, Hna, Hr. msimpl. rewrite Hra. msimpl.
      rewrite lookup_insert_ne by done. rewrite Hr. msimpl.
      rewrite lookup_insert_eq. msimpl.
      match goal with |- context [clear_cache_pipe_if_equal (Some p) ?m0] =>
        destruct (clear_cache_pipe_spec m0 p) as (m1 & -> & Hh1 & Hw1 & Hcp & Hc64 & Hregs1)
      end.
      msimpl in Hh1. msimpl in Hw1. unfold load. munfold.
      rewrite Hh1, lookup_insert_eq. msimpl.
      match goal with |- context [call ?f m1] =>
        destruct (call_spec f m1) as (m2 & E & Hregs & Hlinks & Hw);
        [|pose proof (call_cache_pipe f m1 m2 _ E) as Hcache]
      end.
      { rewrite Hw1, Hh1. fold rp. unfold upcalls_live in *.
        eapply Forall_impl; [exact Hlive|]. intros u [r0 Hr0].
        destruct (decide (upcall_target u = p)) as [->|?];
          [rewrite lookup_insert_eq; eauto|rewrite lookup_insert_ne by done].
        destruct (decide (upcall_target u = a)) as [->|?];
          [rewrite lookup_insert_eq; eauto|rewrite lookup_insert_ne by done].
        eauto. }
      rewrite E.
      destruct (links_lookup _ m2 p _ Hlinks ltac:(rewrite Hh1; apply lookup_insert_eq))
        as (r2 & Hr2 & _).
      rewrite Hr2. eexists _, l1, l2. split; [reflexivity|]. msimpl.
      pose proof (f_equal (PipeDevice.with_cache_pipe_64bit None) Hregs) as Hall.
      rewrite Hregs1 in Hall. unfold regs in Hall. msimpl in Hall.
      apply (f_equal (λ d, (PipeDevice.pipes d, PipeDevice.save_pipes d,
               PipeDevice.pipes_by_channel d, PipeDevice.status d,
               PipeDevice.channel d))) in Hall. msimpl in Hall.
      injection Hall as Hpipes Hsave Htab Hst Hchan.
      split; [reflexivity|]. split.
      { unfold latched_pipe. msimpl. rewrite Htab, Hchan, Hch.
        apply lookup_delete_eq. }
      split; [apply lookup_delete_eq|]. split.
      { rewrite Hpipes. eapply chain_ext; [|exact Hc'].
        intros c Hcin. assert (c ≠ p) by (intros ->; done).
        rewrite lookup_delete_ne by done.
        apply (f_equal (λ l, l !! c)) in Hlinks. unfold links in Hlinks.
        rewrite !lookup_fmap, Hh1 in Hlinks. rewrite lookup_insert_ne in Hlinks by done.
        destruct (heap m2 !! c) as [rc2|], (_ !! c) as [rc|]; try done.
        unfold link_of in Hlinks. simpl in *. congruence. }
      split; [done|]. split; [by rewrite Hpipes, Hsave|]. split.
      { pose proof (regs_field PipeDevice.cache_pipe_64bit _ _ ltac:(reflexivity) Hregs) as H64.
        by rewrite H64. }
      split; [|done].
      intros Hnot. destruct Hcache as [->|(u & Hu & ->)]; [done|].
      intros [= Et]. apply Hnot. rewrite <- Et. apply list_elem_of_fmap.
      exists u. split; [done|]. by rewrite Hw1 in Hu.
    + apply last_None in El as ->. simpl in *. destruct Hun as [Hq Hc'].
      unfold read_pnode, write_pnode, load, store, pipe_free, g_free. munfold.
      rewrite Hq, Hr. msimpl. rewrite Hr. msimpl.
      rewrite lookup_insert_eq. msimpl.
      match goal with |- context [clear_cache_pipe_if_equal (Some p) ?m0] =>
        destruct (clear_cache_pipe_spec m0 p) as (m1 & -> & Hh1 & Hw1 & Hcp & Hc64 & Hregs1)
      end.
      msimpl in Hh1. msimpl in Hw1. unfold load. munfold.
      rewrite Hh1, lookup_insert_eq. msimpl.
      match goal with |- context [call ?f m1] =>
        destruct (call_spec f m1) as (m2 & E & Hregs & Hlinks & Hw);
        [|pose proof (call_cache_pipe f m1 m2 _ E) as Hcache]
      end.
      { rewrite Hw1, Hh1. fold rp. unfold upcalls_live in *.
        eapply Forall_impl; [exact Hlive|]. intros u [r0 Hr0].
        destruct (decide (upcall_target u = p)) as [->|?];
          [rewrite lookup_insert_eq; eauto|rewrite lookup_insert_ne by done].
        eauto. }
      rewrite E.
      destruct (links_lookup _ m2 p _ Hlinks ltac:(rewrite Hh1; apply lookup_insert_eq))
        as (r2 & Hr2 & _).
      rewrite Hr2. eexists _, [], l2. split; [reflexivity|]. msimpl.
      pose proof (f_equal (PipeDevice.with_cache_pipe_64bit None) Hregs) as Hall.
      rewrite Hregs1 in Hall. unfold regs in Hall. msimpl in Hall.
      apply (f_equal (λ d, (PipeDevice.pipes d, PipeDevice.save_pipes d,
               PipeDevice.pipes_by_channel d, PipeDevice.status d,
               PipeDevice.channel d))) in Hall. msimpl in Hall.
      injection Hall as Hpipes Hsave Htab Hst Hchan.
      split; [reflexivity|]. split.
      { unfold latched_pipe. msimpl. rewrite Htab, Hchan, Hch.
        apply lookup_delete_eq. }
      split; [apply lookup_delete_eq|]. split.
      { rewrite Hpipes. simpl. eapply chain_ext; [|exact Hc'].
        intros c Hcin. assert (c ≠ p) by (intros ->; done).
        rewrite lookup_delete_ne by done.
        apply (f_equal (λ l, l !! c)) in Hlinks. unfold links in Hlinks.
        rewrite !lookup_fmap, Hh1 in Hlinks. rewrite lookup_insert_ne in Hlinks by done.
        destruct (heap m2 !! c) as [rc2|], (_ !! c) as [rc|]; try done.
        unfold link_of in Hlinks. simpl in *. congruence. }
      split; [done|]. split; [by rewrite Hpipes, Hsave|]. split.
      { pose proof (regs_field PipeDevice.cache_pipe_64bit _ _ ltac:(reflexivity) Hregs) as H64.
        by rewrite H64. }
      split; [|done].
      intros Hnot. destruct Hcache as [->|(u & Hu & ->)]; [done|].
      intros [= Et]. apply Hnot. rewrite <- Et. apply list_elem_of_fmap.
      exists u. split; [done|]. by rewrite Hw1 in Hu.
  - intros Hnin. rewrite (stop_at_missing _ _ _ Hnin).
    unfold set_status. destruct (last l) as [a|] eqn:El.
    + destruct (chain_last _ _ _ _ Hc El) as (ra & Hra & Hn).
      unfold read_pnode, load. munfold. rewrite Hra, Hn. reflexivity.
    + apply last_None in El as ->. simpl in Hc.
      unfold read_pnode. munfold. rewrite Hc. reflexivity.
Qed.

(** *** A loop that runs out of steps never ends *)

Lemma not_NoDup_split {A : Type} `{EqDecision A} (l : list A) :
  ¬ NoDup l → ∃ l1 a l2, l = l1 ++ a :: l2 ∧ a ∈ l1.
Proof.
  induction l as [|x l IH]; intros Hnd.
  - destruct Hnd. constructor.
  - destruct (decide (x ∈ l)) as [Hin|Hnin].
    + apply list_elem_of_split in Hin as (l3 & l4 & ->).
      exists (x :: l3), x, l4. split; [reflexivity|by left].
    + destruct IH as (l1 & a & l2 & -> & Ha).
      { intros Hl. apply Hnd. by constructor. }
      exists (x :: l1), a, l2. split; [reflexivity|by right].
Qed.

Lemma run_live_bound (h : gmap ptr HwPipe.t) (l : list ptr) :
  (∀ a, a ∈ l → is_Some (h !! a)) → NoDup l → (length l ≤ size h)%nat.
Proof.
  intros Hlive Hnd. rewrite <- size_dom.
  rewrite <- (size_list_to_set (C:=gset ptr) l) by done.
  apply subseteq_size. intros a Ha%elem_of_list_to_set.
  apply elem_of_dom. by apply Hlive.
Qed.

Lemma idle_run_live (h : gmap ptr HwPipe.t) (p : option ptr) (l : list ptr) (a : ptr) :
  idle_run h p l → a ∈ l → is_Some (h !! a).
Proof.
  revert p. induction l as [|b l IH]; intros p; simpl; [by intros _ ?%not_elem_of_nil|].
  intros [_ (r & Hr & _ & Hc)] [->|Hin]%elem_of_cons; eauto.
Qed.

Lemma idle_run_next (h : gmap ptr HwPipe.t) (p : option ptr) (l1 l2 : list ptr) (a b : ptr) :
  idle_run h p (l1 ++ a :: l2) → b ∈ l1 →
  ∃ r c, h !! b = Some r ∧ HwPipe.wanted r = 0 ∧ HwPipe.next r = Some c
         ∧ c ∈ l1 ++ [a].
Proof.
  revert p. induction l1 as [|x l1 IH]; intros p; simpl;
    [by intros _ ?%not_elem_of_nil|].
  intros [_ (r & Hr & Hw & Hrun)] [->|Hin]%elem_of_cons.
  - exists r. destruct l1 as [|y l1]; simpl in Hrun; destruct Hrun as [Hn _].
    + exists a. repeat split; try done. right. by left.
    + exists y. repeat split; try done. right. by left.
  - destruct (IH _ Hrun Hin) as (r' & c & ? & ? & ? & Hc).
    exists r', c. repeat split; try done. by right.
Qed.

Lemma skip_unwanted_running (fuel : nat) (p : option ptr) (m : Machine) :
  skip_unwanted fuel p m = Crash Diverges →
  ∃ l, length l = S fuel ∧ idle_run (heap m) p l.
Proof.
  revert p. induction fuel as [|fuel IH]; intros p; simpl;
    (destruct p as [a|]; [|discriminate]);
    unfold load; munfold; destruct (heap m !! a) as [r|] eqn:Hr; try discriminate;
    destruct (Z.eqb_spec (HwPipe.wanted r) 0) as [Hw|Hw]; try discriminate.
  - intros _. exists [a]. split; [reflexivity|]. simpl. eauto 10.
  - intros (l & Hlen & Hrun)%IH. exists (a :: l). split; [simpl; lia|].
    simpl. eauto 10.
Qed.

Lemma skip_unwanted_cycle (l : list ptr) (m : Machine) :
  (∀ b, b ∈ l → ∃ r c, heap m !! b = Some r ∧ HwPipe.wanted r = 0
                       ∧ HwPipe.next r = Some c ∧ c ∈ l) →
  ∀ fuel b, b ∈ l → skip_unwanted fuel (Some b) m = Crash Diverges.
Proof.
  intros Hcl. induction fuel as [|fuel IH]; intros b Hb;
    destruct (Hcl b Hb) as (r & c & Hr & Hw & Hn & Hc);
    simpl; unfold load; munfold; rewrite Hr, Hw; simpl; [reflexivity|].
  rewrite Hn. by apply IH.
Qed.

(** If the walk of the two channel reads is out of steps after one more
    than there are records, no number of steps is enough. *)
Lemma skip_unwanted_diverges (p : option ptr) (m : Machine) :
  skip_unwanted (S (size (heap m))) p m = Crash Diverges →
  ∀ fuel, skip_unwanted fuel p m = Crash Diverges.
Proof.
  intros (l & Hlen & Hrun)%skip_unwanted_running fuel.
  destruct (decide (NoDup l)) as [Hnd|Hnd].
  { pose proof (run_live_bound (heap m) l
                  (λ a Ha, idle_run_live _ _ _ _ Hrun Ha) Hnd). lia. }
  apply not_NoDup_split in Hnd as (l1 & a & l2 & -> & Ha).
  destruct l1 as [|a0 l1]; [by apply not_elem_of_nil in Ha|].
  pose proof Hrun as [-> _].
  apply (skip_unwanted_cycle (a0 :: l1)); [|by left].
  intros b Hb. destruct (idle_run_next _ _ _ _ _ _ Hrun Hb) as (r & c & ? & ? & ? & Hc).
  exists r, c. repeat split; try done.
  apply elem_of_app in Hc as [Hc|Hc%list_elem_of_singleton]; [done|by subst].
Qed.

Lemma other_run_live (h : gmap ptr HwPipe.t) (pipe q : option ptr) (l : list ptr) (a : ptr) :
  other_run h pipe q l → a ∈ l → is_Some (h !! a).
Proof.
  revert q. induction l as [|b l IH]; intros q; simpl; [by intros _ ?%not_elem_of_nil|].
  intros (_ & _ & r & Hr & Hc) [->|Hin]%elem_of_cons; eauto.
Qed.

Lemma other_run_next (h : gmap ptr HwPipe.t) (pipe q : option ptr)
    (l1 l2 : list ptr) (a b : ptr) :
  other_run h pipe q (l1 ++ a :: l2) → b ∈ l1 →
  Some b ≠ pipe
  ∧ ∃ r c, h !! b = Some r ∧ HwPipe.next r = Some c ∧ c ∈ l1 ++ [a].
Proof.
  revert q. induction l1 as [|x l1 IH]; intros q; simpl;
    [by intros _ ?%not_elem_of_nil|].
  intros (-> & Hne & r & Hr & Hrun) [->|Hin]%elem_of_cons.
  - split; [done|]. exists r.
    destruct l1 as [|y l1]; simpl in Hrun; destruct Hrun as [Hn _].
    + exists a. repeat split; try done. right. by left.
    + exists y. repeat split; try done. right. by left.
  - destruct (IH _ Hrun Hin) as (? & r' & c & ? & ? & Hc).
    split; [done|]. exists r', c. repeat split; try done. by right.
Qed.

Lemma read_pnode_crash (pn : pnode) (m : Machine) (c : crash) :
  read_pnode pn m = Crash c → c = BadPointer.
Proof.
  destruct pn as [|q]; unfold read_pnode, load; munfold; [discriminate|].
  destruct (heap m !! q); [discriminate|]. by intros [= <-].
Qed.

Lemma find_pnode_running (fuel : nat) (pn : pnode) (pipe : option ptr) (m : Machine) :
  find_pnode fuel pn pipe m = Crash Diverges →
  ∃ q l, read_pnode pn m = Ok (q, m) ∧ length l = fuel
         ∧ other_run (heap m) pipe q l.
Proof.
  revert pn. induction fuel as [|fuel IH]; intros pn; simpl; rewrite bind_unfold;
    (destruct (read_pnode pn m) as [[q m']|c] eqn:Hrd;
     [|intros [= ->]; by apply read_pnode_crash in Hrd]);
    pose proof (read_pnode_pure _ _ _ _ Hrd) as ->;
    (destruct q as [c|]; [|discriminate]);
    destruct (decide (Some c = pipe)) as [He|He]; try discriminate.
  - intros _. exists (Some c), []. simpl. eauto 10.
  - intros (q' & l & Hrd' & Hlen & Hrun)%IH.
    exists (Some c), (c :: l). split; [done|]. split; [simpl; lia|].
    simpl. split; [done|]. split; [done|].
    unfold read_pnode, load in Hrd'. revert Hrd'. munfold.
    destruct (heap m !! c) as [r|]; [|discriminate].
    intros [<- _]%Ok_inv. eauto.
Qed.

Lemma find_pnode_cycle (l : list ptr) (pipe : option ptr) (m : Machine) :
  (∀ b, b ∈ l → Some b ≠ pipe
                ∧ ∃ r c, heap m !! b = Some r ∧ HwPipe.next r = Some c ∧ c ∈ l) →
  ∀ fuel pn b, read_pnode pn m = Ok (Some b, m) → b ∈ l →
               find_pnode fuel pn pipe m = Crash Diverges.
Proof.
  intros Hcl. induction fuel as [|fuel IH]; intros pn b Hrd Hb;
    destruct (Hcl b Hb) as (Hne & r & c & Hr & Hn & Hc);
    simpl; rewrite bind_unfold, Hrd;
    (destruct (decide (Some b = pipe)); [done|]); [reflexivity|].
  apply (IH _ c); [|done].
  unfold read_pnode, load. munfold. rewrite Hr, Hn. reflexivity.
Qed.

(** The same for the walk of [PIPE_CMD_CLOSE]. *)
Lemma find_pnode_diverges (pipe : option ptr) (m : Machine) :
  find_pnode (S (size (heap m))) pnode_pipes pipe m = Crash Diverges →
  ∀ fuel, find_pnode fuel pnode_pipes pipe m = Crash Diverges.
Proof.
  intros (q & l & Hrd & Hlen & Hrun)%find_pnode_running fuel.
  destruct (decide (NoDup l)) as [Hnd|Hnd].
  { pose proof (run_live_bound (heap m) l
                  (λ a Ha, other_run_live _ _ _ _ _ Hrun Ha) Hnd). lia. }
  apply not_NoDup_split in Hnd as (l1 & a & l2 & -> & Ha).
  destruct l1 as [|a0 l1]; [by apply not_elem_of_nil in Ha|].
  pose proof Hrun as [-> _].
  apply (find_pnode_cycle (a0 :: l1) pipe m) with (b := a0); [|done|by left].
  intros b Hb.
  destruct (other_run_next _ _ _ _ _ _ _ Hrun Hb) as (? & r & c & ? & ? & Hc).
  split; [done|]. exists r, c. repeat split; try done.
  apply elem_of_app in Hc as [Hc|Hc%list_elem_of_singleton]; [done|by subst].
Qed.

(** On a traversal list that ends in [NULL] the scan of the two channel
    reads returns. *)
Lemma skip_unwanted_chain (l : list ptr) (fuel : nat) (p : option ptr) (m : Machine) :
  chain (heap m) p l → (length l ≤ fuel)%nat →
  ∃ q, skip_unwanted fuel p m = Ok (q, m).
Proof.
  revert fuel p. induction l as [|a l IH]; intros fuel p Hc Hf; simpl in Hc.
  - subst p. destruct fuel; eexists; reflexivity.
  - destruct Hc as [-> (r & Hr & Hc)]. simpl in Hf.
    destruct fuel as [|fuel]; [lia|]. simpl. unfold load. munfold. rewrite Hr.
    destruct (HwPipe.wanted r =? 0); [|eexists; reflexivity].
    apply (IH fuel _ Hc). lia.
Qed.

Lemma scan_returns (m : Machine) (l : list ptr) :
  chain (heap m) (PipeDevice.pipes (dev m)) l → ∃ q, scan m = Ok q.
Proof.
  intros Hc. pose proof (chain_length _ _ _ Hc) as Hlen.
  destruct (skip_unwanted_chain l (S (size (heap m))) _ m Hc ltac:(lia)) as (q & E).
  exists q. unfold scan, bounded. by rewrite E.
Qed.


(** ** Further properties of the device *)

(** *** Halves of a 64-bit register *)

Lemma u32_range (z : Z) : 0 ≤ u32 z < 2 ^ 32.
Proof. unfold u32. apply Z.mod_pos_bound. lia. Qed.

Lemma testbit_low_mask (n : Z) : 0 ≤ n → Z.testbit 0xFFFFFFFF n = (n <? 32).
Proof. intros Hn. change 0xFFFFFFFF with (Z.ones 32). apply Z.testbit_ones_nonneg; lia. Qed.

Lemma testbit_high_mask (n : Z) :
  0 ≤ n → Z.testbit 0xFFFFFFFF00000000 n = (32 <=? n) && (n <? 64).
Proof.
  intros Hn. change 0xFFFFFFFF00000000 with (Z.shiftl (Z.ones 32) 32).
  rewrite Z.shiftl_spec by lia.
  destruct (Z.leb_spec 32 n).
  - rewrite Z.testbit_ones_nonneg by lia. simpl.
    destruct (Z.ltb_spec (n - 32) 32), (Z.ltb_spec n 64); (reflexivity || lia).
  - rewrite Z.testbit_neg_r by lia. reflexivity.
Qed.

Lemma testbit_u32 (v n : Z) : 0 ≤ n → Z.testbit (u32 v) n = (n <? 32) && Z.testbit v n.
Proof. intros Hn. unfold u32. apply Z.testbit_mod_pow2; lia. Qed.

Ltac bits_step :=
  first
    [ rewrite Z.lor_spec | rewrite Z.land_spec
    | rewrite Z.shiftr_spec by lia
    | rewrite Z.shiftl_spec by lia
    | match goal with
      | |- context [Z.testbit ?x ?k] => rewrite (Z.testbit_neg_r x k) by lia
      | |- context [Z.testbit (u32 ?x) ?k] => rewrite (testbit_u32 x k) by lia
      | |- context [Z.testbit 0xFFFFFFFF ?k] => rewrite (testbit_low_mask k) by lia
      | |- context [Z.testbit 0xFFFFFFFF00000000 ?k] =>
          rewrite (testbit_high_mask k) by lia
      end
    | rewrite Z.bits_0
    | match goal with
      | |- context [?a <? ?b] => destruct (Z.ltb_spec a b)
      | |- context [?a <=? ?b] => destruct (Z.leb_spec a b)
      end
    | progress (simpl andb; simpl orb)
    | progress rewrite ?andb_false_r, ?andb_true_r, ?orb_false_r ].

Ltac bits :=
  apply Z.bits_inj'; intros n Hn; repeat bits_step;
  try reflexivity; try lia; try (f_equal; lia).

Lemma lo32_mod (x : Z) : lo32 x = u32 x.
Proof. unfold lo32. bits. Qed.

Lemma lo32_set_low (a v : Z) : lo32 (uint64_set_low a v) = u32 v.
Proof. unfold lo32, uint64_set_low. bits. Qed.

Lemma hi32_set_low (a v : Z) : hi32 (uint64_set_low a v) = hi32 a.
Proof. unfold hi32, uint64_set_low. bits. Qed.

Lemma lo32_set_high (a v : Z) : lo32 (uint64_set_high a v) = lo32 a.
Proof. unfold lo32, uint64_set_high. bits. Qed.

Lemma hi32_set_high (a v : Z) : hi32 (uint64_set_high a v) = u32 v.
Proof. unfold hi32, uint64_set_high. bits. Qed.

Lemma halves_add (lo hi : Z) :
  Z.lor (u32 lo) (Z.shiftl (u32 hi) 32) = u32 lo + 2 ^ 32 * u32 hi.
Proof.
  rewrite <- Z.lxor_lor, <- Z.add_nocarry_lxor.
  all: try (rewrite Z.shiftl_mul_pow2 by lia; lia).
  all: bits.
Qed.

Lemma set_low_then_high (a lo hi : Z) :
  uint64_set_high (uint64_set_low a lo) hi = u32 lo + 2 ^ 32 * u32 hi.
Proof.
  rewrite <- halves_add. unfold uint64_set_high, uint64_set_low. bits.
Qed.

Lemma set_high_then_low (a lo hi : Z) :
  uint64_set_low (uint64_set_high a hi) lo = u32 lo + 2 ^ 32 * u32 hi.
Proof.
  rewrite <- halves_add. unfold uint64_set_high, uint64_set_low. bits.
Qed.

(** *** The register file *)

Ltac register_index a :=
  lazymatch a with
  | PIPE_REG_COMMAND => constr:(0%nat)
  | PIPE_REG_STATUS => constr:(1%nat)
  | PIPE_REG_CHANNEL => constr:(2%nat)
  | PIPE_REG_CHANNEL_HIGH => constr:(3%nat)
  | PIPE_REG_SIZE => constr:(4%nat)
  | PIPE_REG_ADDRESS => constr:(5%nat)
  | PIPE_REG_ADDRESS_HIGH => constr:(6%nat)
  | PIPE_REG_WAKES => constr:(7%nat)
  | PIPE_REG_PARAMS_ADDR_LOW => constr:(8%nat)
  | PIPE_REG_PARAMS_ADDR_HIGH => constr:(9%nat)
  | PIPE_REG_ACCESS_PARAMS => constr:(10%nat)
  | PIPE_REG_VERSION => constr:(11%nat)
  end.

(** Decide the comparisons of one register label with another. *)
Ltac dispatch_registers Hok :=
  repeat match goal with
  | |- context [u64 ?a =? u64 ?b] =>
      first [ rewrite (Z.eqb_refl (u64 a))
            | let i := register_index a in
              let j := register_index b in
              rewrite (register_neq i j (u64 a) (u64 b) Hok eq_refl eq_refl) by lia ]
  end.

Lemma with_dev_with_dev (f g : PipeDevice.t → PipeDevice.t) (m : Machine) :
  with_dev f (with_dev g m) = with_dev (λ d, f (g d)) m.
Proof. reflexivity. Qed.

(** X1.  [params_addr] is assembled from its two halves: after a write of
    [lo] to [PIPE_REG_PARAMS_ADDR_LOW] and of [hi] to
    [PIPE_REG_PARAMS_ADDR_HIGH], in either order, the register holds
    [lo + 2^32 * hi] (each half truncated to 32 bits), nothing else has
    changed, and the two registers read back the halves without changing
    the machine.  A write to one half leaves the other half as it was. *)
Theorem params_addr_round_trip (m : Machine) (lo hi : Z) :
  header_ok = true →
  let m' := with_dev (PipeDevice.with_params_addr (u32 lo + 2 ^ 32 * u32 hi)) m in
  run [GuestWrite (u64 PIPE_REG_PARAMS_ADDR_LOW) lo;
       GuestWrite (u64 PIPE_REG_PARAMS_ADDR_HIGH) hi] m = Ok (tt, m')
  ∧ run [GuestWrite (u64 PIPE_REG_PARAMS_ADDR_HIGH) hi;
         GuestWrite (u64 PIPE_REG_PARAMS_ADDR_LOW) lo] m = Ok (tt, m')
  ∧ pipe_dev_read (u64 PIPE_REG_PARAMS_ADDR_LOW) m' = Ok (u32 lo, m')
  ∧ pipe_dev_read (u64 PIPE_REG_PARAMS_ADDR_HIGH) m' = Ok (u32 hi, m')
  ∧ (∀ m1, pipe_dev_write (u64 PIPE_REG_PARAMS_ADDR_LOW) lo m = Ok (tt, m1) →
       pipe_dev_read (u64 PIPE_REG_PARAMS_ADDR_HIGH) m1
       = Ok (hi32 (PipeDevice.params_addr (dev m)), m1))
  ∧ (∀ m1, pipe_dev_write (u64 PIPE_REG_PARAMS_ADDR_HIGH) hi m = Ok (tt, m1) →
       pipe_dev_read (u64 PIPE_REG_PARAMS_ADDR_LOW) m1
       = Ok (lo32 (PipeDevice.params_addr (dev m)), m1)).
Proof.
  intros Hok m'. subst m'.
  unfold run, step, pipe_dev_write, pipe_dev_read. dispatch_registers Hok.
  munfold. msimpl. unfold with_dev. msimpl.
  rewrite set_low_then_high, set_high_then_low.
  repeat split.
  - by rewrite <- (set_low_then_high 0), lo32_set_high, lo32_set_low.
  - by rewrite <- (set_low_then_high 0), hi32_set_high.
  - intros m1 [_ <-]%Ok_inv. msimpl. by rewrite hi32_set_low.
  - intros m1 [_ <-]%Ok_inv. msimpl. by rewrite lo32_set_high.
Qed.

(** X2.  The write-only latches.  [channel] and [address] are assembled
    from writes to their low and high registers, in either order, as
    [lo + 2^32 * hi] with each half truncated to 32 bits; a write to
    [PIPE_REG_SIZE] latches the value truncated to 32 bits.  None of these
    writes changes anything else: no record, no list, no status, no
    interrupt, no host call. *)
Theorem latch_registers (m : Machine) (lo hi v : Z) :
  header_ok = true →
  run [GuestWrite (u64 PIPE_REG_CHANNEL) lo;
       GuestWrite (u64 PIPE_REG_CHANNEL_HIGH) hi] m
  = Ok (tt, with_dev (PipeDevice.with_channel (u32 lo + 2 ^ 32 * u32 hi)) m)
  ∧ run [GuestWrite (u64 PIPE_REG_CHANNEL_HIGH) hi;
         GuestWrite (u64 PIPE_REG_CHANNEL) lo] m
    = Ok (tt, with_dev (PipeDevice.with_channel (u32 lo + 2 ^ 32 * u32 hi)) m)
  ∧ run [GuestWrite (u64 PIPE_REG_ADDRESS) lo;
         GuestWrite (u64 PIPE_REG_ADDRESS_HIGH) hi] m
    = Ok (tt, with_dev (PipeDevice.with_address (u32 lo + 2 ^ 32 * u32 hi)) m)
  ∧ run [GuestWrite (u64 PIPE_REG_ADDRESS_HIGH) hi;
         GuestWrite (u64 PIPE_REG_ADDRESS) lo] m
    = Ok (tt, with_dev (PipeDevice.with_address (u32 lo + 2 ^ 32 * u32 hi)) m)
  ∧ pipe_dev_write (u64 PIPE_REG_SIZE) v m
    = Ok (tt, with_dev (PipeDevice.with_size (u32 v)) m).
Proof.
  intros Hok.
  unfold run, step, pipe_dev_write. dispatch_registers Hok.
  munfold. msimpl. unfold with_dev. msimpl.
  rewrite !set_low_then_high, !set_high_then_low.
  repeat split.
Qed.

(** X3.  Only the reads of [PIPE_REG_CHANNEL] and [PIPE_REG_CHANNEL_HIGH]
    have an effect.  A read at any other offset returns and leaves the
    machine as it was; it gives [status] at [PIPE_REG_STATUS], [wakes] at
    [PIPE_REG_WAKES], the version 1 at [PIPE_REG_VERSION], and 0 at an
    offset that is no register. *)
Theorem plain_reads_change_nothing (m : Machine) (offset : Z) :
  offset ≠ u64 PIPE_REG_CHANNEL → offset ≠ u64 PIPE_REG_CHANNEL_HIGH →
  (∃ v, pipe_dev_read offset m = Ok (v, m))
  ∧ (offset ∉ register_labels → pipe_dev_read offset m = Ok (0, m))
  ∧ (header_ok = true →
     pipe_dev_read (u64 PIPE_REG_STATUS) m = Ok (PipeDevice.status (dev m), m)
     ∧ pipe_dev_read (u64 PIPE_REG_WAKES) m = Ok (PipeDevice.wakes (dev m), m)
     ∧ pipe_dev_read (u64 PIPE_REG_VERSION) m = Ok (1, m)).
Proof.
  intros Hc Hh. apply Z.eqb_neq in Hc, Hh. split; [|split].
  - unfold pipe_dev_read. rewrite Hc, Hh. munfold.
    repeat match goal with |- context [if ?b then _ else _] => destruct b end;
      eexists; reflexivity.
  - intros Hnot. unfold pipe_dev_read. rewrite Hc, Hh.
    assert (Hne : ∀ i x, register_labels !! i = Some x → (offset =? x) = false).
    { intros i x Hx. apply Z.eqb_neq. intros ->. apply Hnot.
      by eapply list_elem_of_lookup_2. }
    rewrite (Hne 1%nat _ eq_refl), (Hne 7%nat _ eq_refl), (Hne 9%nat _ eq_refl),
      (Hne 8%nat _ eq_refl), (Hne 11%nat _ eq_refl).
    reflexivity.
  - intros Hok. unfold pipe_dev_read. dispatch_registers Hok. repeat split.
Qed.

(** X4.  A write at an offset that is no register, and a write to one of
    the read-only registers [PIPE_REG_STATUS], [PIPE_REG_WAKES] and
    [PIPE_REG_VERSION], is dropped: the machine is as before. *)
Theorem ignored_writes (m : Machine) (offset value : Z) :
  (offset ∉ register_labels → pipe_dev_write offset value m = Ok (tt, m))
  ∧ (header_ok = true →
     offset ∈ u64 <$> [PIPE_REG_STATUS; PIPE_REG_WAKES; PIPE_REG_VERSION] →
     pipe_dev_write offset value m = Ok (tt, m)).
Proof.
  split.
  - intros Hnot. unfold pipe_dev_write.
    assert (Hne : ∀ i x, register_labels !! i = Some x → (offset =? x) = false).
    { intros i x Hx. apply Z.eqb_neq. intros ->. apply Hnot.
      by eapply list_elem_of_lookup_2. }
    rewrite (Hne 0%nat _ eq_refl), (Hne 4%nat _ eq_refl), (Hne 5%nat _ eq_refl),
      (Hne 6%nat _ eq_refl), (Hne 2%nat _ eq_refl), (Hne 3%nat _ eq_refl),
      (Hne 9%nat _ eq_refl), (Hne 8%nat _ eq_refl), (Hne 10%nat _ eq_refl).
    reflexivity.
  - intros Hok Hin. simpl in Hin.
    repeat (apply elem_of_cons in Hin as [->|Hin]);
      [| | |by apply not_elem_of_nil in Hin];
      unfold pipe_dev_write; dispatch_registers Hok; reflexivity.
Qed.

(** *** The commands on an open channel *)

Ltac command_index a :=
  lazymatch a with
  | PIPE_CMD_OPEN => constr:(0%nat)
  | PIPE_CMD_CLOSE => constr:(1%nat)
  | PIPE_CMD_POLL => constr:(2%nat)
  | PIPE_CMD_READ_BUFFER => constr:(3%nat)
  | PIPE_CMD_WRITE_BUFFER => constr:(4%nat)
  | PIPE_CMD_WAKE_ON_READ => constr:(5%nat)
  | PIPE_CMD_WAKE_ON_WRITE => constr:(6%nat)
  end.

(** Decide the comparisons of one command label with another. *)
Ltac dispatch_commands Hok :=
  repeat match goal with
  | |- context [u32 ?a =? u32 ?b] =>
      first [ rewrite (Z.eqb_refl (u32 a))
            | let i := command_index a in
              let j := command_index b in
              rewrite (command_neq i j (u32 a) (u32 b) Hok eq_refl eq_refl) by lia ]
  end.

(** A call into a service that makes no call back only moves the host. *)
Lemma call_quiet {A : Type} (f : World → Reply World A) (m : Machine) :
  upcalls (f (world m)) = [] →
  call f m = Ok (ret (f (world m)), with_world (after (f (world m))) m).
Proof. intros E. unfold call. munfold. msimpl. rewrite E. reflexivity. Qed.

(** X5.  A command code that is none of the seven commands, written for a
    channel that is open and not closed by the host, is dropped: nothing
    changes, and [status] keeps the value the previous command left. *)
Theorem unknown_command_ignored (m : Machine) (command : Z) (p : ptr) (r : HwPipe.t) :
  latched_pipe m = Some p → heap m !! p = Some r → HwPipe.closed r = false →
  command ∉ command_labels →
  pipeDevice_doCommand command m = Ok (tt, m).
Proof.
  intros Hl Hr Hc Hnot. rewrite (doCommand_live _ _ _ _ Hl Hr Hc).
  assert (Hne : ∀ i x, command_labels !! i = Some x → (command =? x) = false).
  { intros i x Hx. apply Z.eqb_neq. intros ->. apply Hnot.
    by eapply list_elem_of_lookup_2. }
  rewrite (Hne 0%nat _ eq_refl), (Hne 1%nat _ eq_refl), (Hne 2%nat _ eq_refl),
    (Hne 3%nat _ eq_refl), (Hne 4%nat _ eq_refl), (Hne 5%nat _ eq_refl),
    (Hne 6%nat _ eq_refl).
  reflexivity.
Qed.

(** X6.  [PIPE_CMD_POLL] on an open channel asks the service of the channel
    and stores its answer, truncated to 32 bits, in [status].  The host is
    left as the service left it; no other register changes (the slot
    [cache_pipe] apart, if the service wakes a channel) and no record is
    relinked.  With a service that does not call back, nothing but [status]
    and the host changes. *)
Theorem poll_command (m : Machine) (p : ptr) (r : HwPipe.t) :
  header_ok = true →
  latched_pipe m = Some p → heap m !! p = Some r → HwPipe.closed r = false →
  let rp := android_pipe_poll (world m) (HwPipe.pipe r) in
  upcalls_live (heap m) (upcalls rp) →
  ∃ m', pipeDevice_doCommand (u32 PIPE_CMD_POLL) m = Ok (tt, m')
        ∧ PipeDevice.status (dev m') = u32 (ret rp)
        ∧ world m' = after rp
        ∧ regs m' = regs (upd_status (ret rp) m)
        ∧ links m' = links m
        ∧ (upcalls rp = [] → m' = upd_status (ret rp) (with_world (after rp) m)).
Proof.
  intros Hok Hl Hr Hc rp Hlive. rewrite (doCommand_live _ _ _ _ Hl Hr Hc).
  dispatch_commands Hok. unfold cmd_poll, set_status, load. munfold. rewrite Hr.
  destruct (call_spec (λ w, android_pipe_poll w (HwPipe.pipe r)) m Hlive)
    as (m1 & E & Hregs & Hlinks & Hw).
  rewrite E. eexists. split; [reflexivity|]. msimpl.
  split; [reflexivity|]. split; [exact Hw|]. split.
  { unfold regs, upd_status, with_dev in *. msimpl.
    change (PipeDevice.with_status (u32 (ret rp)) (PipeDevice.with_cache_pipe None (dev m1))
            = PipeDevice.with_status (u32 (ret rp)) (PipeDevice.with_cache_pipe None (dev m))).
    by rewrite Hregs. }
  split; [exact Hlinks|].
  intros Hq. rewrite (call_quiet _ _ Hq) in E. apply Ok_inv in E as [_ <-].
  reflexivity.
Qed.

(** X7.  [PIPE_CMD_WAKE_ON_READ] and [PIPE_CMD_WAKE_ON_WRITE] on an open
    channel.  If the event is already in the channel's [wanted] mask the
    service is not told again: only [status] changes, to 0.  Otherwise the
    event is added to the mask, the service is told the new mask, and
    [status] becomes 0. *)
Theorem wake_on_command (m : Machine) (on_read : bool) (p : ptr) (r : HwPipe.t) :
  header_ok = true →
  latched_pipe m = Some p → heap m !! p = Some r → HwPipe.closed r = false →
  let flag := wake_on_flag on_read in
  (Z.land (HwPipe.wanted r) flag ≠ 0 →
     pipeDevice_doCommand (wake_on_cmd on_read) m = Ok (tt, upd_status 0 m))
  ∧ (Z.land (HwPipe.wanted r) flag = 0 →
     let mask := u8 (Z.lor (HwPipe.wanted r) flag) in
     let rp := android_pipe_wake_on (world m) (HwPipe.pipe r) mask in
     upcalls_live (heap m) (upcalls rp) →
     ∃ m', pipeDevice_doCommand (wake_on_cmd on_read) m = Ok (tt, m')
           ∧ PipeDevice.status (dev m') = 0
           ∧ world m' = after rp
           ∧ regs m' = regs (upd_status 0 m)
           ∧ links m' = links m
           ∧ (upcalls rp = [] →
              m' = upd_status 0
                     (with_world (after rp)
                        (with_heap (<[p := HwPipe.with_wanted mask r]> (heap m)) m)))).
Proof.
  intros Hok Hl Hr Hc flag. rewrite (doCommand_live _ _ _ _ Hl Hr Hc).
  assert (Hd : (if wake_on_cmd on_read =? u32 PIPE_CMD_OPEN then cmd_open (Some p)
     else if wake_on_cmd on_read =? u32 PIPE_CMD_CLOSE then cmd_close (Some p)
     else if wake_on_cmd on_read =? u32 PIPE_CMD_POLL then cmd_poll (Some p)
     else if wake_on_cmd on_read =? u32 PIPE_CMD_READ_BUFFER then cmd_read_buffer (Some p)
     else if wake_on_cmd on_read =? u32 PIPE_CMD_WRITE_BUFFER then cmd_write_buffer (Some p)
     else if wake_on_cmd on_read =? u32 PIPE_CMD_WAKE_ON_READ
          then cmd_wake_on PIPE_WAKE_READ (Some p)
     else if wake_on_cmd on_read =? u32 PIPE_CMD_WAKE_ON_WRITE
          then cmd_wake_on PIPE_WAKE_WRITE (Some p)
     else mret tt) = cmd_wake_on flag (Some p)).
  { unfold wake_on_cmd, flag, wake_on_flag.
    destruct on_read; dispatch_commands Hok; reflexivity. }
  rewrite Hd. clear Hd.
  unfold cmd_wake_on, set_status, load, store. munfold. rewrite Hr. split.
  - intros Hw. apply Z.eqb_neq in Hw. rewrite Hw. reflexivity.
  - intros Hw Hlive. apply Z.eqb_eq in Hw. rewrite Hw. msimpl.
    rewrite Hr. msimpl. rewrite lookup_insert_eq. msimpl.
    set (mask := u8 (Z.lor (HwPipe.wanted r) flag)) in *.
    set (rp := android_pipe_wake_on (world m) (HwPipe.pipe r) mask) in *.
    match goal with |- context [call ?f ?m0] =>
      destruct (call_spec f m0) as (m1 & E & Hregs & Hlinks & Hwd);
      [|pose proof (call_quiet f m0) as Hq]
    end.
    { msimpl. fold rp. unfold upcalls_live in *.
      eapply Forall_impl; [exact Hlive|]. intros u [r0 Hr0].
      destruct (decide (upcall_target u = p)) as [->|?];
        [rewrite lookup_insert_eq; eauto|rewrite lookup_insert_ne by done; eauto]. }
    rewrite E. msimpl in Hwd. eexists. split; [reflexivity|]. msimpl.
    split; [reflexivity|]. split; [exact Hwd|]. split.
    { unfold regs, upd_status, with_dev in *. msimpl. msimpl in Hregs.
      change (PipeDevice.with_status (u32 0) (PipeDevice.with_cache_pipe None (dev m1))
              = PipeDevice.with_status (u32 0) (PipeDevice.with_cache_pipe None (dev m))).
      by rewrite Hregs. }
    split.
    { unfold links in *. msimpl. msimpl in Hlinks. rewrite Hlinks, fmap_insert.
      apply insert_id. by rewrite lookup_fmap, Hr. }
    intros Hquiet. msimpl in Hq. rewrite (Hq Hquiet) in E.
    apply Ok_inv in E as [_ <-]. reflexivity.
Qed.

(** X8.  [PIPE_CMD_READ_BUFFER] and [PIPE_CMD_WRITE_BUFFER] on an open
    channel map the guest buffer [address], [size] (for writing by the host
    when the guest reads).  If the host maps nothing, [status] becomes
    [PIPE_ERROR_INVAL]; if it maps a length other than [size], the mapping
    is released with access length 0 and [status] becomes
    [PIPE_ERROR_INVAL]; in both cases the service is not called.  Otherwise
    the service's [recv] or [send] runs on the buffer, [status] is its
    return value, and the mapping is released with access length [size].
    No other register changes and no record is relinked. *)
Theorem buffer_command
    (m : Machine) (reading : bool) (p : ptr) (r : HwPipe.t)
    (a : option Z) (l : Z) (w1 : World) :
  header_ok = true →
  latched_pipe m = Some p → heap m !! p = Some r → HwPipe.closed r = false →
  let size := PipeDevice.size (dev m) in
  cpu_physical_memory_map (world m) (PipeDevice.address (dev m)) size
    (buffer_dir reading) = (a, l, w1) →
  match a with
  | None =>
      pipeDevice_doCommand (buffer_cmd reading) m
      = Ok (tt, upd_status PIPE_ERROR_INVAL (with_world w1 m))
  | Some x =>
      if l =? size then
        let rp := transfer reading w1 (HwPipe.pipe r) (mkBuffer x size) in
        upcalls_live (heap m) (upcalls rp) →
        ∃ m', pipeDevice_doCommand (buffer_cmd reading) m = Ok (tt, m')
              ∧ PipeDevice.status (dev m') = u32 (ret rp)
              ∧ world m' = cpu_physical_memory_unmap (after rp) x size
                             (buffer_dir reading) size
              ∧ regs m' = regs (upd_status (ret rp) m)
              ∧ links m' = links m
      else
        pipeDevice_doCommand (buffer_cmd reading) m
        = Ok (tt, upd_status PIPE_ERROR_INVAL
                    (with_world (cpu_physical_memory_unmap w1 x l 0 0) m))
  end.
Proof.
  intros Hok Hl Hr Hc size Hmap.
  rewrite (doCommand_buffer _ _ _ _ Hok Hl Hr Hc).
  destruct reading; unfold cmd_read_buffer, cmd_write_buffer, map_guest_buffer,
    set_status, transfer, buffer_dir in *; munfold; fold size; rewrite Hmap.
  - destruct a as [x|]; [|reflexivity].
    destruct (l =? size) eqn:El; [|reflexivity].
    intros Hlive. unfold load. msimpl. rewrite Hr.
    match goal with |- context [call ?f ?m0] =>
      destruct (call_spec f m0 Hlive) as (m' & E & Hregs & Hlinks & Hw) end.
    rewrite E. msimpl in Hw. msimpl. eexists. split; [reflexivity|]. msimpl.
    split; [reflexivity|]. rewrite Hw.
    rewrite (regs_field PipeDevice.size _ _ ltac:(reflexivity) Hregs). msimpl.
    split; [reflexivity|]. split; [|exact Hlinks].
    unfold regs, upd_status, with_dev in *. msimpl. msimpl in Hregs.
    match goal with |- PipeDevice.with_cache_pipe None (PipeDevice.with_status ?s _) = _ =>
      change (PipeDevice.with_status s (PipeDevice.with_cache_pipe None (dev m'))
              = PipeDevice.with_status s (PipeDevice.with_cache_pipe None (dev m))) end.
    by rewrite Hregs.
  - destruct a as [x|]; [|reflexivity].
    destruct (l =? size) eqn:El; [|reflexivity].
    intros Hlive. unfold load. msimpl. rewrite Hr.
    match goal with |- context [call ?f ?m0] =>
      destruct (call_spec f m0 Hlive) as (m' & E & Hregs & Hlinks & Hw) end.
    rewrite E. msimpl in Hw. msimpl. eexists. split; [reflexivity|]. msimpl.
    split; [reflexivity|]. rewrite Hw.
    rewrite (regs_field PipeDevice.size _ _ ltac:(reflexivity) Hregs). msimpl.
    split; [reflexivity|]. split; [|exact Hlinks].
    unfold regs, upd_status, with_dev in *. msimpl. msimpl in Hregs.
    match goal with |- PipeDevice.with_cache_pipe None (PipeDevice.with_status ?s _) = _ =>
      change (PipeDevice.with_status s (PipeDevice.with_cache_pipe None (dev m'))
              = PipeDevice.with_status s (PipeDevice.with_cache_pipe None (dev m))) end.
    by rewrite Hregs.
Qed.

(** *** Host callbacks and the fast path *)

(** X9.  [closeFromHost] on a live record that is not yet closed marks it
    closed, adds [PIPE_WAKE_CLOSED] to its [wanted] mask and raises the
    interrupt; it never puts the record in a fast-path slot, so the device
    registers are as before.  On a record that is already closed it does
    nothing, so a second close changes nothing. *)
Theorem host_close_once (m : Machine) (q : ptr) (r : HwPipe.t) :
  heap m !! q = Some r →
  ∃ m1, qemu2_android_pipe_close (Some q) m = Ok (tt, m1)
        ∧ qemu2_android_pipe_close (Some q) m1 = Ok (tt, m1)
        ∧ dev m1 = dev m ∧ world m1 = world m
        ∧ (HwPipe.closed r = true → m1 = m)
        ∧ (HwPipe.closed r = false →
           heap m1 = <[q := HwPipe.with_wanted
                               (u8 (Z.lor (HwPipe.wanted r) (u8 PIPE_WAKE_CLOSED)))
                               (HwPipe.with_closed true r)]> (heap m)
           ∧ irq m1 = 1 :: irq m).
Proof.
  intros Hr. rewrite close_spec, Hr. destruct (HwPipe.closed r) eqn:Hc.
  - exists m. rewrite close_spec, Hr, Hc. repeat split; done.
  - eexists. split; [reflexivity|]. rewrite close_spec. msimpl.
    rewrite lookup_insert_eq. msimpl. repeat split; done.
Qed.

(** X10.  The fast path.  A wake of a live record that is not closed, with
    no 64-bit read pending, raises the interrupt and makes the very next
    read of [PIPE_REG_CHANNEL] return that channel, wherever the record is
    on the traversal list and even if it is not on it: [wakes] is the old
    [wanted] mask joined with the flags (as [unsigned char]), the [wanted]
    mask is cleared, and the read neither moves the traversal nor touches
    the interrupt.  A wake of a closed record joins the flags and raises the
    interrupt but leaves the slots alone. *)
Theorem woken_channel_is_read_first (m : Machine) (p : ptr) (r : HwPipe.t) (flags : Z) :
  header_ok = true →
  heap m !! p = Some r →
  (HwPipe.closed r = false → PipeDevice.cache_pipe_64bit (dev m) = None →
   ∃ m1 m2,
     qemu2_android_pipe_wake (Some p) flags m = Ok (tt, m1)
     ∧ irq m1 = 1 :: irq m
     ∧ pipe_dev_read (u64 PIPE_REG_CHANNEL) m1 = Ok (lo32 (HwPipe.channel r), m2)
     ∧ PipeDevice.wakes (dev m2) = u8 (Z.lor (HwPipe.wanted r) (u8 flags))
     ∧ heap m2 = <[p := HwPipe.with_wanted 0 r]> (heap m)
     ∧ irq m2 = irq m1
     ∧ PipeDevice.pipes (dev m2) = PipeDevice.pipes (dev m)
     ∧ in_slot m2 = None)
  ∧ (HwPipe.closed r = true →
     ∃ m1, qemu2_android_pipe_wake (Some p) flags m = Ok (tt, m1)
           ∧ dev m1 = dev m ∧ irq m1 = 1 :: irq m
           ∧ heap m1 = <[p := HwPipe.with_wanted
                                 (u8 (Z.lor (HwPipe.wanted r) (u8 flags))) r]> (heap m)).
Proof.
  intros Hok Hr. rewrite wake_spec, Hr. split.
  - intros Hc H64. rewrite Hc. eexists _, _. split; [reflexivity|]. msimpl.
    split; [reflexivity|]. rewrite (read_reg_channel Hok).
    match goal with |- context [read_channel ?m0] =>
      assert (Hs : in_slot m0 = Some p)
        by (unfold in_slot; msimpl; rewrite H64; reflexivity);
      rewrite (read_channel_slot m0 p Hs)
    end.
    msimpl. rewrite lookup_insert_eq. split; [reflexivity|]. msimpl.
    unfold slots_cleared, in_slot. msimpl. rewrite H64. msimpl. rewrite H64.
    rewrite insert_insert_eq. repeat split; reflexivity.
  - intros Hc. rewrite Hc. eexists. repeat split; reflexivity.
Qed.

(** *** The shape the device keeps *)

Lemma chain_links (m m' : Machine) (q : option ptr) (l : list ptr) :
  links m' = links m → chain (heap m) q l → chain (heap m') q l.
Proof.
  intros E. apply chain_ext. intros a _.
  apply (f_equal (λ x, x !! a)) in E. unfold links in E. rewrite !lookup_fmap in E.
  destruct (heap m' !! a) as [r'|], (heap m !! a) as [r|]; try done.
  unfold link_of in E. simpl in *. congruence.
Qed.

Lemma links_channel (m m' : Machine) (a : ptr) :
  links m' = links m →
  HwPipe.channel <$> heap m' !! a = HwPipe.channel <$> heap m !! a.
Proof.
  intros E. apply (f_equal (λ x, x !! a)) in E. unfold links in E.
  rewrite !lookup_fmap in E.
  destruct (heap m' !! a) as [r'|], (heap m !! a) as [r|]; try done.
  unfold link_of in E. simpl in *. congruence.
Qed.

Lemma consistent_shape (m m' : Machine) :
  links m' = links m → lists_of m' = lists_of m → consistent m → consistent m'.
Proof.
  intros Hlk Hls [HT (passed & rest & Hsave & Hpipes & HR)].
  unfold lists_of in Hls. injection Hls as Hp Hs Ht. split.
  - intros c p Hc. rewrite Ht in Hc. destruct (HT c p Hc) as (r & Hr & Hch).
    pose proof (links_channel _ _ p Hlk) as E. rewrite Hr in E.
    destruct (heap m' !! p) as [r'|]; [|done]. exists r'. split; [done|].
    simpl in E. congruence.
  - exists passed, rest. rewrite Hp, Hs, Ht.
    split; [by eapply chain_links|]. split; [by eapply chain_links|].
    intros p r' Hin Hr'.
    pose proof (links_channel _ _ p Hlk) as E. rewrite Hr' in E.
    destruct (heap m !! p) as [r|] eqn:Hr; [|done].
    simpl in E. injection E as E. rewrite E. by eapply HR.
Qed.

Lemma wake_keeps_lists (p : option ptr) (flags : Z) :
  keeps lists_of (qemu2_android_pipe_wake p flags).
Proof.
  unfold qemu2_android_pipe_wake, set_pipe_wanted_bits, set_cache_pipe.
  repeat frame_step.
Qed.

Lemma close_keeps_lists (p : option ptr) : keeps lists_of (qemu2_android_pipe_close p).
Proof.
  pose proof wake_keeps_lists. unfold qemu2_android_pipe_close. repeat frame_step.
Qed.

Lemma upcalls_keep_lists (us : list Upcall) : keeps lists_of (run_upcalls us).
Proof.
  pose proof wake_keeps_lists. pose proof close_keeps_lists.
  induction us as [|[q fl|q] us IH]; simpl; unfold run_upcall; repeat frame_step.
Qed.

Lemma call_keeps_lists {A : Type} (f : World → Reply World A) : keeps lists_of (call f).
Proof. pose proof upcalls_keep_lists. unfold call. repeat frame_step. Qed.

Lemma call_keeps_links {A : Type} (f : World → Reply World A) : keeps links (call f).
Proof. pose proof upcalls_keep_links. unfold call. repeat frame_step. Qed.

Lemma call_keeps_regs {A : Type} (f : World → Reply World A) : keeps regs (call f).
Proof. pose proof upcalls_keep_regs. unfold call. repeat frame_step. Qed.

Lemma map_guest_buffer_keeps_lists (phys size is_write : Z) :
  keeps lists_of (map_guest_buffer phys size is_write).
Proof. unfold map_guest_buffer. repeat frame_step. Qed.

Lemma map_guest_buffer_keeps_links (phys size is_write : Z) :
  keeps links (map_guest_buffer phys size is_write).
Proof. unfold map_guest_buffer. repeat frame_step. Qed.

(** The commands that neither open nor close. *)
Lemma plain_commands_keep_lists (pipe : option ptr) :
  keeps lists_of (cmd_poll pipe) ∧ keeps lists_of (cmd_read_buffer pipe)
  ∧ keeps lists_of (cmd_write_buffer pipe)
  ∧ ∀ flag, keeps lists_of (cmd_wake_on flag pipe).
Proof.
  pose proof (@call_keeps_lists Z). pose proof (@call_keeps_lists unit).
  pose proof map_guest_buffer_keeps_lists.
  unfold cmd_poll, cmd_read_buffer, cmd_write_buffer, cmd_wake_on, set_status.
  split; [|split; [|split; [|intros flag]]]; repeat frame_step.
Qed.

Lemma plain_commands_keep_links (pipe : option ptr) :
  keeps links (cmd_poll pipe) ∧ keeps links (cmd_read_buffer pipe)
  ∧ keeps links (cmd_write_buffer pipe)
  ∧ ∀ flag, keeps links (cmd_wake_on flag pipe).
Proof.
  pose proof (@call_keeps_links Z). pose proof (@call_keeps_links unit).
  pose proof map_guest_buffer_keeps_links.
  unfold cmd_poll, cmd_read_buffer, cmd_write_buffer, cmd_wake_on, set_status.
  split; [|split; [|split; [|intros flag]]]; repeat frame_step.
Qed.

Lemma call_inv {A : Type} (f : World → Reply World A) (m m' : Machine) (a : A) :
  call f m = Ok (a, m') →
  a = ret (f (world m)) ∧ regs m' = regs m ∧ links m' = links m
  ∧ lists_of m' = lists_of m ∧ world m' = after (f (world m)).
Proof.
  unfold call. munfold. msimpl.
  destruct (run_upcalls _ _) as [[[] m1]|c] eqn:E; [|done].
  intros [<- <-]%Ok_inv.
  pose proof (upcalls_keep_regs _ _ _ _ E).
  pose proof (upcalls_keep_links _ _ _ _ E).
  pose proof (upcalls_keep_lists _ _ _ _ E).
  pose proof (upcalls_keep_world _ _ _ _ E).
  done.
Qed.

(** What [PIPE_CMD_OPEN] leaves when it creates a record. *)
Lemma cmd_open_inv (m m' : Machine) :
  cmd_open None m = Ok (tt, m') →
  let p := fresh (dom (heap m)) in
  ∃ r', heap m' !! p = Some r'
        ∧ HwPipe.next r' = PipeDevice.pipes (dev m)
        ∧ HwPipe.channel r' = PipeDevice.channel (dev m)
        ∧ lists_of m'
          = (Some p, Some p,
             <[PipeDevice.channel (dev m) := p]> (PipeDevice.pipes_by_channel (dev m)))
        ∧ (∀ q, q ≠ p → link_of <$> heap m' !! q = link_of <$> heap m !! q).
Proof.
  intros E p. revert E.
  unfold cmd_open, pipe_new, pipe_new0, g_malloc0, set_status, store, load.
  munfold. fold p. msimpl. rewrite lookup_insert_eq. msimpl.
  rewrite insert_insert_eq.
  match goal with |- context [call ?f ?m0] =>
    destruct (call f m0) as [[h m1]|c] eqn:E; [|done];
    apply call_inv in E as (_ & Hregs & Hlinks & Hlists & _)
  end.
  destruct (links_lookup _ m1 p _ Hlinks ltac:(msimpl; apply lookup_insert_eq))
    as (r1 & Hr1 & Hlk1).
  rewrite Hr1. msimpl. rewrite lookup_insert_eq. msimpl.
  rewrite insert_insert_eq. intros [_ <-]%Ok_inv. msimpl.
  unfold link_of in Hlk1. msimpl in Hlk1. injection Hlk1 as Hn1 Hc1 Hp1.
  pose proof (regs_field PipeDevice.pipes _ _ ltac:(reflexivity) Hregs) as Hpipes.
  pose proof (regs_field PipeDevice.channel _ _ ltac:(reflexivity) Hregs) as Hch.
  pose proof (regs_field PipeDevice.pipes_by_channel _ _ ltac:(reflexivity) Hregs) as Htab.
  msimpl in Hpipes. msimpl in Hch. msimpl in Htab.
  eexists. split; [apply lookup_insert_eq|]. msimpl.
  split; [done|]. split; [done|]. split.
  { unfold lists_of. msimpl. by rewrite Htab, Hch. }
  intros q Hq. rewrite lookup_insert_ne by done.
  apply (f_equal (λ l, l !! q)) in Hlinks. unfold links in Hlinks.
  rewrite !lookup_fmap in Hlinks. msimpl in Hlinks.
  rewrite lookup_insert_ne in Hlinks by done. exact Hlinks.
Qed.

Lemma chain_fresh (h : gmap ptr HwPipe.t) (q : option ptr) (l : list ptr) (p : ptr) :
  h !! p = None → chain h q l → p ∉ l.
Proof.
  intros Hp Hc Hin. destruct (chain_live _ _ _ _ Hc Hin) as [r Hr]. congruence.
Qed.

Lemma open_keeps_consistent (m m' : Machine) :
  latched_pipe m = None → cmd_open None m = Ok (tt, m') →
  consistent m → consistent m'.
Proof.
  intros Hl E [HT (passed & rest & Hsave & Hpipes & HR)].
  apply cmd_open_inv in E as (r' & Hr' & Hn & Hch & Hls & Hother).
  set (p := fresh (dom (heap m))) in *.
  pose proof (fresh_None (heap m)) as Hfresh. fold p in Hfresh.
  unfold lists_of in Hls. injection Hls as Hp Hs Ht.
  unfold latched_pipe in Hl.
  assert (Hlive : ∀ q r, heap m !! q = Some r →
            ∃ r2, heap m' !! q = Some r2 ∧ HwPipe.channel r2 = HwPipe.channel r
                  ∧ HwPipe.next r2 = HwPipe.next r).
  { intros q r Hr. assert (q ≠ p) by congruence.
    pose proof (Hother q ltac:(done)) as E. rewrite Hr in E.
    destruct (heap m' !! q) as [r2|]; [|done]. exists r2.
    unfold link_of in E. simpl in E. split; [done|]. split; congruence. }
  assert (Hchain : ∀ q l, chain (heap m) q l → chain (heap m') q l).
  { intros q l Hc. eapply chain_ext; [|exact Hc]. intros a Ha.
    destruct (chain_live _ _ _ _ Hc Ha) as [r Hr].
    destruct (Hlive _ _ Hr) as (r2 & -> & _ & Hn2). rewrite Hr. simpl. congruence. }
  split.
  - intros c q. rewrite Ht. intros [[<- <-]|[Hne Hq]]%lookup_insert_Some.
    + eauto.
    + destruct (HT _ _ Hq) as (r & Hr & Hc).
      destruct (Hlive _ _ Hr) as (r2 & ? & ? & _). exists r2. split; [done|congruence].
  - exists [], (p :: rest). rewrite Hp, Hs. simpl.
    assert (Hc' : chain (heap m') (Some p) (p :: rest)).
    { simpl. split; [done|]. exists r'. split; [done|]. rewrite Hn. by apply Hchain. }
    split; [exact Hc'|]. split; [exact Hc'|].
    intros q r2 [->|Hin]%elem_of_cons Hr2.
    + assert (r2 = r') as -> by congruence. rewrite Ht, Hch. apply lookup_insert_eq.
    + destruct (chain_live _ _ _ _ Hpipes Hin) as [r Hr].
      destruct (Hlive _ _ Hr) as (r3 & Hr3 & Hc3 & _).
      assert (r3 = r2) as -> by congruence.
      pose proof (HR q r ltac:(apply elem_of_app; by right) Hr) as Hq.
      rewrite Ht, Hc3. rewrite lookup_insert_ne; [done|].
      intros E. rewrite <- E in Hq. congruence.
Qed.

(** The first half of [PIPE_CMD_CLOSE] on a record of the list: the record
    is unlinked and its id leaves the table. *)
Lemma cmd_close_unlink (m : Machine) (p : ptr) (r : HwPipe.t) (l1 l2 : list ptr) :
  chain (heap m) (PipeDevice.pipes (dev m)) (l1 ++ p :: l2) →
  heap m !! p = Some r →
  ∃ m0,
    cmd_close (Some p) m
    = (clear_cache_pipe_if_equal (Some p);; pipe_free (Some p)) m0
    ∧ heap m0 !! p = Some (HwPipe.with_next None r)
    ∧ chain (heap m0) (PipeDevice.pipes (dev m0)) (l1 ++ l2)
    ∧ (p ∉ l1 ++ l2)
    ∧ dev m0 = PipeDevice.with_pipes_by_channel
                 (delete (HwPipe.channel r) (PipeDevice.pipes_by_channel (dev m)))
                 (PipeDevice.with_save_pipes (PipeDevice.pipes (dev m0))
                    (PipeDevice.with_pipes (PipeDevice.pipes (dev m0)) (dev m)))
    ∧ world m0 = world m ∧ irq m0 = irq m
    ∧ (∀ q, q ≠ p →
         HwPipe.with_next None <$> heap m0 !! q
         = HwPipe.with_next None <$> heap m !! q)
    ∧ (l1 = [] →
       heap m0 = <[p := HwPipe.with_next None r]> (heap m)
       ∧ PipeDevice.pipes (dev m0) = HwPipe.next r).
Proof.
  intros Hc Hr.
  pose proof (chain_NoDup _ _ _ Hc) as Hnd.
  assert (Hp1 : p ∉ l1).
  { apply NoDup_app in Hnd as (_ & Hd & _). intros Hin. apply (Hd _ Hin). by left. }
  assert (Hp : p ∉ l1 ++ l2).
  { apply NoDup_app in Hnd as (_ & Hd & Hnd2). apply NoDup_cons in Hnd2 as [Hp2 _].
    intros [?|?]%elem_of_app; done. }
  unfold cmd_close. rewrite bind_unfold, (close_walk _ _ _ Hc).
  rewrite (stop_at_found _ _ _ _ Hp1).
  pose proof (chain_unlink _ _ _ _ _ _ Hc Hr) as Hun.
  destruct (last l1) as [a|] eqn:El.
  - destruct Hun as (ra & Hra & Hap & Hna & Hc').
    unfold read_pnode, write_pnode, load, store. munfold.
    rewrite Hra, Hna, Hr. msimpl. rewrite Hra. msimpl.
    rewrite lookup_insert_ne by done. rewrite Hr. msimpl.
    rewrite lookup_insert_eq. msimpl.
    eexists. split; [reflexivity|]. msimpl.
    split; [apply lookup_insert_eq|]. split.
    { eapply chain_ext; [|exact Hc']. intros c Hcin.
      assert (c ≠ p) by (intros ->; done). by rewrite lookup_insert_ne. }
    split; [done|]. split; [reflexivity|]. split; [reflexivity|].
    split; [reflexivity|]. split.
    + intros q Hq. rewrite lookup_insert_ne by done.
      destruct (decide (q = a)) as [->|Hqa].
      * rewrite lookup_insert_eq, Hra. reflexivity.
      * by rewrite lookup_insert_ne.
    + intros ->. discriminate.
  - apply last_None in El as ->. simpl in *. destruct Hun as [Hhd Hc'].
    unfold read_pnode, write_pnode, load, store. munfold.
    rewrite Hhd, Hr. msimpl. rewrite Hr. msimpl.
    rewrite lookup_insert_eq. msimpl.
    eexists. split; [reflexivity|]. msimpl.
    split; [apply lookup_insert_eq|]. split.
    { eapply chain_ext; [|exact Hc']. intros c Hcin.
      assert (c ≠ p) by (intros ->; done). by rewrite lookup_insert_ne. }
    split; [done|]. split; [reflexivity|]. split; [reflexivity|].
    split; [reflexivity|]. split.
    + intros q Hq. by rewrite lookup_insert_ne.
    + intros _. split; reflexivity.
Qed.

(** The second half: the slots are cleared of the record, the service is
    torn down and the record is freed. *)
Lemma close_free_inv (m0 m' : Machine) (p : ptr) (r0 : HwPipe.t) :
  heap m0 !! p = Some r0 →
  (clear_cache_pipe_if_equal (Some p);; pipe_free (Some p)) m0 = Ok (tt, m') →
  ∃ m2, links m2 = links m0 ∧ lists_of m2 = lists_of m0
        ∧ heap m' = delete p (heap m2) ∧ dev m' = dev m2
        ∧ PipeDevice.status (dev m') = PipeDevice.status (dev m0).
Proof.
  intros Hr0. rewrite bind_unfold.
  destruct (clear_cache_pipe_spec m0 p) as (m1 & -> & Hh1 & Hw1 & Hcp & Hc64 & Hregs1).
  unfold pipe_free, load, g_free. munfold. rewrite Hh1, Hr0.
  match goal with |- context [call ?f ?m0] =>
    destruct (call f m0) as [[h m2]|c] eqn:E; [|done];
    apply call_inv in E as (_ & Hregs & Hlinks & Hlists & _)
  end.
  destruct (links_lookup _ m2 p _ Hlinks ltac:(rewrite Hh1; exact Hr0))
    as (r2 & Hr2 & _).
  rewrite Hr2. intros [_ <-]%Ok_inv. msimpl. exists m2.
  pose proof (f_equal (PipeDevice.with_cache_pipe_64bit None) Hregs) as Hall.
  rewrite Hregs1 in Hall. unfold regs in Hall. msimpl in Hall.
  apply (f_equal (λ d, (PipeDevice.pipes d, PipeDevice.save_pipes d,
           PipeDevice.pipes_by_channel d, PipeDevice.status d))) in Hall.
  msimpl in Hall. injection Hall as Hpipes Hsave Htab Hst.
  split.
  { rewrite Hlinks. unfold links. by rewrite Hh1. }
  split; [unfold lists_of; by rewrite Hpipes, Hsave, Htab|].
  split; [reflexivity|]. split; [reflexivity|]. exact Hst.
Qed.

Lemma cmd_close_missing (m : Machine) (p : ptr) (l : list ptr) :
  chain (heap m) (PipeDevice.pipes (dev m)) l → p ∉ l →
  cmd_close (Some p) m = Ok (tt, upd_status PIPE_ERROR_INVAL m).
Proof.
  intros Hc Hnin. unfold cmd_close. rewrite bind_unfold, (close_walk _ _ _ Hc).
  rewrite (stop_at_missing _ _ _ Hnin).
  unfold set_status. destruct (last l) as [a|] eqn:El.
  - destruct (chain_last _ _ _ _ Hc El) as (ra & Hra & Hn).
    unfold read_pnode, load. munfold. rewrite Hra, Hn. reflexivity.
  - apply last_None in El as ->. simpl in Hc.
    unfold read_pnode. munfold. rewrite Hc. reflexivity.
Qed.

Lemma close_keeps_consistent (m m' : Machine) (p : ptr) :
  latched_pipe m = Some p → cmd_close (Some p) m = Ok (tt, m') →
  consistent m → consistent m'.
Proof.
  intros Hl E Hcons. pose proof Hcons as [HT (passed & rest & Hsave & Hpipes & HR)].
  unfold latched_pipe in Hl. destruct (HT _ _ Hl) as (r & Hr & Hch).
  destruct (decide (p ∈ rest)) as [Hin|Hnin].
  - apply list_elem_of_split in Hin as (l1 & l2 & ->).
    destruct (cmd_close_unlink _ _ _ _ _ Hpipes Hr)
      as (m0 & E0 & Hr0 & Hc0 & Hp & Hdev0 & _ & _ & Hother & _).
    rewrite E0 in E.
    destruct (close_free_inv _ _ _ _ Hr0 E) as (m2 & Hlinks & Hlists & Hheap & Hdev & _).
    unfold lists_of in Hlists. rewrite <- Hdev in Hlists.
    injection Hlists as Hp' Hs' Ht'.
    rewrite Hdev0 in Hs', Ht'. msimpl in Hs'. msimpl in Ht'.
    assert (Hlive : ∀ q rq, q ≠ p → heap m !! q = Some rq →
              ∃ r2, heap m' !! q = Some r2 ∧ HwPipe.channel r2 = HwPipe.channel rq).
    { intros q rq Hq Hrq. rewrite Hheap, lookup_delete_ne by done.
      pose proof (Hother q Hq) as E1. rewrite Hrq in E1.
      destruct (heap m0 !! q) as [rq0|] eqn:Hrq0; [|done].
      apply (f_equal (fmap HwPipe.channel)) in E1. simpl in E1. injection E1 as E1.
      pose proof (links_channel _ _ q Hlinks) as E2. rewrite Hrq0 in E2.
      destruct (heap m2 !! q) as [rq2|]; [|done]. simpl in E2. injection E2 as E2.
      exists rq2. split; [done|]. congruence. }
    split.
    + intros c q. rewrite Ht'. intros [Hne Hq]%lookup_delete_Some.
      destruct (HT _ _ Hq) as (rq & Hrq & Hcq).
      assert (q ≠ p) by (intros ->; congruence).
      destruct (Hlive _ _ ltac:(done) Hrq) as (r2 & ? & ?). exists r2.
      split; [done|congruence].
    + exists [], (l1 ++ l2). simpl. rewrite Hs', Hp'.
      assert (Hc' : chain (heap m') (PipeDevice.pipes (dev m0)) (l1 ++ l2)).
      { eapply chain_ext; [|eapply chain_links; [exact Hlinks|exact Hc0]].
        intros c Hcin. rewrite Hheap, lookup_delete_ne; [done|].
        intros <-. done. }
      split; [exact Hc'|]. split; [exact Hc'|].
      intros q r2 Hq Hr2. assert (Hqp : q ≠ p) by (intros ->; done).
      assert (Hq' : q ∈ l1 ++ p :: l2).
      { apply elem_of_app in Hq as [?|?]; apply elem_of_app; [by left|right; by right]. }
      destruct (chain_live _ _ _ _ Hpipes Hq') as [rq Hrq].
      destruct (Hlive _ _ Hqp Hrq) as (r3 & Hr3 & Hc3).
      assert (r3 = r2) as -> by congruence.
      pose proof (HR q rq ltac:(apply elem_of_app; by right) Hrq) as Htq.
      rewrite Ht', Hc3. rewrite lookup_delete_ne; [done|].
      intros E1. rewrite <- E1, Hch in Htq. congruence.
  - rewrite (cmd_close_missing _ _ _ Hpipes Hnin) in E. apply Ok_inv in E as [_ <-].
    eapply consistent_shape; [| |exact Hcons]; reflexivity.
Qed.

Lemma keeps_consistent {A : Type} (x : M A) (m m' : Machine) (a : A) :
  keeps links x → keeps lists_of x →
  x m = Ok (a, m') → consistent m → consistent m'.
Proof.
  intros Hlk Hls E. apply consistent_shape; [by eapply Hlk|by eapply Hls].
Qed.

Lemma set_status_keeps_consistent (v : Z) (m m' : Machine) :
  set_status v m = Ok (tt, m') → consistent m → consistent m'.
Proof.
  apply keeps_consistent; unfold set_status; repeat frame_step.
Qed.

Lemma doCommand_keeps_consistent (command : Z) (m m' : Machine) :
  pipeDevice_doCommand command m = Ok (tt, m') → consistent m → consistent m'.
Proof.
  intros E Hcons. pose proof Hcons as [HT _]. revert E.
  destruct (plain_commands_keep_lists (latched_pipe m)) as (Hl1 & Hl2 & Hl3 & Hl4).
  destruct (plain_commands_keep_links (latched_pipe m)) as (Hk1 & Hk2 & Hk3 & Hk4).
  unfold pipeDevice_doCommand. rewrite bind_unfold. unfold get_dev at 1.
  fold (latched_pipe m). destruct (latched_pipe m) as [p|] eqn:Hl.
  - destruct (HT _ _ Hl) as (r & Hr & _).
    rewrite bool_decide_eq_false_2 by done. rewrite andb_false_r.
    unfold load. munfold. rewrite Hr.
    destruct (HwPipe.closed r && negb (command =? u32 PIPE_CMD_CLOSE)).
    { intros E. by eapply set_status_keeps_consistent. }
    destruct (command =? u32 PIPE_CMD_OPEN).
    { intros E. by eapply set_status_keeps_consistent. }
    destruct (command =? u32 PIPE_CMD_CLOSE).
    { intros E. by eapply close_keeps_consistent. }
    destruct (command =? u32 PIPE_CMD_POLL).
    { intros E. by eapply (keeps_consistent _ _ _ _ Hk1 Hl1). }
    destruct (command =? u32 PIPE_CMD_READ_BUFFER).
    { intros E. by eapply (keeps_consistent _ _ _ _ Hk2 Hl2). }
    destruct (command =? u32 PIPE_CMD_WRITE_BUFFER).
    { intros E. by eapply (keeps_consistent _ _ _ _ Hk3 Hl3). }
    destruct (command =? u32 PIPE_CMD_WAKE_ON_READ).
    { intros E. by eapply (keeps_consistent _ _ _ _ (Hk4 _) (Hl4 _)). }
    destruct (command =? u32 PIPE_CMD_WAKE_ON_WRITE).
    { intros E. by eapply (keeps_consistent _ _ _ _ (Hk4 _) (Hl4 _)). }
    intros [_ <-]%Ok_inv. done.
  - rewrite bool_decide_eq_true_2 by done. rewrite andb_true_r.
    destruct (command =? u32 PIPE_CMD_OPEN); simpl.
    + munfold. intros E. by eapply open_keeps_consistent.
    + intros E. by eapply set_status_keeps_consistent.
Qed.

(** Where the scan stops on a list. *)
Lemma skip_unwanted_split (l : list ptr) (fuel : nat) (q : option ptr) (p : ptr)
    (m m' : Machine) :
  chain (heap m) q l → skip_unwanted fuel q m = Ok (Some p, m') →
  ∃ l1 l2, l = l1 ++ p :: l2.
Proof.
  revert fuel q. induction l as [|a l IH]; intros fuel q Hc; simpl in Hc.
  - subst q. destruct fuel; simpl; munfold; discriminate.
  - destruct Hc as [-> (r & Hr & Hc)].
    destruct fuel as [|fuel]; simpl; unfold load; munfold; rewrite Hr;
      destruct (HwPipe.wanted r =? 0); try discriminate;
      try (intros [[= <-] _]%Ok_inv; by exists [], l).
    intros (l1 & l2 & ->)%(IH _ _ Hc). by exists (a :: l1), l2.
Qed.

Lemma scan_split (m : Machine) (l : list ptr) (p : ptr) :
  chain (heap m) (PipeDevice.pipes (dev m)) l → scan m = Ok (Some p) →
  ∃ l1 l2 r, l = l1 ++ p :: l2 ∧ heap m !! p = Some r
             ∧ chain (heap m) (HwPipe.next r) l2.
Proof.
  intros Hc Hs. pose proof Hs as Hs'. apply scan_Ok in Hs'. unfold bounded in Hs'.
  destruct (skip_unwanted_split _ _ _ _ _ _ Hc Hs') as (l1 & l2 & ->).
  destruct (chain_app _ _ _ _ Hc) as (q' & Hq'). simpl in Hq'.
  destruct Hq' as [_ (r & Hr & Hc2)]. by exists l1, l2, r.
Qed.

Lemma with_wanted_keeps_chain (h : gmap ptr HwPipe.t) (p : ptr) (r : HwPipe.t) (v : Z)
    (q : option ptr) (l : list ptr) :
  h !! p = Some r → chain h q l → chain (<[p := HwPipe.with_wanted v r]> h) q l.
Proof.
  intros Hr. apply chain_ext. intros a _.
  destruct (decide (a = p)) as [->|Hne];
    [rewrite lookup_insert_eq, Hr; reflexivity|by rewrite lookup_insert_ne].
Qed.

Lemma read_channel_keeps_consistent (m m' : Machine) (v : Z) :
  read_channel m = Ok (v, m') → consistent m → consistent m'.
Proof.
  intros E Hcons. destruct (in_slot m) as [c|] eqn:Hc.
  - rewrite (read_channel_slot _ _ Hc) in E.
    destruct (heap m !! c) as [r|] eqn:Hr; [|done]. apply Ok_inv in E as [_ <-].
    eapply consistent_shape; [| |exact Hcons].
    + unfold links. msimpl. rewrite fmap_insert. apply insert_id.
      by rewrite lookup_fmap, Hr.
    + unfold lists_of, slots_cleared. msimpl.
      destruct (PipeDevice.cache_pipe_64bit (dev m)); reflexivity.
  - rewrite (read_channel_scanned _ Hc) in E.
    destruct Hcons as [HT (passed & rest & Hsave & Hpipes & HR)].
    apply in_slot_None in Hc as [H64 Hcp].
    assert (Hsc : slots_cleared (dev m) = dev m).
    { unfold slots_cleared. rewrite H64. by apply with_cache_pipe_None_id. }
    rewrite Hsc in E.
    destruct (scan m) as [[p|]|e] eqn:Hs; [| |done].
    + destruct (scan_split _ _ _ Hpipes Hs) as (l1 & l2 & r & -> & Hr & Hc2).
      rewrite Hr in E. apply Ok_inv in E as [_ <-]. split; msimpl.
      * intros c q Hq. destruct (HT _ _ Hq) as (rq & Hrq & Hch).
        destruct (decide (q = p)) as [->|Hne].
        -- rewrite lookup_insert_eq. eexists. split; [done|].
           assert (rq = r) as -> by congruence. done.
        -- rewrite lookup_insert_ne by done. eauto.
      * exists (passed ++ l1 ++ [p]), l2.
        replace ((passed ++ l1 ++ [p]) ++ l2) with (passed ++ l1 ++ p :: l2)
          by (by rewrite <- !app_assoc).
        split; [by apply with_wanted_keeps_chain|].
        split; [by apply with_wanted_keeps_chain|].
        intros q r2 Hq. destruct (decide (q = p)) as [->|Hne].
        -- rewrite lookup_insert_eq. intros [= <-]. msimpl. by eapply HR.
        -- rewrite lookup_insert_ne by done. by apply HR.
    + apply Ok_inv in E as [_ <-]. split; msimpl; [done|].
      exists [], (passed ++ rest). simpl. split; [done|]. split; [done|]. done.
Qed.

Lemma read_channel_high_keeps_consistent (m m' : Machine) (v : Z) :
  read_channel_high m = Ok (v, m') → consistent m → consistent m'.
Proof.
  intros E Hcons. destruct (in_slot m) as [c|] eqn:Hc.
  - rewrite (read_channel_high_slot _ _ Hc) in E.
    destruct (heap m !! c) as [r|] eqn:Hr; [|done].
    destruct (hi32 (HwPipe.channel r) =? 0); [done|]. apply Ok_inv in E as [_ <-].
    eapply consistent_shape; [| |exact Hcons]; [reflexivity|].
    unfold lists_of, slots_cleared. msimpl.
    destruct (PipeDevice.cache_pipe_64bit (dev m)); reflexivity.
  - rewrite (read_channel_high_scanned _ Hc) in E.
    destruct Hcons as [HT (passed & rest & Hsave & Hpipes & HR)].
    apply in_slot_None in Hc as [H64 Hcp].
    assert (Hsc : slots_cleared (dev m) = dev m).
    { unfold slots_cleared. rewrite H64. by apply with_cache_pipe_None_id. }
    rewrite Hsc in E.
    destruct (scan m) as [[p|]|e] eqn:Hs; [| |done].
    + destruct (scan_split _ _ _ Hpipes Hs) as (l1 & l2 & r & -> & Hr & Hc2).
      rewrite Hr in E. destruct (hi32 (HwPipe.channel r) =? 0); [done|].
      apply Ok_inv in E as [_ <-]. split; msimpl; [done|].
      exists (passed ++ l1), (p :: l2). rewrite <- app_assoc.
      split; [done|]. split; [|done]. simpl. eauto.
    + apply Ok_inv in E as [_ <-]. split; msimpl; [done|].
      exists [], (passed ++ rest). simpl. split; [done|]. split; [done|]. done.
Qed.

Lemma read_keeps_consistent (offset : Z) (m m' : Machine) (v : Z) :
  pipe_dev_read offset m = Ok (v, m') → consistent m → consistent m'.
Proof.
  unfold pipe_dev_read.
  repeat match goal with
  | |- context [if ?b then _ else _] => destruct b
  end;
  first [ apply read_channel_keeps_consistent
        | apply read_channel_high_keeps_consistent
        | munfold; intros [_ <-]%Ok_inv; done ].
Qed.

Lemma latch_keeps_consistent (f : PipeDevice.t → PipeDevice.t) (m : Machine) :
  (∀ d, PipeDevice.pipes (f d) = PipeDevice.pipes d
        ∧ PipeDevice.save_pipes (f d) = PipeDevice.save_pipes d
        ∧ PipeDevice.pipes_by_channel (f d) = PipeDevice.pipes_by_channel d) →
  consistent m → consistent (with_dev f m).
Proof.
  intros Hf. apply consistent_shape; [reflexivity|].
  unfold lists_of. simpl. destruct (Hf (dev m)) as (-> & -> & ->). reflexivity.
Qed.

Lemma access_params_keeps_consistent (m m' : Machine) :
  access_params m = Ok (tt, m') → consistent m → consistent m'.
Proof.
  rewrite access_params_spec.
  destruct (PipeDevice.params_addr (dev m) =? 0); [by intros [_ <-]%Ok_inv|].
  assert (Hlatch : consistent m → consistent (latch_params m)).
  { unfold latch_params, latch. apply latch_keeps_consistent. done. }
  destruct (negb _ && negb _).
  - intros [_ <-]%Ok_inv. exact Hlatch.
  - unfold command_then_write_back.
    destruct (pipeDevice_doCommand _ _) as [[[] m1]|c] eqn:E; [|done].
    intros [_ <-]%Ok_inv Hcons.
    apply (consistent_shape m1); [reflexivity|reflexivity|].
    eapply doCommand_keeps_consistent; [exact E|]. by apply Hlatch.
Qed.

Lemma write_keeps_consistent (offset value : Z) (m m' : Machine) :
  pipe_dev_write offset value m = Ok (tt, m') → consistent m → consistent m'.
Proof.
  unfold pipe_dev_write.
  repeat match goal with
  | |- context [if ?b then _ else _] => destruct b
  end;
  first [ apply doCommand_keeps_consistent
        | apply access_params_keeps_consistent
        | munfold; intros [_ <-]%Ok_inv; try done;
          apply latch_keeps_consistent; done ].
Qed.

Lemma step_keeps_consistent (s : Step) (m m' : Machine) :
  step s m = Ok (tt, m') → consistent m → consistent m'.
Proof.
  destruct s as [offset value|offset|q fl|q]; simpl.
  - apply write_keeps_consistent.
  - rewrite bind_unfold.
    destruct (pipe_dev_read offset m) as [[v m1]|c] eqn:E; [|done].
    intros [_ <-]%Ok_inv. by eapply read_keeps_consistent.
  - apply keeps_consistent; [apply wake_keeps_links|apply wake_keeps_lists].
  - apply keeps_consistent; [apply close_keeps_links|apply close_keeps_lists].
Qed.

(** X11.  The device keeps its table and its lists in shape.  After
    [android_pipe_realize], and after every sequence of guest register
    accesses and host callbacks that returns, every table entry is a live
    record carrying its key as channel id, the saved list is a list of live
    records that ends in [NULL], the traversal position is a suffix of it,
    and every record of the list is in the table under its id.  This holds
    whatever the services do when they are called. *)
Theorem run_keeps_consistent (ss : list Step) (m m' : Machine) :
  (∀ w, consistent (power_on w))
  ∧ (consistent m → run ss m = Ok (tt, m') → consistent m').
Proof.
  split.
  - intros w. split; [intros c p; simpl; by rewrite lookup_empty|].
    exists [], []. simpl. split; [done|]. split; [done|].
    intros p r Hin. by apply not_elem_of_nil in Hin.
  - revert m. induction ss as [|s ss IH]; intros m Hcons; simpl.
    + by intros [_ <-]%Ok_inv.
    + rewrite bind_unfold. destruct (step s m) as [[[] m1]|c] eqn:E; [|done].
      intros E2. eapply IH; [|exact E2]. by eapply step_keeps_consistent.
Qed.

(** *** Memory safety with a quiet host *)

Lemma slots_live_frame (m m' : Machine) :
  (∀ c, is_Some (heap m !! c) → is_Some (heap m' !! c)) →
  PipeDevice.cache_pipe (dev m') = PipeDevice.cache_pipe (dev m) →
  PipeDevice.cache_pipe_64bit (dev m') = PipeDevice.cache_pipe_64bit (dev m) →
  slots_live m → slots_live m'.
Proof.
  intros Hh Hc H64 Hs c. rewrite Hc, H64. intros H. apply Hh, Hs, H.
Qed.

Lemma insert_live (h : gmap ptr HwPipe.t) (p : ptr) (r : HwPipe.t) (c : ptr) :
  is_Some (h !! c) → is_Some (<[p := r]> h !! c).
Proof.
  intros H. destruct (decide (c = p)) as [->|?];
    [rewrite lookup_insert_eq; eauto|by rewrite lookup_insert_ne].
Qed.

Lemma set_status_safe (v : Z) (m : Machine) :
  slots_live m → ∃ m', set_status v m = Ok (tt, m') ∧ slots_live m'.
Proof.
  intros Hs. eexists. split; [reflexivity|].
  by apply (slots_live_frame m); [done|reflexivity|reflexivity|].
Qed.

Lemma cmd_open_safe (m : Machine) :
  quiet_host → slots_live m →
  ∃ m', cmd_open None m = Ok (tt, m') ∧ slots_live m'.
Proof.
  intros (Hnew & _) Hs.
  unfold cmd_open, pipe_new, pipe_new0, g_malloc0, set_status, store, load.
  munfold. msimpl. rewrite lookup_insert_eq. msimpl. rewrite insert_insert_eq.
  rewrite call_quiet by apply Hnew. unfold with_world. msimpl.
  rewrite lookup_insert_eq. msimpl. rewrite insert_insert_eq.
  rewrite lookup_insert_eq. msimpl. rewrite insert_insert_eq.
  eexists. split; [reflexivity|].
  apply (slots_live_frame m); [|reflexivity|reflexivity|done].
  intros c. apply insert_live.
Qed.

Lemma cmd_poll_safe (m : Machine) (p : ptr) (r : HwPipe.t) :
  quiet_host → heap m !! p = Some r → slots_live m →
  ∃ m', cmd_poll (Some p) m = Ok (tt, m') ∧ slots_live m'.
Proof.
  intros (_ & _ & Hpoll & _) Hr Hs.
  unfold cmd_poll, set_status, load. munfold. rewrite Hr.
  rewrite call_quiet by apply Hpoll. unfold with_world. msimpl.
  eexists. split; [reflexivity|].
  by apply (slots_live_frame m); [|reflexivity|reflexivity|].
Qed.

Lemma cmd_wake_on_safe (m : Machine) (flag : Z) (p : ptr) (r : HwPipe.t) :
  quiet_host → heap m !! p = Some r → slots_live m →
  ∃ m', cmd_wake_on flag (Some p) m = Ok (tt, m') ∧ slots_live m'.
Proof.
  intros (_ & _ & _ & _ & _ & Hwake) Hr Hs.
  unfold cmd_wake_on, set_status, load, store. munfold. rewrite Hr.
  destruct (Z.land (HwPipe.wanted r) flag =? 0).
  - msimpl. rewrite Hr. msimpl. rewrite lookup_insert_eq. msimpl.
    rewrite call_quiet by apply Hwake. unfold with_world. msimpl.
    eexists. split; [reflexivity|].
    apply (slots_live_frame m); [|reflexivity|reflexivity|done].
    intros c. apply insert_live.
  - eexists. split; [reflexivity|].
    by apply (slots_live_frame m); [|reflexivity|reflexivity|].
Qed.

Lemma cmd_buffer_safe (m : Machine) (reading : bool) (p : ptr) (r : HwPipe.t) :
  quiet_host → heap m !! p = Some r → slots_live m →
  ∃ m', (if reading then cmd_read_buffer (Some p) else cmd_write_buffer (Some p)) m
        = Ok (tt, m')
        ∧ slots_live m'.
Proof.
  intros (_ & _ & _ & Hrecv & Hsend & _) Hr Hs.
  destruct reading; unfold cmd_read_buffer, cmd_write_buffer, map_guest_buffer,
    set_status, load; munfold;
    destruct (cpu_physical_memory_map _ _ _ _) as [[[x|] l] w1]; msimpl;
    try (eexists; split; [reflexivity|];
         by apply (slots_live_frame m); [|reflexivity|reflexivity|]);
    (destruct (l =? _); msimpl;
     [|eexists; split; [reflexivity|];
       by apply (slots_live_frame m); [|reflexivity|reflexivity|]]);
    rewrite Hr.
  - rewrite call_quiet by apply Hrecv. unfold with_world. msimpl.
    eexists. split; [reflexivity|].
    by apply (slots_live_frame m); [|reflexivity|reflexivity|].
  - rewrite call_quiet by apply Hsend. unfold with_world. msimpl.
    eexists. split; [reflexivity|].
    by apply (slots_live_frame m); [|reflexivity|reflexivity|].
Qed.

Lemma close_free_quiet (m0 : Machine) (p : ptr) (r0 : HwPipe.t) :
  quiet_host → heap m0 !! p = Some r0 →
  ∃ m', (clear_cache_pipe_if_equal (Some p);; pipe_free (Some p)) m0 = Ok (tt, m')
        ∧ heap m' = delete p (heap m0)
        ∧ world m' = after (android_pipe_free (world m0) (HwPipe.pipe r0))
        ∧ irq m' = irq m0
        ∧ PipeDevice.cache_pipe (dev m')
          = (if decide (PipeDevice.cache_pipe (dev m0) = Some p) then None
             else PipeDevice.cache_pipe (dev m0))
        ∧ PipeDevice.cache_pipe_64bit (dev m')
          = (if decide (PipeDevice.cache_pipe_64bit (dev m0) = Some p) then None
             else PipeDevice.cache_pipe_64bit (dev m0))
        ∧ PipeDevice.with_cache_pipe_64bit None (regs m')
          = PipeDevice.with_cache_pipe_64bit None (regs m0).
Proof.
  intros (_ & Hfree & _) Hr0.
  unfold clear_cache_pipe_if_equal, pipe_free, load, g_free, regs. munfold. msimpl.
  destruct (decide (PipeDevice.cache_pipe (dev m0) = Some p)) as [E1|E1]; msimpl;
    destruct (decide (PipeDevice.cache_pipe_64bit (dev m0) = Some p)) as [E2|E2];
    msimpl; rewrite Hr0; rewrite call_quiet by apply Hfree;
    unfold with_world; msimpl; rewrite Hr0;
    (eexists; split; [reflexivity|]); msimpl; repeat split; reflexivity.
Qed.

Lemma cmd_close_safe (m : Machine) (p : ptr) (r : HwPipe.t) (l : list ptr) :
  quiet_host → heap m !! p = Some r →
  chain (heap m) (PipeDevice.pipes (dev m)) l → slots_live m →
  ∃ m', cmd_close (Some p) m = Ok (tt, m') ∧ slots_live m'.
Proof.
  intros Hq Hr Hc Hs. destruct (decide (p ∈ l)) as [Hin|Hnin].
  - apply list_elem_of_split in Hin as (l1 & l2 & ->).
    destruct (cmd_close_unlink _ _ _ _ _ Hc Hr)
      as (m0 & -> & Hr0 & _ & _ & Hdev0 & _ & _ & Hother & _).
    destruct (close_free_quiet _ _ _ Hq Hr0) as (m' & -> & Hh & _ & _ & Hcp & H64 & _).
    exists m'. split; [reflexivity|]. intros c Hc'. rewrite Hh.
    assert (Hcs : (PipeDevice.cache_pipe (dev m) = Some c
                   ∨ PipeDevice.cache_pipe_64bit (dev m) = Some c) ∧ c ≠ p).
    { rewrite Hcp, H64, Hdev0 in Hc'. msimpl in Hc'.
      destruct (decide (PipeDevice.cache_pipe (dev m) = Some p)),
        (decide (PipeDevice.cache_pipe_64bit (dev m) = Some p));
        destruct Hc' as [Hc'|Hc']; try done;
        (split; [tauto|intros ->; done]). }
    destruct Hcs as [Hcs Hne]. rewrite lookup_delete_ne by done.
    pose proof (Hother c Hne) as E. destruct (Hs c Hcs) as [rc Hrc]. rewrite Hrc in E.
    destruct (heap m0 !! c); [eauto|done].
  - rewrite (cmd_close_missing _ _ _ Hc Hnin). eexists. split; [reflexivity|].
    by apply (slots_live_frame m); [|reflexivity|reflexivity|].
Qed.

Lemma doCommand_safe (command : Z) (m : Machine) :
  quiet_host → consistent m → slots_live m →
  ∃ m', pipeDevice_doCommand command m = Ok (tt, m') ∧ slots_live m'.
Proof.
  intros Hq [HT (passed & rest & _ & Hpipes & _)] Hs.
  unfold pipeDevice_doCommand. rewrite bind_unfold. unfold get_dev at 1.
  fold (latched_pipe m). destruct (latched_pipe m) as [p|] eqn:Hl.
  - destruct (HT _ _ Hl) as (r & Hr & _).
    rewrite bool_decide_eq_false_2 by done. rewrite andb_false_r.
    unfold load. munfold. rewrite Hr.
    destruct (HwPipe.closed r && negb (command =? u32 PIPE_CMD_CLOSE));
      [by apply set_status_safe|].
    destruct (command =? u32 PIPE_CMD_OPEN); [by apply set_status_safe|].
    destruct (command =? u32 PIPE_CMD_CLOSE); [by eapply cmd_close_safe|].
    destruct (command =? u32 PIPE_CMD_POLL); [by eapply cmd_poll_safe|].
    destruct (command =? u32 PIPE_CMD_READ_BUFFER);
      [by eapply (cmd_buffer_safe m true)|].
    destruct (command =? u32 PIPE_CMD_WRITE_BUFFER);
      [by eapply (cmd_buffer_safe m false)|].
    destruct (command =? u32 PIPE_CMD_WAKE_ON_READ); [by eapply cmd_wake_on_safe|].
    destruct (command =? u32 PIPE_CMD_WAKE_ON_WRITE); [by eapply cmd_wake_on_safe|].
    eexists. split; [reflexivity|done].
  - rewrite bool_decide_eq_true_2 by done. rewrite andb_true_r.
    destruct (command =? u32 PIPE_CMD_OPEN); simpl.
    + munfold. by apply cmd_open_safe.
    + by apply set_status_safe.
Qed.

Lemma latch_safe (f : PipeDevice.t → PipeDevice.t) (m : Machine) :
  (∀ d, PipeDevice.cache_pipe (f d) = PipeDevice.cache_pipe d
        ∧ PipeDevice.cache_pipe_64bit (f d) = PipeDevice.cache_pipe_64bit d) →
  slots_live m → slots_live (with_dev f m).
Proof.
  intros Hf. apply slots_live_frame; [done| |]; simpl; apply Hf.
Qed.

Lemma access_params_safe (m : Machine) :
  quiet_host → consistent m → slots_live m →
  ∃ m', access_params m = Ok (tt, m') ∧ slots_live m'.
Proof.
  intros Hq Hcons Hs. rewrite access_params_spec.
  destruct (PipeDevice.params_addr (dev m) =? 0); [eauto|].
  assert (Hs' : slots_live (latch_params m)).
  { unfold latch_params, latch. by apply latch_safe. }
  assert (Hc' : consistent (latch_params m)).
  { unfold latch_params, latch. by apply latch_keeps_consistent. }
  destruct (negb _ && negb _); [eauto|].
  unfold command_then_write_back.
  destruct (doCommand_safe (aps_cmd m) _ Hq Hc' Hs') as (m1 & -> & Hs1).
  eexists. split; [reflexivity|].
  by apply (slots_live_frame m1); [|reflexivity|reflexivity|].
Qed.

Lemma write_safe (offset value : Z) (m : Machine) :
  quiet_host → consistent m → slots_live m →
  ∃ m', pipe_dev_write offset value m = Ok (tt, m') ∧ slots_live m'.
Proof.
  intros Hq Hcons Hs. unfold pipe_dev_write.
  repeat match goal with
  | |- context [if ?b then _ else _] => destruct b
  end;
  first [ by apply doCommand_safe
        | by apply access_params_safe
        | eexists; split; [reflexivity|]; first [ done | by apply latch_safe ] ].
Qed.

Lemma read_channel_safe (m : Machine) :
  consistent m → slots_live m →
  ∃ v m', read_channel m = Ok (v, m') ∧ slots_live m'.
Proof.
  intros [HT (passed & rest & _ & Hpipes & _)] Hs.
  destruct (in_slot m) as [c|] eqn:Hc.
  - rewrite (read_channel_slot _ _ Hc).
    assert (Hlive : is_Some (heap m !! c)).
    { apply Hs. unfold in_slot in Hc.
      destruct (PipeDevice.cache_pipe_64bit (dev m)); [right|left]; congruence. }
    destruct Hlive as [r ->]. eexists _, _. split; [reflexivity|].
    intros c'. msimpl. unfold slots_cleared.
    intros Hc'. apply insert_live, Hs.
    destruct (PipeDevice.cache_pipe_64bit (dev m)) eqn:E64; msimpl in Hc';
      destruct Hc' as [?|?]; first [ done | congruence | by left | by right ].
  - rewrite (read_channel_scanned _ Hc).
    destruct (scan_returns _ _ Hpipes) as (q & Hq). rewrite Hq.
    apply in_slot_None in Hc as [H64 Hcp].
    assert (Hsc : slots_cleared (dev m) = dev m).
    { unfold slots_cleared. rewrite H64. by apply with_cache_pipe_None_id. }
    rewrite Hsc. destruct q as [p|].
    + destruct (scan_found _ _ Hq) as (r & -> & _).
      eexists _, _. split; [reflexivity|].
      apply (slots_live_frame m); [|reflexivity|reflexivity|done].
      intros c. apply insert_live.
    + eexists _, _. split; [reflexivity|].
      by apply (slots_live_frame m); [|reflexivity|reflexivity|].
Qed.

Lemma read_channel_high_safe (m : Machine) :
  consistent m → slots_live m →
  (∃ v m', read_channel_high m = Ok (v, m') ∧ slots_live m')
  ∨ read_channel_high m = Crash AssertFailed.
Proof.
  intros [HT (passed & rest & _ & Hpipes & _)] Hs.
  destruct (in_slot m) as [c|] eqn:Hc.
  - rewrite (read_channel_high_slot _ _ Hc).
    assert (Hlive : is_Some (heap m !! c)).
    { apply Hs. unfold in_slot in Hc.
      destruct (PipeDevice.cache_pipe_64bit (dev m)); [right|left]; congruence. }
    destruct Hlive as [r Hr]. rewrite Hr.
    destruct (hi32 (HwPipe.channel r) =? 0); [by right|left].
    eexists _, _. split; [reflexivity|].
    intros c'. msimpl. unfold slots_cleared.
    destruct (PipeDevice.cache_pipe_64bit (dev m)) eqn:E64; msimpl;
      intros [Hc'|Hc']; first [ apply Hs; by left | injection Hc' as <-; eauto | done ].
  - rewrite (read_channel_high_scanned _ Hc).
    destruct (scan_returns _ _ Hpipes) as (q & Hq). rewrite Hq.
    apply in_slot_None in Hc as [H64 Hcp].
    assert (Hsc : slots_cleared (dev m) = dev m).
    { unfold slots_cleared. rewrite H64. by apply with_cache_pipe_None_id. }
    rewrite Hsc. destruct q as [p|].
    + destruct (scan_found _ _ Hq) as (r & -> & _).
      destruct (hi32 (HwPipe.channel r) =? 0); [by right|left].
      eexists _, _. split; [reflexivity|].
      by apply (slots_live_frame m); [|reflexivity|reflexivity|].
    + left. eexists _, _. split; [reflexivity|].
      by apply (slots_live_frame m); [|reflexivity|reflexivity|].
Qed.

(** X12.  With a host whose services do not call back before they return,
    the device never reads or writes through a dangling pointer and none of
    its loops runs forever.  From a machine that is in shape and whose
    fast-path slots hold live records, every guest access and every host
    callback on a live record returns and leaves such a machine; the one
    exception is a read of [PIPE_REG_CHANNEL_HIGH], which may stop at its
    assertion. *)
Theorem quiet_step_is_safe (s : Step) (m : Machine) :
  quiet_host → consistent m → slots_live m → step_allowed s m →
  (∃ m', step s m = Ok (tt, m') ∧ consistent m' ∧ slots_live m')
  ∨ (s = GuestRead (u64 PIPE_REG_CHANNEL_HIGH) ∧ step s m = Crash AssertFailed).
Proof.
  intros Hq Hcons Hs Hal.
  assert (Hok : ∀ m', step s m = Ok (tt, m') → slots_live m' →
            (∃ m', step s m = Ok (tt, m') ∧ consistent m' ∧ slots_live m')
            ∨ (s = GuestRead (u64 PIPE_REG_CHANNEL_HIGH)
               ∧ step s m = Crash AssertFailed)).
  { intros m' E Hs'. left. exists m'. split; [done|]. split; [|done].
    by eapply step_keeps_consistent. }
  destruct s as [offset value|offset|q fl|q]; simpl in *.
  - destruct (write_safe offset value m Hq Hcons Hs) as (m' & E & Hs'). eauto.
  - rewrite bind_unfold in *. unfold pipe_dev_read in *.
    destruct (offset =? u64 PIPE_REG_STATUS); [by apply (Hok m)|].
    destruct (offset =? u64 PIPE_REG_CHANNEL).
    { destruct (read_channel_safe m Hcons Hs) as (v & m' & E & Hs').
      rewrite E in *. by apply (Hok m'). }
    destruct (Z.eqb_spec offset (u64 PIPE_REG_CHANNEL_HIGH)) as [->|_].
    { destruct (read_channel_high_safe m Hcons Hs) as [(v & m' & E & Hs')|E];
        rewrite E in *; [by apply (Hok m')|by right]. }
    repeat match goal with
    | |- context [if ?b then _ else _] => destruct b
    end; by apply (Hok m).
  - destruct Hal as [r Hr]. apply (Hok (left_by (qemu2_android_pipe_wake (Some q) fl m) m));
      rewrite wake_spec, Hr; [reflexivity|]. simpl.
    intros c. msimpl. intros Hc. destruct (HwPipe.closed r).
    + by apply insert_live, Hs.
    + msimpl in Hc. destruct Hc as [[= <-]|Hc];
        [rewrite lookup_insert_eq; eauto|apply insert_live, Hs; by right].
  - destruct Hal as [r Hr]. apply (Hok (left_by (qemu2_android_pipe_close (Some q) m) m));
      rewrite close_spec, Hr; destruct (HwPipe.closed r); try reflexivity; try done.
    simpl. apply (slots_live_frame m); [|reflexivity|reflexivity|done].
    intros c. apply insert_live.
Qed.

(** *** Moving along a relation *)

Section StepsBy.
Variable R : Machine → Machine → Prop.
Hypothesis R_refl : ∀ m, R m m.
Hypothesis R_trans : ∀ m1 m2 m3, R m1 m2 → R m2 m3 → R m1 m3.

Lemma by_ret {A : Type} (a : A) : steps_by R (mret a).
Proof. intros m a' m' [_ <-]%Ok_inv. apply R_refl. Qed.

Lemma by_raise {A : Type} (c : crash) : steps_by R (raise (A:=A) c).
Proof. intros m a' m' [=]. Qed.

Lemma by_bind {A B : Type} (x : M A) (k : A → M B) :
  steps_by R x → (∀ a, steps_by R (k a)) → steps_by R (x ≫= k).
Proof.
  intros Hx Hk m b m2 (a & m1 & E1 & E2)%bind_Ok_inv.
  eapply R_trans; [by eapply Hx|by eapply Hk].
Qed.

Lemma by_get_dev : steps_by R get_dev.
Proof. intros m a' m' [_ <-]%Ok_inv. apply R_refl. Qed.

Lemma by_get_world : steps_by R get_world.
Proof. intros m a' m' [_ <-]%Ok_inv. apply R_refl. Qed.

Lemma by_load (p : option ptr) : steps_by R (load p).
Proof.
  intros m a' m'. unfold load. destruct p as [a|]; [|done].
  destruct (heap m !! a); [|done]. intros [_ <-]%Ok_inv. apply R_refl.
Qed.

Lemma by_set_dev (g : PipeDevice.t → PipeDevice.t) :
  (∀ m, R m (with_dev g m)) → steps_by R (set_dev g).
Proof. intros H m a' m' [_ <-]%Ok_inv. apply H. Qed.

Lemma by_set_world (w : World) :
  (∀ m, R m (with_world w m)) → steps_by R (set_world w).
Proof. intros H m a' m' [_ <-]%Ok_inv. apply H. Qed.

Lemma by_qemu_set_irq (l : Z) :
  (∀ m, R m (with_irq (l :: irq m) m)) → steps_by R (qemu_set_irq l).
Proof. intros H m a' m' [_ <-]%Ok_inv. apply (H m). Qed.

Lemma by_store (p : option ptr) (g : HwPipe.t → HwPipe.t) :
  (∀ m a r, heap m !! a = Some r → R m (with_heap (<[a := g r]> (heap m)) m)) →
  steps_by R (store p g).
Proof.
  intros H m a' m'. unfold store. destruct p as [a|]; [|done].
  destruct (heap m !! a) as [r|] eqn:Hr; [|done]. intros [_ <-]%Ok_inv.
  by apply (H m).
Qed.

Lemma by_g_malloc0 :
  (∀ m, R m (with_heap (<[fresh (dom (heap m)) := HwPipe.zero]> (heap m)) m)) →
  steps_by R g_malloc0.
Proof. intros H m a' m' [_ <-]%Ok_inv. apply (H m). Qed.

Lemma by_g_free (p : option ptr) :
  (∀ m a, is_Some (heap m !! a) → R m (with_heap (delete a (heap m)) m)) →
  steps_by R (g_free p).
Proof.
  intros H m a' m'. unfold g_free.
  destruct p as [a|]; [|intros [_ <-]%Ok_inv; apply R_refl].
  destruct (heap m !! a) eqn:Hr; [|done]. intros [_ <-]%Ok_inv. apply (H m). eauto.
Qed.

Lemma by_bounded {A : Type} (loop : nat → M A) :
  (∀ fuel, steps_by R (loop fuel)) → steps_by R (bounded loop).
Proof. intros H m a m'. apply H. Qed.

Lemma by_skip_unwanted (fuel : nat) (p : option ptr) : steps_by R (skip_unwanted fuel p).
Proof. intros m a m' ->%skip_unwanted_pure. apply R_refl. Qed.

Lemma by_read_pnode (pn : pnode) : steps_by R (read_pnode pn).
Proof. intros m a m' ->%read_pnode_pure. apply R_refl. Qed.

Lemma by_find_pnode (fuel : nat) (pn : pnode) (pipe : option ptr) :
  steps_by R (find_pnode fuel pn pipe).
Proof.
  revert pn. induction fuel as [|fuel IH]; intros pn; simpl;
    (apply by_bind; [apply by_read_pnode|]); intros [c|];
    try apply by_ret; destruct (decide _); try apply by_ret;
    [apply by_raise|apply IH].
Qed.

End StepsBy.

Ltac by_step :=
  match goal with
  | |- steps_by _ (mret _) => apply by_ret
  | |- steps_by _ (raise _) => apply by_raise
  | |- steps_by _ (_ ≫= _) => apply by_bind; [assumption| |intros ?]
  | |- steps_by _ get_dev => apply by_get_dev
  | |- steps_by _ get_world => apply by_get_world
  | |- steps_by _ (load _) => apply by_load
  | |- steps_by _ (bounded _) => apply by_bounded; intros ?
  | |- steps_by _ (skip_unwanted _ _) => apply by_skip_unwanted
  | |- steps_by _ (find_pnode _ _ _) => apply by_find_pnode
  | |- steps_by _ (read_pnode _) => apply by_read_pnode
  | |- steps_by _ (if ?b then _ else _) => destruct b
  | |- steps_by _ (match ?o with Some _ => _ | None => _ end) => destruct o
  | |- steps_by _ (let '(_, _) := ?p in _) => destruct p
  | |- steps_by _ (match ?o with pnode_pipes => _ | pnode_next _ => _ end) => destruct o
  | H : context [steps_by] |- steps_by _ _ => solve [apply H]
  | |- ∀ _, _ => assumption
  end.

(** *** Records settle *)

Lemma settled_refl (r : HwPipe.t) : settled r r.
Proof. by repeat split. Qed.

Lemma settled_trans (r1 r2 r3 : HwPipe.t) : settled r1 r2 → settled r2 r3 → settled r1 r3.
Proof.
  intros (? & ? & ?) (? & ? & ?). repeat split; [congruence|congruence|auto].
Qed.

Lemma records_kept_refl (m : Machine) : records_kept m m.
Proof. intros q r Hr. exists r. split; [done|apply settled_refl]. Qed.

Lemma records_kept_trans (m1 m2 m3 : Machine) :
  records_kept m1 m2 → records_kept m2 m3 → records_kept m1 m3.
Proof.
  intros H12 H23 q r Hr. destruct (H12 _ _ Hr) as (r2 & Hr2 & Hs2).
  destruct (H23 _ _ Hr2) as (r3 & Hr3 & Hs3). exists r3.
  split; [done|by eapply settled_trans].
Qed.

Lemma records_kept_heap (m m' : Machine) : heap m' = heap m → records_kept m m'.
Proof. intros E q r Hr. exists r. rewrite E. split; [done|apply settled_refl]. Qed.

Lemma records_kept_insert (m : Machine) (a : ptr) (r r2 : HwPipe.t) :
  heap m !! a = Some r → settled r r2 →
  records_kept m (with_heap (<[a := r2]> (heap m)) m).
Proof.
  intros Hr Hs q rq Hq. simpl. destruct (decide (q = a)) as [->|Hne].
  - rewrite lookup_insert_eq. exists r2. split; [done|]. congruence.
  - rewrite lookup_insert_ne by done. exists rq. split; [done|apply settled_refl].
Qed.

Lemma records_kept_fresh (m : Machine) (a : ptr) (r2 : HwPipe.t) :
  heap m !! a = None → records_kept m (with_heap (<[a := r2]> (heap m)) m).
Proof.
  intros Hr q rq Hq. simpl. rewrite lookup_insert_ne by congruence.
  exists rq. split; [done|apply settled_refl].
Qed.

(** One step of a proof that a computation keeps the records: the stores
    of the device write [next], [wanted] and [closed := 1] only. *)
Ltac kept_step :=
  first
    [ by_step
    | match goal with
      | |- ∀ m1 m2 m3, records_kept m1 m2 → _ => exact records_kept_trans
      | |- ∀ m, records_kept m m => exact records_kept_refl
      | |- steps_by records_kept (set_dev _) =>
          apply by_set_dev; intros ?; by apply records_kept_heap
      | |- steps_by records_kept (set_world _) =>
          apply by_set_world; intros ?; by apply records_kept_heap
      | |- steps_by records_kept (qemu_set_irq _) =>
          apply by_qemu_set_irq; intros ?; by apply records_kept_heap
      | |- steps_by records_kept (store _ _) =>
          apply by_store; intros ? ? ? ?;
          eapply records_kept_insert; [eassumption|by repeat split]
      end ].

Lemma wake_keeps_records (p : option ptr) (flags : Z) :
  steps_by records_kept (qemu2_android_pipe_wake p flags).
Proof.
  pose proof records_kept_trans as Ht. pose proof records_kept_refl as Hr.
  unfold qemu2_android_pipe_wake, set_pipe_wanted_bits, set_cache_pipe.
  repeat kept_step.
Qed.

Lemma host_close_keeps_records (p : option ptr) :
  steps_by records_kept (qemu2_android_pipe_close p).
Proof.
  pose proof records_kept_trans as Ht. pose proof records_kept_refl as Hr.
  pose proof wake_keeps_records.
  unfold qemu2_android_pipe_close. repeat kept_step.
Qed.

Lemma upcalls_keep_records (us : list Upcall) : steps_by records_kept (run_upcalls us).
Proof.
  pose proof records_kept_trans as Ht. pose proof records_kept_refl as Hr.
  pose proof wake_keeps_records. pose proof host_close_keeps_records.
  induction us as [|[q fl|q] us IH]; simpl; unfold run_upcall; repeat kept_step.
Qed.

Lemma call_keeps_records {A : Type} (f : World → Reply World A) :
  steps_by records_kept (call f).
Proof.
  pose proof records_kept_trans as Ht. pose proof records_kept_refl as Hr.
  pose proof upcalls_keep_records. unfold call. repeat kept_step.
Qed.

Lemma map_guest_buffer_keeps_records (phys size is_write : Z) :
  steps_by records_kept (map_guest_buffer phys size is_write).
Proof.
  pose proof records_kept_trans as Ht. pose proof records_kept_refl as Hr.
  unfold map_guest_buffer. repeat kept_step.
Qed.

Lemma plain_commands_keep_records (pipe : option ptr) :
  steps_by records_kept (cmd_poll pipe)
  ∧ steps_by records_kept (cmd_read_buffer pipe)
  ∧ steps_by records_kept (cmd_write_buffer pipe)
  ∧ ∀ flag, steps_by records_kept (cmd_wake_on flag pipe).
Proof.
  pose proof records_kept_trans as Ht. pose proof records_kept_refl as Hr.
  pose proof (@call_keeps_records Z). pose proof (@call_keeps_records unit).
  pose proof map_guest_buffer_keeps_records.
  unfold cmd_poll, cmd_read_buffer, cmd_write_buffer, cmd_wake_on, set_status.
  split; [|split; [|split; [|intros flag]]]; repeat kept_step.
Qed.

(** [pipe_new] writes [channel] and [pipe] of the record it has just
    allocated, and of no other. *)
Lemma pipe_new_keeps_records (channel : Z) : steps_by records_kept (pipe_new channel).
Proof.
  intros m a m'.
  pose proof (fresh_None (heap m)) as Hfresh.
  unfold pipe_new, pipe_new0, g_malloc0, store. munfold. msimpl.
  rewrite lookup_insert_eq. msimpl. rewrite insert_insert_eq.
  match goal with |- context [call ?f ?m0] =>
    destruct (call f m0) as [[h m1]|c] eqn:E; [|done];
    apply call_keeps_records in E
  end.
  destruct (heap m1 !! fresh (dom (heap m))) as [r1|] eqn:Hr1; [|done].
  intros [_ <-]%Ok_inv q r Hq. msimpl.
  assert (Hne : q ≠ fresh (dom (heap m))) by congruence.
  rewrite lookup_insert_ne by done.
  apply (E q r). msimpl. by rewrite lookup_insert_ne.
Qed.

Lemma cmd_open_keeps_records (pipe : option ptr) : steps_by records_kept (cmd_open pipe).
Proof.
  pose proof records_kept_trans as Ht. pose proof records_kept_refl as Hr.
  pose proof pipe_new_keeps_records.
  unfold cmd_open, set_status. repeat kept_step.
Qed.

Lemma reads_keep_records (offset : Z) : steps_by records_kept (pipe_dev_read offset).
Proof.
  pose proof records_kept_trans as Ht. pose proof records_kept_refl as Hr.
  unfold pipe_dev_read, read_channel, read_channel_high, get_and_clear_cache_pipe,
    get_and_clear_pipe_wanted, assert.
  repeat kept_step.
Qed.

Lemma kept_weaken {A : Type} (p : ptr) (x : M A) :
  steps_by records_kept x → steps_by (kept_or_freed p) x.
Proof. intros H m a m' E q r Hr. left. by eapply H. Qed.

Lemma kept_then_freed {A B : Type} (p : ptr) (x : M A) (k : A → M B) :
  steps_by records_kept x → (∀ a, steps_by (kept_or_freed p) (k a)) →
  steps_by (kept_or_freed p) (x ≫= k).
Proof.
  intros Hx Hk m b m2 (a & m1 & E1 & E2)%bind_Ok_inv q r Hr.
  destruct (Hx _ _ _ E1 _ _ Hr) as (r1 & Hr1 & Hs1).
  destruct (Hk _ _ _ _ E2 _ _ Hr1) as [(r2 & Hr2 & Hs2)|[-> Hn]].
  - left. exists r2. split; [done|by eapply settled_trans].
  - by right.
Qed.

Lemma g_free_kept_or_freed (p : ptr) : steps_by (kept_or_freed p) (g_free (Some p)).
Proof.
  intros m a m'. unfold g_free. destruct (heap m !! p); [|done].
  intros [_ <-]%Ok_inv q r Hr. msimpl. destruct (decide (q = p)) as [->|Hne].
  - right. split; [done|apply lookup_delete_eq].
  - left. exists r. rewrite lookup_delete_ne by done. split; [done|apply settled_refl].
Qed.

(** [PIPE_CMD_CLOSE] frees the record it is given and no other. *)
Lemma cmd_close_kept_or_freed (p : ptr) : steps_by (kept_or_freed p) (cmd_close (Some p)).
Proof.
  pose proof records_kept_trans as Ht. pose proof records_kept_refl as Hr.
  pose proof (@call_keeps_records unit).
  unfold cmd_close.
  apply kept_then_freed; [repeat kept_step|intros pn].
  apply kept_then_freed; [repeat kept_step|intros [c|]];
    [|apply kept_weaken; unfold set_status; repeat kept_step].
  apply kept_then_freed; [repeat kept_step|intros r].
  apply kept_then_freed; [unfold write_pnode; repeat kept_step|intros _].
  apply kept_then_freed; [repeat kept_step|intros _].
  apply kept_then_freed; [repeat kept_step|intros d].
  apply kept_then_freed; [repeat kept_step|intros _].
  apply kept_then_freed; [repeat kept_step|intros r2].
  apply kept_then_freed; [repeat kept_step|intros _].
  apply kept_then_freed; [unfold clear_cache_pipe_if_equal; repeat kept_step|intros _].
  unfold pipe_free.
  apply kept_then_freed; [repeat kept_step|intros r3].
  apply kept_then_freed; [repeat kept_step|intros _].
  apply g_free_kept_or_freed.
Qed.

Lemma doCommand_records (command : Z) (m m' : Machine) :
  pipeDevice_doCommand command m = Ok (tt, m') →
  records_kept m m'
  ∨ (command = u32 PIPE_CMD_CLOSE ∧ ∃ p, latched_pipe m = Some p ∧ kept_or_freed p m m').
Proof.
  pose proof records_kept_trans as Ht. pose proof records_kept_refl as Hr.
  destruct (plain_commands_keep_records (latched_pipe m)) as (H1 & H2 & H3 & H4).
  pose proof (cmd_open_keeps_records (latched_pipe m)) as Ho.
  assert (Hst : ∀ v, steps_by records_kept (set_status v))
    by (intros v; unfold set_status; repeat kept_step).
  unfold pipeDevice_doCommand. rewrite bind_unfold. unfold get_dev at 1.
  fold (latched_pipe m). destruct (latched_pipe m) as [p|] eqn:Hl.
  - rewrite bool_decide_eq_false_2 by done. rewrite andb_false_r.
    unfold load. munfold. destruct (heap m !! p) as [r|]; [|done].
    destruct (HwPipe.closed r && negb (command =? u32 PIPE_CMD_CLOSE)).
    { intros E. left. by eapply Hst. }
    destruct (command =? u32 PIPE_CMD_OPEN); [intros E; left; by eapply Ho|].
    destruct (Z.eqb_spec command (u32 PIPE_CMD_CLOSE)) as [->|_].
    { intros E. right. split; [done|]. exists p. split; [done|].
      by eapply cmd_close_kept_or_freed. }
    destruct (command =? u32 PIPE_CMD_POLL); [intros E; left; by eapply H1|].
    destruct (command =? u32 PIPE_CMD_READ_BUFFER); [intros E; left; by eapply H2|].
    destruct (command =? u32 PIPE_CMD_WRITE_BUFFER); [intros E; left; by eapply H3|].
    destruct (command =? u32 PIPE_CMD_WAKE_ON_READ); [intros E; left; by eapply H4|].
    destruct (command =? u32 PIPE_CMD_WAKE_ON_WRITE); [intros E; left; by eapply H4|].
    intros [_ <-]%Ok_inv. left. apply Hr.
  - rewrite bool_decide_eq_true_2 by done. rewrite andb_true_r.
    destruct (command =? u32 PIPE_CMD_OPEN); simpl.
    + munfold. intros E. left. by eapply Ho.
    + intros E. left. by eapply Hst.
Qed.

Lemma access_params_keeps_records (m m' : Machine) :
  header_ok = true → access_params m = Ok (tt, m') → records_kept m m'.
Proof.
  intros Hok. rewrite access_params_spec.
  destruct (PipeDevice.params_addr (dev m) =? 0);
    [intros [_ <-]%Ok_inv; apply records_kept_refl|].
  destruct (negb (aps_cmd m =? u32 PIPE_CMD_READ_BUFFER)
            && negb (aps_cmd m =? u32 PIPE_CMD_WRITE_BUFFER)) eqn:Ec.
  { intros [_ <-]%Ok_inv. by apply records_kept_heap. }
  unfold command_then_write_back.
  destruct (pipeDevice_doCommand _ _) as [[[] m1]|c] eqn:E; [|done].
  intros [_ <-]%Ok_inv.
  apply (records_kept_trans _ m1); [|by apply records_kept_heap].
  apply (records_kept_trans _ (latch_params m)); [by apply records_kept_heap|].
  destruct (doCommand_records _ _ _ E) as [Hk|[Hc _]]; [done|]. exfalso.
  rewrite Hc in Ec.
  rewrite (command_neq 1 3 _ _ Hok eq_refl eq_refl) in Ec by lia.
  rewrite (command_neq 1 4 _ _ Hok eq_refl eq_refl) in Ec by lia.
  discriminate.
Qed.

(** X13.  What no step changes in a record.  Through any guest access and
    any host callback that returns, a record keeps its channel id and its
    service handle, and stays closed once it is closed.  A record is freed
    only by a [PIPE_CMD_CLOSE] written to [PIPE_REG_COMMAND] while the
    channel register designates it; a packed-parameter command never frees a
    record. *)
Theorem records_settle (s : Step) (m m' : Machine) (q : ptr) (r : HwPipe.t) :
  header_ok = true →
  step s m = Ok (tt, m') → heap m !! q = Some r →
  (∃ r', heap m' !! q = Some r' ∧ settled r r')
  ∨ (heap m' !! q = None ∧ latched_pipe m = Some q
     ∧ ∃ v, s = GuestWrite (u64 PIPE_REG_COMMAND) v ∧ u32 v = u32 PIPE_CMD_CLOSE).
Proof.
  intros Hok E Hq.
  assert (Hkept : records_kept m m' →
            (∃ r', heap m' !! q = Some r' ∧ settled r r')
            ∨ (heap m' !! q = None ∧ latched_pipe m = Some q
               ∧ ∃ v, s = GuestWrite (u64 PIPE_REG_COMMAND) v
                      ∧ u32 v = u32 PIPE_CMD_CLOSE)).
  { intros Hk. left. by apply Hk. }
  destruct s as [offset value|offset|p fl|p]; simpl in E.
  - revert E. unfold pipe_dev_write.
    destruct (Z.eqb_spec offset (u64 PIPE_REG_COMMAND)) as [->|_].
    { intros E. destruct (doCommand_records _ _ _ E) as [Hk|(Hc & p & Hl & Hk)];
        [by apply Hkept|].
      destruct (Hk _ _ Hq) as [?|[-> Hn]]; [by left|right].
      split; [done|]. split; [done|]. by exists value. }
    repeat match goal with
    | |- context [if ?b then _ else _] => destruct b
    end;
    first [ intros E; apply Hkept; by eapply access_params_keeps_records
          | munfold; intros [_ <-]%Ok_inv; apply Hkept; by apply records_kept_heap ].
  - apply Hkept. revert E. rewrite bind_unfold.
    destruct (pipe_dev_read offset m) as [[v m1]|c] eqn:E1; [|done].
    intros [_ <-]%Ok_inv. by eapply reads_keep_records.
  - apply Hkept. by eapply wake_keeps_records.
  - apply Hkept. by eapply host_close_keeps_records.
Qed.

(** *** The interrupt line *)

Lemma irq_raised_refl (m : Machine) : irq_raised m m.
Proof. by exists 0%nat. Qed.

Lemma irq_raised_trans (m1 m2 m3 : Machine) :
  irq_raised m1 m2 → irq_raised m2 m3 → irq_raised m1 m3.
Proof.
  intros [k1 E1] [k2 E2]. exists (k2 + k1)%nat.
  by rewrite E2, E1, replicate_add, app_assoc.
Qed.

Lemma irq_raised_same (m m' : Machine) : irq m' = irq m → irq_raised m m'.
Proof. intros E. by exists 0%nat. Qed.

Ltac raised_step :=
  first
    [ by_step
    | match goal with
      | |- ∀ m1 m2 m3, irq_raised m1 m2 → _ => exact irq_raised_trans
      | |- ∀ m, irq_raised m m => exact irq_raised_refl
      | |- steps_by irq_raised (set_dev _) =>
          apply by_set_dev; intros ?; by apply irq_raised_same
      | |- steps_by irq_raised (set_world _) =>
          apply by_set_world; intros ?; by apply irq_raised_same
      | |- steps_by irq_raised (qemu_set_irq 1) =>
          apply by_qemu_set_irq; intros ?; by exists 1%nat
      | |- steps_by irq_raised (store _ _) =>
          apply by_store; intros ? ? ? ?; by apply irq_raised_same
      | |- steps_by irq_raised g_malloc0 =>
          apply by_g_malloc0; intros ?; by apply irq_raised_same
      | |- steps_by irq_raised (g_free _) =>
          apply by_g_free; [exact irq_raised_refl|intros ? ? ?; by apply irq_raised_same]
      end ].

Lemma wake_raises (p : option ptr) (flags : Z) :
  steps_by irq_raised (qemu2_android_pipe_wake p flags).
Proof.
  pose proof irq_raised_trans as Ht. pose proof irq_raised_refl as Hr.
  unfold qemu2_android_pipe_wake, set_pipe_wanted_bits, set_cache_pipe.
  repeat raised_step.
Qed.

Lemma host_close_raises (p : option ptr) :
  steps_by irq_raised (qemu2_android_pipe_close p).
Proof.
  pose proof irq_raised_trans as Ht. pose proof irq_raised_refl as Hr.
  pose proof wake_raises. unfold qemu2_android_pipe_close. repeat raised_step.
Qed.

Lemma upcalls_raise (us : list Upcall) : steps_by irq_raised (run_upcalls us).
Proof.
  pose proof irq_raised_trans as Ht. pose proof irq_raised_refl as Hr.
  pose proof wake_raises. pose proof host_close_raises.
  induction us as [|[q fl|q] us IH]; simpl; unfold run_upcall; repeat raised_step.
Qed.

Lemma call_raises {A : Type} (f : World → Reply World A) : steps_by irq_raised (call f).
Proof.
  pose proof irq_raised_trans as Ht. pose proof irq_raised_refl as Hr.
  pose proof upcalls_raise. unfold call. repeat raised_step.
Qed.

Lemma doCommand_raises (command : Z) : steps_by irq_raised (pipeDevice_doCommand command).
Proof.
  pose proof irq_raised_trans as Ht. pose proof irq_raised_refl as Hr.
  pose proof (@call_raises Z). pose proof (@call_raises unit).
  unfold pipeDevice_doCommand, cmd_open, cmd_close, cmd_poll, cmd_read_buffer,
    cmd_write_buffer, cmd_wake_on, set_status, pipe_new, pipe_new0, pipe_free,
    clear_cache_pipe_if_equal, write_pnode, map_guest_buffer.
  repeat raised_step.
Qed.

Lemma quiet_call_keeps_irq {A : Type} (f : World → Reply World A) :
  (∀ w, upcalls (f w) = []) → keeps irq_of (call f).
Proof.
  intros Hq m a m'. rewrite call_quiet by apply Hq. by intros [_ <-]%Ok_inv.
Qed.

Lemma find_pnode_keeps_irq (fuel : nat) (pn : pnode) (pipe : option ptr) :
  keeps irq_of (find_pnode fuel pn pipe).
Proof.
  revert pn. induction fuel as [|fuel IH]; intros pn; simpl;
    unfold read_pnode; destruct pn; repeat keeps_step.
Qed.

Lemma quiet_doCommand_keeps_irq (command : Z) :
  quiet_host → keeps irq_of (pipeDevice_doCommand command).
Proof.
  intros (Hnew & Hfree & Hpoll & Hrecv & Hsend & Hwake).
  assert (H1 : ∀ p, keeps irq_of (call (λ w, android_pipe_new w p)))
    by (intros; by apply quiet_call_keeps_irq).
  assert (H2 : ∀ h, keeps irq_of (call (λ w, android_pipe_free w h)))
    by (intros; by apply quiet_call_keeps_irq).
  assert (H3 : ∀ h, keeps irq_of (call (λ w, android_pipe_poll w h)))
    by (intros; by apply quiet_call_keeps_irq).
  assert (H4 : ∀ h b n, keeps irq_of (call (λ w, android_pipe_recv w h b n)))
    by (intros; by apply quiet_call_keeps_irq).
  assert (H5 : ∀ h b n, keeps irq_of (call (λ w, android_pipe_send w h b n)))
    by (intros; by apply quiet_call_keeps_irq).
  assert (H6 : ∀ h f, keeps irq_of (call (λ w, android_pipe_wake_on w h f)))
    by (intros; by apply quiet_call_keeps_irq).
  clear Hnew Hfree Hpoll Hrecv Hsend Hwake.
  pose proof find_pnode_keeps_irq as Hf.
  unfold pipeDevice_doCommand, cmd_open, cmd_close, cmd_poll, cmd_read_buffer,
    cmd_write_buffer, cmd_wake_on, set_status, pipe_new, pipe_new0, pipe_free,
    clear_cache_pipe_if_equal, write_pnode, read_pnode, map_guest_buffer.
  repeat keeps_step.
Qed.

(** X14.  No register write lowers the interrupt line.  Whatever a write
    does, the callbacks that services make during it included, the only
    calls to [qemu_set_irq] are with level 1; with services that do not
    call back there is none.  (The line is lowered by reads of
    [PIPE_REG_CHANNEL] and [PIPE_REG_CHANNEL_HIGH] only.) *)
Theorem writes_never_lower_irq (offset value : Z) (m m' : Machine) :
  pipe_dev_write offset value m = Ok (tt, m') →
  (∃ k, irq m' = replicate k 1 ++ irq m)
  ∧ (quiet_host → irq m' = irq m).
Proof.
  intros E. split.
  - revert E. pose proof irq_raised_trans as Ht. pose proof irq_raised_refl as Hr.
    pose proof doCommand_raises.
    assert (Hw : steps_by irq_raised (pipe_dev_write offset value)).
    { unfold pipe_dev_write, access_params. repeat raised_step. }
    apply Hw.
  - intros Hq. revert E.
    assert (Hd : ∀ c, keeps irq_of (pipeDevice_doCommand c))
      by (intros c; by apply quiet_doCommand_keeps_irq).
    assert (Hw : keeps irq_of (pipe_dev_write offset value)).
    { unfold pipe_dev_write, access_params. repeat keeps_step. }
    apply Hw.
Qed.

(** *** A service that wakes its channel while it is torn down *)

(** X15.  The note in [pipe_free] says that [android_pipe_free] calls
    [qemu2_android_pipe_wake].  When it does so on the record that is being
    closed (and the host has not closed it), [PIPE_CMD_CLOSE] clears the
    slots first and frees the record last, so the wake in between puts the
    record back into [cache_pipe]: after the command the slot holds a freed
    record and the interrupt is raised.  The read of [PIPE_REG_CHANNEL]
    that answers the interrupt then reads through the freed record, unless
    a 64-bit read of another channel is pending. *)
Theorem close_with_wake_leaves_dangling_slot
    (m : Machine) (p : ptr) (r : HwPipe.t) (l : list ptr) (flags : Z) :
  header_ok = true →
  latched_pipe m = Some p → heap m !! p = Some r → HwPipe.closed r = false →
  chain (heap m) (PipeDevice.pipes (dev m)) l → p ∈ l →
  upcalls (android_pipe_free (world m) (HwPipe.pipe r)) = [signalWake p flags] →
  ∃ m', pipeDevice_doCommand (u32 PIPE_CMD_CLOSE) m = Ok (tt, m')
        ∧ heap m' !! p = None
        ∧ PipeDevice.cache_pipe (dev m') = Some p
        ∧ irq m' = 1 :: irq m
        ∧ ¬ slots_live m'
        ∧ (PipeDevice.cache_pipe_64bit (dev m) = None
           ∨ PipeDevice.cache_pipe_64bit (dev m) = Some p →
           pipe_dev_read (u64 PIPE_REG_CHANNEL) m' = Crash BadPointer).
Proof.
  intros Hok Hl Hr Hcl Hc Hin Hup.
  rewrite (doCommand_close _ _ _ Hok Hl Hr).
  apply list_elem_of_split in Hin as (l1 & l2 & ->).
  destruct (cmd_close_unlink _ _ _ _ _ Hc Hr)
    as (m0 & -> & Hr0 & _ & _ & Hdev0 & Hw0 & Hi0 & _).
  assert (H64 : PipeDevice.cache_pipe_64bit (dev m0) = PipeDevice.cache_pipe_64bit (dev m))
    by (by rewrite Hdev0).
  rewrite <- H64, <- Hi0. clear Hdev0 H64 Hi0.
  unfold clear_cache_pipe_if_equal, pipe_free, load, g_free, call. munfold. msimpl.
  assert (Hrun : ∀ d, run_upcalls
            (upcalls (android_pipe_free (world m0)
                        (HwPipe.pipe (HwPipe.with_next None r))))
            (mkMachine _ (heap m0) d (irq m0)
               (after (android_pipe_free (world m0)
                         (HwPipe.pipe (HwPipe.with_next None r)))))
          = Ok (tt, mkMachine _
                      (<[p := HwPipe.with_wanted
                                (u8 (Z.lor (HwPipe.wanted r) (u8 flags)))
                                (HwPipe.with_next None r)]> (heap m0))
                      (PipeDevice.with_cache_pipe (Some p) d) (1 :: irq m0)
                      (after (android_pipe_free (world m0)
                                (HwPipe.pipe (HwPipe.with_next None r)))))).
  { intros d. rewrite Hw0. msimpl. rewrite Hup. simpl. rewrite bind_unfold, wake_spec.
    msimpl. rewrite Hr0. msimpl. rewrite Hcl. reflexivity. }
  destruct (decide (PipeDevice.cache_pipe (dev m0) = Some p)) as [E1|E1]; msimpl;
    destruct (decide (PipeDevice.cache_pipe_64bit (dev m0) = Some p)) as [E2|E2];
    msimpl; rewrite Hr0; rewrite Hrun; msimpl; rewrite lookup_insert_eq;
    (eexists; split; [reflexivity|]); msimpl;
    (split; [apply lookup_delete_eq|]); (split; [reflexivity|]);
    (split; [reflexivity|]);
    (split;
     [intros Hs; destruct (Hs p ltac:(left; reflexivity)) as [x Hx];
      msimpl in Hx; by rewrite lookup_delete_eq in Hx|]);
    intros H64; rewrite (read_reg_channel Hok);
    match goal with |- read_channel ?m1 = _ =>
      assert (Hs : in_slot m1 = Some p);
      [unfold in_slot; msimpl; destruct H64 as [H64|H64]; try congruence;
       try (rewrite H64; reflexivity)
      |rewrite (read_channel_slot m1 p Hs); msimpl; by rewrite lookup_delete_eq]
    end.
Qed.

(** *** Opening and closing *)

Lemma cmd_open_quiet (m : Machine) :
  let p := fresh (dom (heap m)) in
  let rp := android_pipe_new (world m) p in
  upcalls rp = [] →
  cmd_open None m
  = Ok (tt, mkMachine _
              (<[p := HwPipe.mk (PipeDevice.pipes (dev m)) (PipeDevice.channel (dev m))
                        0 false (ret rp)]> (heap m))
              (PipeDevice.with_pipes_by_channel
                 (<[PipeDevice.channel (dev m) := p]> (PipeDevice.pipes_by_channel (dev m)))
                 (PipeDevice.with_status (u32 0)
                    (PipeDevice.with_save_pipes (Some p)
                       (PipeDevice.with_pipes (Some p) (dev m)))))
              (irq m) (after rp)).
Proof.
  intros p rp Hq.
  unfold cmd_open, pipe_new, pipe_new0, g_malloc0, set_status, store, load.
  munfold. fold p. msimpl. rewrite lookup_insert_eq. msimpl. rewrite insert_insert_eq.
  rewrite call_quiet by exact Hq. unfold with_world. msimpl.
  rewrite lookup_insert_eq. msimpl. rewrite insert_insert_eq.
  rewrite lookup_insert_eq. msimpl. rewrite insert_insert_eq.
  reflexivity.
Qed.

Lemma find_pnode_head (m : Machine) (p : ptr) :
  PipeDevice.pipes (dev m) = Some p →
  bounded (λ fuel, find_pnode fuel pnode_pipes (Some p)) m = Ok (pnode_pipes, m).
Proof.
  intros Hp. unfold bounded. simpl. rewrite bind_unfold. unfold read_pnode. munfold.
  rewrite Hp. by rewrite decide_True.
Qed.

(** X16.  Opening a channel and closing it again.  With services that do
    not call back, a [PIPE_CMD_OPEN] of an id that is not in the table
    followed by a [PIPE_CMD_CLOSE] of the same id leaves the heap, the table
    and the traversal position as they were before the two commands, and
    the interrupt untouched.  Two things are not restored: [status] is 0,
    and [save_pipes] is the traversal position, so the records a traversal
    in progress had gone by are no longer on the saved list. *)
Theorem open_then_close (m : Machine) :
  header_ok = true → quiet_host → latched_pipe m = None →
  ∃ m1 m2,
    pipeDevice_doCommand (u32 PIPE_CMD_OPEN) m = Ok (tt, m1)
    ∧ latched_pipe m1 = Some (fresh (dom (heap m)))
    ∧ PipeDevice.status (dev m1) = 0
    ∧ pipeDevice_doCommand (u32 PIPE_CMD_CLOSE) m1 = Ok (tt, m2)
    ∧ heap m2 = heap m
    ∧ PipeDevice.pipes_by_channel (dev m2) = PipeDevice.pipes_by_channel (dev m)
    ∧ PipeDevice.pipes (dev m2) = PipeDevice.pipes (dev m)
    ∧ PipeDevice.save_pipes (dev m2) = PipeDevice.pipes (dev m)
    ∧ PipeDevice.status (dev m2) = 0
    ∧ irq m2 = irq m
    ∧ (slots_live m →
       PipeDevice.cache_pipe (dev m2) = PipeDevice.cache_pipe (dev m)
       ∧ PipeDevice.cache_pipe_64bit (dev m2) = PipeDevice.cache_pipe_64bit (dev m)).
Proof.
  intros Hok Hq Hl. pose proof Hq as (Hnew & _).
  pose proof (fresh_None (heap m)) as Hfresh.
  set (p := fresh (dom (heap m))) in *.
  rewrite (doCommand_open_fresh _ Hl), (cmd_open_quiet m (Hnew _ _)). fold p.
  match goal with |- ∃ _ _, Ok (tt, ?x) = _ ∧ _ => set (m1 := x) end.
  assert (Hl1 : latched_pipe m1 = Some p)
    by (unfold latched_pipe, m1; msimpl; apply lookup_insert_eq).
  assert (Hr1 : heap m1 !! p
                = Some (HwPipe.mk (PipeDevice.pipes (dev m)) (PipeDevice.channel (dev m))
                          0 false (ret (android_pipe_new (world m) p))))
    by (unfold m1; msimpl; apply lookup_insert_eq).
  assert (Hclose : ∃ m2,
    pipeDevice_doCommand (u32 PIPE_CMD_CLOSE) m1 = Ok (tt, m2)
    ∧ heap m2 = heap m
    ∧ PipeDevice.pipes_by_channel (dev m2) = PipeDevice.pipes_by_channel (dev m)
    ∧ PipeDevice.pipes (dev m2) = PipeDevice.pipes (dev m)
    ∧ PipeDevice.save_pipes (dev m2) = PipeDevice.pipes (dev m)
    ∧ PipeDevice.status (dev m2) = 0
    ∧ irq m2 = irq m
    ∧ (slots_live m →
       PipeDevice.cache_pipe (dev m2) = PipeDevice.cache_pipe (dev m)
       ∧ PipeDevice.cache_pipe_64bit (dev m2) = PipeDevice.cache_pipe_64bit (dev m))).
  { rewrite (doCommand_close _ _ _ Hok Hl1 Hr1).
    unfold cmd_close. rewrite bind_unfold, (find_pnode_head m1 p) by reflexivity.
    clear Hl1 Hr1. subst m1.
    unfold read_pnode, write_pnode, load, store. munfold. msimpl.
    repeat (rewrite lookup_insert_eq; msimpl).
    match goal with |- context [clear_cache_pipe_if_equal (Some p) ?m0] =>
      destruct (close_free_quiet m0 p _ Hq ltac:(msimpl; apply lookup_insert_eq))
        as (m2 & E & Hh & Hw & Hi & Hcp & H64 & Hregs)
    end.
    exists m2. split; [exact E|].
    msimpl in Hh. msimpl in Hi. msimpl in Hcp. msimpl in H64.
    unfold regs in Hregs. msimpl in Hregs.
    apply (f_equal (λ d, (PipeDevice.pipes d, PipeDevice.save_pipes d,
             PipeDevice.pipes_by_channel d, PipeDevice.status d))) in Hregs.
    msimpl in Hregs. injection Hregs as Hpipes Hsave Htab Hst.
    split.
    { rewrite Hh. rewrite ?insert_insert_eq. by apply delete_insert_id. }
    split.
    { rewrite Htab. by apply delete_insert_id. }
    split; [done|]. split; [done|]. split; [rewrite Hst; reflexivity|]. split; [done|].
    intros Hs. rewrite Hcp, H64. split.
    - destruct (decide (PipeDevice.cache_pipe (dev m) = Some p)) as [E1|]; [|done].
      destruct (Hs p ltac:(left; exact E1)) as [x Hx]. congruence.
    - destruct (decide (PipeDevice.cache_pipe_64bit (dev m) = Some p)) as [E1|]; [|done].
      destruct (Hs p ltac:(right; exact E1)) as [x Hx]. congruence. }
  destruct Hclose as (m2 & Hc2 & Hrest).
  exists m1, m2. split; [reflexivity|]. split; [exact Hl1|].
  split; [reflexivity|]. split; [exact Hc2|]. exact Hrest.
Qed.

(** *** A drain of the traversal list *)

Lemma skip_unwanted_first (l : list ptr) (fuel : nat) (q : option ptr) (m : Machine) :
  chain (heap m) q l → (length l ≤ fuel)%nat →
  skip_unwanted fuel q m = Ok (first_wanted (heap m) l, m).
Proof.
  revert fuel q. induction l as [|a l IH]; intros fuel q Hc Hf; simpl in Hc.
  - subst q. destruct fuel; reflexivity.
  - destruct Hc as [-> (r & Hr & Hc)]. simpl in Hf.
    destruct fuel as [|fuel]; [lia|]. simpl. unfold load. munfold. rewrite Hr.
    destruct (HwPipe.wanted r =? 0); [|reflexivity].
    apply IH; [done|lia].
Qed.

Lemma scan_first (m : Machine) (l : list ptr) :
  chain (heap m) (PipeDevice.pipes (dev m)) l →
  scan m = Ok (first_wanted (heap m) l).
Proof.
  intros Hc. unfold scan, bounded.
  rewrite (skip_unwanted_first l _ _ _ Hc); [reflexivity|].
  pose proof (chain_length _ _ _ Hc). lia.
Qed.

Lemma with_wanted_0_id (r : HwPipe.t) : HwPipe.wanted r = 0 → HwPipe.with_wanted 0 r = r.
Proof. destruct r; simpl; intros ->; reflexivity. Qed.

Lemma signalled_cons (h : gmap ptr HwPipe.t) (a : ptr) (l : list ptr) :
  signalled h (a :: l)
  = match h !! a with
    | Some r => if HwPipe.wanted r =? 0 then signalled h l else r :: signalled h l
    | None => signalled h l
    end.
Proof.
  unfold signalled. simpl. destruct (h !! a) as [r|]; [|reflexivity].
  destruct (HwPipe.wanted r =? 0); reflexivity.
Qed.

Lemma first_wanted_None (h : gmap ptr HwPipe.t) (q : option ptr) (l : list ptr) :
  chain h q l → first_wanted h l = None →
  signalled h l = []
  ∧ ∀ a, a ∈ l → HwPipe.with_wanted 0 <$> h !! a = h !! a.
Proof.
  revert q. induction l as [|a l IH]; intros q; cbn [chain first_wanted].
  - intros _ _. split; [done|]. intros a Ha. by apply not_elem_of_nil in Ha.
  - intros [-> (r & Hr & Hc)]. rewrite Hr.
    destruct (Z.eqb_spec (HwPipe.wanted r) 0) as [Hw|_]; [|done].
    intros Hn. destruct (IH _ Hc Hn) as [Hs Hall]. rewrite signalled_cons, Hr.
    apply Z.eqb_eq in Hw as Hw'. rewrite Hw'. split; [done|].
    intros b [->|Hb]%elem_of_cons; [|by apply Hall].
    rewrite Hr. simpl. by rewrite with_wanted_0_id.
Qed.

Lemma first_wanted_Some (h : gmap ptr HwPipe.t) (q : option ptr) (l : list ptr) (p : ptr) :
  chain h q l → first_wanted h l = Some p →
  ∃ l1 l2 r, l = l1 ++ p :: l2 ∧ h !! p = Some r ∧ HwPipe.wanted r ≠ 0
             ∧ chain h (HwPipe.next r) l2
             ∧ signalled h l = r :: signalled h l2
             ∧ ∀ a, a ∈ l1 → HwPipe.with_wanted 0 <$> h !! a = h !! a.
Proof.
  revert q. induction l as [|a l IH]; intros q; cbn [chain first_wanted]; [done|].
  intros [-> (r & Hr & Hc)]. rewrite Hr.
  destruct (Z.eqb_spec (HwPipe.wanted r) 0) as [Hw|Hw].
  - intros Hf. destruct (IH _ Hc Hf) as (l1 & l2 & rp & -> & Hrp & Hwp & Hc2 & Hs & Hall).
    exists (a :: l1), l2, rp. split; [done|]. split; [done|]. split; [done|].
    split; [done|]. split.
    + rewrite signalled_cons, Hr.
      apply Z.eqb_eq in Hw as Hw'. by rewrite Hw'.
    + intros b [->|Hb]%elem_of_cons; [|by apply Hall].
      rewrite Hr. simpl. by rewrite with_wanted_0_id.
  - intros [= <-]. exists [], l, r. split; [done|]. split; [done|]. split; [done|].
    split; [done|]. split.
    + rewrite signalled_cons, Hr.
      apply Z.eqb_neq in Hw as Hw'. by rewrite Hw'.
    + intros b Hb. by apply not_elem_of_nil in Hb.
Qed.

Lemma signalled_insert (h : gmap ptr HwPipe.t) (p : ptr) (r : HwPipe.t) (l : list ptr) :
  p ∉ l → signalled (<[p := r]> h) l = signalled h l.
Proof.
  induction l as [|a l IH]; [done|].
  intros [Hne Hp]%not_elem_of_cons. rewrite !signalled_cons.
  rewrite lookup_insert_ne by done. by rewrite IH.
Qed.

Lemma chain_nil_iff (h : gmap ptr HwPipe.t) (q : option ptr) (l : list ptr) :
  chain h q l → (q = None ↔ l = []).
Proof.
  destruct l as [|a l]; simpl; [by intros ->|].
  intros [-> _]. split; discriminate.
Qed.

Lemma drain_steps (n : nat) :
  header_ok = true →
  ∀ (l : list ptr) (m : Machine), (length l ≤ n)%nat →
  in_slot m = None → chain (heap m) (PipeDevice.pipes (dev m)) l →
  ∃ m',
    read_channels (S (length (signalled (heap m) l))) m
    = Ok (((λ r, lo32 (HwPipe.channel r)) <$> signalled (heap m) l) ++ [0], m')
    ∧ PipeDevice.pipes (dev m') = PipeDevice.save_pipes (dev m)
    ∧ PipeDevice.save_pipes (dev m') = PipeDevice.save_pipes (dev m)
    ∧ in_slot m' = None
    ∧ (∀ q, heap m' !! q
            = if decide (q ∈ l) then HwPipe.with_wanted 0 <$> heap m !! q
              else heap m !! q)
    ∧ PipeDevice.wakes (dev m')
      = default (PipeDevice.wakes (dev m))
          (HwPipe.wanted <$> last (signalled (heap m) l))
    ∧ irq m' = (if decide (l = []) then irq m else 0 :: irq m).
Proof.
  intros Hok. induction n as [|n IH]; intros l m Hlen Hslot Hc.
  - destruct l; [|simpl in Hlen; lia]. simpl in Hc. simpl.
    rewrite bind_unfold, (read_reg_channel Hok), (read_channel_scanned _ Hslot).
    rewrite (scan_first m [] Hc). simpl.
    apply in_slot_None in Hslot as Hs2. destruct Hs2 as [H64 Hcp].
    assert (Hsc : slots_cleared (dev m) = dev m).
    { unfold slots_cleared. rewrite H64. by apply with_cache_pipe_None_id. }
    rewrite Hsc, Hc. rewrite bool_decide_eq_false_2 by (intros ?; done).
    munfold. eexists. split; [reflexivity|]. msimpl.
    repeat split; try done.
  - pose proof (scan_first m l Hc) as Hscan.
    apply in_slot_None in Hslot as Hs2. destruct Hs2 as [H64 Hcp].
    assert (Hsc : slots_cleared (dev m) = dev m).
    { unfold slots_cleared. rewrite H64. by apply with_cache_pipe_None_id. }
    destruct (first_wanted (heap m) l) as [p|] eqn:Hf.
    + destruct (first_wanted_Some _ _ _ _ Hc Hf)
        as (l1 & l2 & r & -> & Hr & Hw & Hc2 & Hsig & Hall).
      rewrite Hsig.
      pose proof (chain_NoDup _ _ _ Hc) as Hnd.
      apply NoDup_app in Hnd as (Hnd1 & Hd & Hnd2).
      apply NoDup_cons in Hnd2 as [Hp2 Hnd2].
      set (m1 := mkMachine _ (<[p := HwPipe.with_wanted 0 r]> (heap m))
                   (PipeDevice.with_pipes (HwPipe.next r)
                      (PipeDevice.with_wakes (HwPipe.wanted r) (dev m)))
                   (if bool_decide (HwPipe.next r = None) then 0 :: irq m else irq m)
                   (world m)).
      assert (Hs1 : in_slot m1 = None).
      { unfold in_slot, m1. msimpl. by rewrite H64. }
      assert (Hc1 : chain (heap m1) (PipeDevice.pipes (dev m1)) l2).
      { unfold m1. msimpl. by apply with_wanted_keeps_chain. }
      assert (Hsig1 : signalled (heap m1) l2 = signalled (heap m) l2).
      { unfold m1. msimpl. by apply signalled_insert. }
      destruct (IH l2 m1) as (m' & E & Hp' & Hs' & Hslot' & Hheap' & Hwk' & Hirq');
        [rewrite length_app in Hlen; simpl in Hlen; lia|done|done|].
      rewrite Hsig1 in E, Hwk'.
      exists m'. split.
      { change (read_channels (S (length (r :: signalled (heap m) l2))) m)
          with ((v ← pipe_dev_read (u64 PIPE_REG_CHANNEL);
                 vs ← read_channels (S (length (signalled (heap m) l2)));
                 mret (v :: vs)) m).
        rewrite bind_unfold, (read_reg_channel Hok), (read_channel_scanned _ Hslot).
        rewrite Hscan, Hr, Hsc. fold m1. rewrite bind_unfold, E. reflexivity. }
      split; [by rewrite Hp'|]. split; [by rewrite Hs'|]. split; [done|]. split.
      { intros q. rewrite Hheap'. unfold m1. msimpl.
        destruct (decide (q ∈ l2)) as [Hq2|Hq2].
        - assert (q ≠ p) by (intros ->; done).
          rewrite lookup_insert_ne by done.
          rewrite decide_True; [done|]. apply elem_of_app. right. by right.
        - destruct (decide (q = p)) as [->|Hqp].
          + rewrite lookup_insert_eq, Hr.
            rewrite decide_True; [done|]. apply elem_of_app. right. by left.
          + rewrite lookup_insert_ne by done.
            destruct (decide (q ∈ l1 ++ p :: l2)) as [Hin|Hin]; [|done].
            apply elem_of_app in Hin as [Hin|Hin]; [by rewrite Hall|].
            apply elem_of_cons in Hin as [?|?]; done. }
      split.
      { rewrite Hwk'. unfold m1. msimpl. rewrite last_cons.
        destruct (last (signalled (heap m) l2)); reflexivity. }
      rewrite Hirq'. unfold m1. msimpl.
      rewrite (decide_False (P := l1 ++ p :: l2 = [])) by (by destruct l1).
      pose proof (chain_nil_iff _ _ _ Hc2) as Hnil.
      destruct (decide (l2 = [])) as [E2|E2].
      * rewrite bool_decide_eq_true_2 by (by apply Hnil). done.
      * rewrite bool_decide_eq_false_2 by (intros ?%Hnil; done). done.
    + destruct (first_wanted_None _ _ _ Hc Hf) as [Hsig Hall]. rewrite Hsig. simpl.
      rewrite bind_unfold, (read_reg_channel Hok), (read_channel_scanned _ Hslot).
      rewrite Hscan, Hsc. munfold. eexists. split; [reflexivity|]. msimpl.
      split; [done|]. split; [done|]. split.
      { unfold in_slot. msimpl. by rewrite H64. }
      split.
      { intros q. destruct (decide (q ∈ l)); [by rewrite Hall|done]. }
      split; [done|].
      pose proof (chain_nil_iff _ _ _ Hc) as Hnil.
      destruct (decide (l = [])) as [E2|E2].
      * rewrite bool_decide_eq_false_2; [done|]. intros Hne. apply Hne. by apply Hnil.
      * rewrite bool_decide_eq_true_2; [done|]. by intros ?%Hnil.
Qed.

(** X17.  A drain of the traversal list.  With no fast-path slot set, let
    the list from the traversal position hold [k] records whose [wanted]
    mask is not 0.  Then [k + 1] reads of [PIPE_REG_CHANNEL] return the low
    halves of the ids of exactly these records, each once and in list
    order, and then 0.  Afterwards every record of the list has a [wanted]
    mask of 0 and no other record has changed, [wakes] holds the mask of
    the last channel reported, the traversal is rewound to [save_pipes], and
    the interrupt line has been lowered exactly once (not at all if the list
    was empty). *)
Theorem drain_reports_each_signalled_channel_once (m : Machine) (l : list ptr) :
  header_ok = true →
  in_slot m = None → chain (heap m) (PipeDevice.pipes (dev m)) l →
  let rs := signalled (heap m) l in
  ∃ m',
    read_channels (S (length rs)) m
    = Ok (((λ r, lo32 (HwPipe.channel r)) <$> rs) ++ [0], m')
    ∧ PipeDevice.pipes (dev m') = PipeDevice.save_pipes (dev m)
    ∧ in_slot m' = None
    ∧ (∀ q, heap m' !! q
            = if decide (q ∈ l) then HwPipe.with_wanted 0 <$> heap m !! q
              else heap m !! q)
    ∧ PipeDevice.wakes (dev m')
      = default (PipeDevice.wakes (dev m)) (HwPipe.wanted <$> last rs)
    ∧ irq m' = (if decide (l = []) then irq m else 0 :: irq m).
Proof.
  intros Hok Hslot Hc rs.
  destruct (drain_steps (length l) Hok l m ltac:(lia) Hslot Hc)
    as (m' & E & Hp & _ & Hs & Hh & Hw & Hi).
  exists m'. done.
Qed.

(** *** The packed path and the register path agree *)

Lemma u32_idem (z : Z) : u32 (u32 z) = u32 z.
Proof. unfold u32. apply Z.mod_mod. lia. Qed.

Lemma halves_of_u64 (x : Z) :
  u32 (u64 x) + 2 ^ 32 * u32 (Z.shiftr (u64 x) 32) = u64 x.
Proof.
  assert (0 ≤ u64 x < 2 ^ 64) as Hr by (unfold u64; apply Z.mod_pos_bound; lia).
  rewrite Z.shiftr_div_pow2 by lia. unfold u32 at 2.
  rewrite (Z.mod_small (u64 x / 2 ^ 32)).
  - unfold u32. rewrite Z.add_comm. symmetry. apply Z.div_mod. lia.
  - split; [apply Z.div_pos; lia|]. apply Z.div_lt_upper_bound; lia.
Qed.

Lemma run_app (ss1 ss2 : list Step) (m : Machine) :
  run (ss1 ++ ss2) m
  = match run ss1 m with
    | Ok (_, m1) => run ss2 m1
    | Crash c => Crash c
    end.
Proof.
  revert m. induction ss1 as [|s ss1 IH]; intros m; [reflexivity|].
  simpl. rewrite !bind_unfold. destruct (step s m) as [[[] m1]|c]; [|reflexivity].
  apply IH.
Qed.

(** X18.  The packed-parameter path does what the discrete register path
    does.  When the parameter block holds a buffer command, a write to
    [PIPE_REG_ACCESS_PARAMS] is the same as writing the block's [channel],
    [size] and [address] to their registers (the 64-bit ones in two
    halves), writing its [cmd] to [PIPE_REG_COMMAND], and then storing the
    block with the resulting [status] in its [result] field back to guest
    memory. *)
Theorem access_params_as_register_writes (m : Machine) (value : Z) :
  header_ok = true →
  PipeDevice.params_addr (dev m) ≠ 0 →
  aps_cmd m = u32 PIPE_CMD_READ_BUFFER ∨ aps_cmd m = u32 PIPE_CMD_WRITE_BUFFER →
  pipe_dev_write (u64 PIPE_REG_ACCESS_PARAMS) value m
  = (run [GuestWrite (u64 PIPE_REG_CHANNEL) (aps_channel m);
          GuestWrite (u64 PIPE_REG_CHANNEL_HIGH) (Z.shiftr (aps_channel m) 32);
          GuestWrite (u64 PIPE_REG_SIZE) (aps_size m);
          GuestWrite (u64 PIPE_REG_ADDRESS) (aps_address m);
          GuestWrite (u64 PIPE_REG_ADDRESS_HIGH) (Z.shiftr (aps_address m) 32);
          GuestWrite (u64 PIPE_REG_COMMAND) (aps_cmd m)];;
     d ← get_dev;
     w ← get_world;
     set_world (cpu_physical_memory_write w (PipeDevice.params_addr (dev m))
                  (aps_result m (PipeDevice.status d)))) m.
Proof.
  intros Hok Hpa Hcmd.
  rewrite (write_access_params value Hok), access_params_spec.
  apply Z.eqb_neq in Hpa. rewrite Hpa.
  assert (Hb : negb (aps_cmd m =? u32 PIPE_CMD_READ_BUFFER)
               && negb (aps_cmd m =? u32 PIPE_CMD_WRITE_BUFFER) = false).
  { destruct Hcmd as [-> | ->]; rewrite Z.eqb_refl; simpl;
      rewrite ?andb_false_r; reflexivity. }
  rewrite Hb.
  assert (Hlatch : run [GuestWrite (u64 PIPE_REG_CHANNEL) (aps_channel m);
                        GuestWrite (u64 PIPE_REG_CHANNEL_HIGH) (Z.shiftr (aps_channel m) 32);
                        GuestWrite (u64 PIPE_REG_SIZE) (aps_size m);
                        GuestWrite (u64 PIPE_REG_ADDRESS) (aps_address m);
                        GuestWrite (u64 PIPE_REG_ADDRESS_HIGH) (Z.shiftr (aps_address m) 32)] m
                   = Ok (tt, latch_params m)).
  { unfold run, step, pipe_dev_write. dispatch_registers Hok.
    munfold. msimpl. unfold latch_params, latch, with_dev. f_equal. f_equal.
    rewrite !set_low_then_high.
    unfold aps_channel at 1 2, aps_address at 1 2. rewrite !halves_of_u64.
    unfold aps_size at 1. rewrite u32_idem.
    reflexivity. }
  rewrite bind_unfold.
  match goal with |- _ = match run ?ss m with _ => _ end =>
    change ss with ([GuestWrite (u64 PIPE_REG_CHANNEL) (aps_channel m);
                     GuestWrite (u64 PIPE_REG_CHANNEL_HIGH) (Z.shiftr (aps_channel m) 32);
                     GuestWrite (u64 PIPE_REG_SIZE) (aps_size m);
                     GuestWrite (u64 PIPE_REG_ADDRESS) (aps_address m);
                     GuestWrite (u64 PIPE_REG_ADDRESS_HIGH) (Z.shiftr (aps_address m) 32)]
                    ++ [GuestWrite (u64 PIPE_REG_COMMAND) (aps_cmd m)])
  end.
  rewrite run_app, Hlatch. unfold command_then_write_back.
  unfold run, step, pipe_dev_write. rewrite Z.eqb_refl.
  assert (Hu : u32 (aps_cmd m) = aps_cmd m) by (unfold aps_cmd; apply u32_idem).
  rewrite Hu, bind_unfold.
  destruct (pipeDevice_doCommand (aps_cmd m) (latch_params m)) as [[[] m1]|c];
    reflexivity.
Qed.

(** *** Interleavings *)

Lemma doCommand_wake_on (m : Machine) (on_read : bool) (p : ptr) (r : HwPipe.t) :
  header_ok = true →
  latched_pipe m = Some p → heap m !! p = Some r → HwPipe.closed r = false →
  pipeDevice_doCommand (wake_on_cmd on_read) m
  = cmd_wake_on (wake_on_flag on_read) (Some p) m.
Proof.
  intros Hok Hl Hr Hc. rewrite (doCommand_live _ _ _ _ Hl Hr Hc).
  unfold wake_on_cmd, wake_on_flag.
  destruct on_read; dispatch_commands Hok; reflexivity.
Qed.

(** X19.  The [wanted] mask holds both what the guest asked to be woken
    for and what the host has signalled.  So a [PIPE_CMD_WAKE_ON_READ] or
    [PIPE_CMD_WAKE_ON_WRITE] alone makes the channel count as signalled: it
    raises no interrupt, but the next scan that reaches the record (here the
    record is at the traversal position and no slot is set) reports the
    channel, with the requested event in [wakes], although the host has
    signalled nothing. *)
Theorem wake_on_request_is_reported
    (m : Machine) (on_read : bool) (p : ptr) (r : HwPipe.t) :
  header_ok = true →
  latched_pipe m = Some p → heap m !! p = Some r → HwPipe.closed r = false →
  HwPipe.wanted r = 0 →
  in_slot m = None → PipeDevice.pipes (dev m) = Some p →
  let flag := wake_on_flag on_read in
  u8 flag ≠ 0 →
  upcalls (android_pipe_wake_on (world m) (HwPipe.pipe r) (u8 flag)) = [] →
  ∃ m1 m2,
    pipeDevice_doCommand (wake_on_cmd on_read) m = Ok (tt, m1)
    ∧ irq m1 = irq m
    ∧ pipe_dev_read (u64 PIPE_REG_CHANNEL) m1 = Ok (lo32 (HwPipe.channel r), m2)
    ∧ PipeDevice.wakes (dev m2) = u8 flag.
Proof.
  intros Hok Hl Hr Hc Hw Hslot Hp flag Hflag Hq.
  rewrite (doCommand_wake_on _ _ _ _ Hok Hl Hr Hc). fold flag.
  unfold cmd_wake_on, set_status, load, store. munfold. rewrite Hr, Hw.
  rewrite Z.land_0_l, Z.eqb_refl. msimpl. rewrite Hr. msimpl.
  rewrite lookup_insert_eq. msimpl. rewrite ?Hw, ?Z.lor_0_l.
  rewrite call_quiet by exact Hq. unfold with_world. msimpl.
  eexists _, _. split; [reflexivity|]. split; [reflexivity|].
  rewrite (read_reg_channel Hok).
  match goal with |- read_channel ?m1 = _ ∧ _ =>
    assert (Hs1 : in_slot m1 = None) by exact Hslot;
    assert (Hsc : scan m1 = Ok (Some p))
  end.
  { eapply scan_at_head; [exact Hp|msimpl; apply lookup_insert_eq|exact Hflag]. }
  rewrite (read_channel_scanned _ Hs1), Hsc. msimpl. rewrite lookup_insert_eq.
  split; reflexivity.
Qed.

(** X20.  A wake that arrives between the two reads of a 64-bit pair.  If
    the [PIPE_REG_CHANNEL_HIGH] read took its channel from a fast-path slot,
    the channel is parked in [cache_pipe_64bit] and the [PIPE_REG_CHANNEL]
    read returns the low half of the same id, whatever was woken in
    between.  If the high read found its channel by the scan, the channel is
    only left at the traversal position: a wake of another open channel in
    between takes [cache_pipe], and the low read returns the low half of
    that other channel's id. *)
Theorem wake_between_pair_reads
    (m : Machine) (p q : ptr) (r rq : HwPipe.t) (flags : Z) :
  header_ok = true →
  heap m !! p = Some r → hi32 (HwPipe.channel r) ≠ 0 →
  heap m !! q = Some rq → HwPipe.closed rq = false → q ≠ p →
  (in_slot m = Some p →
   ∃ m1 m2 m3,
     pipe_dev_read (u64 PIPE_REG_CHANNEL_HIGH) m = Ok (hi32 (HwPipe.channel r), m1)
     ∧ qemu2_android_pipe_wake (Some q) flags m1 = Ok (tt, m2)
     ∧ pipe_dev_read (u64 PIPE_REG_CHANNEL) m2 = Ok (lo32 (HwPipe.channel r), m3)
     ∧ PipeDevice.cache_pipe (dev m3) = Some q)
  ∧ (in_slot m = None → scan m = Ok (Some p) →
     ∃ m1 m2 m3,
       pipe_dev_read (u64 PIPE_REG_CHANNEL_HIGH) m = Ok (hi32 (HwPipe.channel r), m1)
       ∧ qemu2_android_pipe_wake (Some q) flags m1 = Ok (tt, m2)
       ∧ pipe_dev_read (u64 PIPE_REG_CHANNEL) m2 = Ok (lo32 (HwPipe.channel rq), m3)
       ∧ PipeDevice.wakes (dev m3) = u8 (Z.lor (HwPipe.wanted rq) (u8 flags))
       ∧ PipeDevice.pipes (dev m3) = Some p).
Proof.
  intros Hok Hr Hhi Hrq Hcq Hne. apply Z.eqb_neq in Hhi.
  rewrite (read_reg_channel_high Hok). split.
  - intros Hs. rewrite (read_channel_high_slot _ _ Hs), Hr, Hhi.
    eexists _, _, _. split; [reflexivity|]. rewrite wake_spec. msimpl.
    rewrite Hrq, Hcq. split; [reflexivity|]. rewrite (read_reg_channel Hok).
    match goal with |- read_channel ?m2 = _ ∧ _ =>
      assert (Hs2 : in_slot m2 = Some p) by reflexivity;
      rewrite (read_channel_slot m2 p Hs2)
    end.
    msimpl. rewrite lookup_insert_ne by done. rewrite Hr.
    split; [reflexivity|]. reflexivity.
  - intros Hs Hsc. rewrite (read_channel_high_scanned _ Hs), Hsc, Hr, Hhi.
    apply in_slot_None in Hs as [H64 Hcp].
    assert (Hcl : slots_cleared (dev m) = dev m).
    { unfold slots_cleared. rewrite H64. by apply with_cache_pipe_None_id. }
    rewrite Hcl.
    eexists _, _, _. split; [reflexivity|]. rewrite wake_spec. msimpl.
    rewrite Hrq, Hcq. split; [reflexivity|]. rewrite (read_reg_channel Hok).
    match goal with |- read_channel ?m2 = _ ∧ _ =>
      assert (Hs2 : in_slot m2 = Some q)
        by (unfold in_slot; msimpl; rewrite H64; reflexivity);
      rewrite (read_channel_slot m2 q Hs2)
    end.
    msimpl. rewrite lookup_insert_eq.
    split; [reflexivity|]. split; [reflexivity|].
    unfold slots_cleared. msimpl. rewrite H64. reflexivity.
Qed.

End Proofs.

(** ** The theorems at work on the example machines *)

Section Witnesses.
#[local] Existing Instance goldfish_header.
#[local] Existing Instance zero_host.

Lemma goldfish_header_ok : header_ok = true.
Proof. vm_compute. reflexivity. Qed.

(** C1: the scenario "closed channel error".  After the failed poll the
    guest closes channel 2: the channel is removed, and the status register
    still reads [PIPE_ERROR_IO]. *)
Lemma close_command_witness :
  (header_ok = true
   ∧ latched_pipe m_polled_closed = Some 1%positive
   ∧ chain (heap m_polled_closed) (PipeDevice.pipes (dev m_polled_closed)) [1%positive])
  ∧ ∃ m', pipeDevice_doCommand (u32 PIPE_CMD_CLOSE) m_polled_closed = Ok (tt, m')
          ∧ latched_pipe m' = None
          ∧ heap m' !! 1%positive = None
          ∧ chain (heap m') (PipeDevice.pipes (dev m')) []
          ∧ PipeDevice.status (dev m') = u32 PIPE_ERROR_IO
          ∧ PipeDevice.status (dev m') ≠ 0.
Proof.
  pose proof goldfish_header_ok as Hok.
  assert (Hlat : latched_pipe m_polled_closed = Some 1%positive)
    by (vm_compute; reflexivity).
  assert (Hr : heap m_polled_closed !! 1%positive = Some (HwPipe.mk None 2 1 true 1))
    by (vm_compute; reflexivity).
  assert (Hchain : chain (heap m_polled_closed)
                     (PipeDevice.pipes (dev m_polled_closed)) [1%positive]).
  { split; [vm_compute; reflexivity|]. eexists. split; [exact Hr|reflexivity]. }
  split; [split; [exact Hok|split; [exact Hlat|exact Hchain]]|].
  assert (Hch0 : HwPipe.channel (HwPipe.mk None 2 1 true 1)
                 = PipeDevice.channel (dev m_polled_closed))
    by (vm_compute; reflexivity).
  pose proof (close_command m_polled_closed 1%positive _ [1%positive]
                Hok Hlat Hr Hch0 Hchain) as [Hfound _].
  assert (Hin : 1%positive ∈ [1%positive])
    by (apply list_elem_of_singleton; reflexivity).
  assert (Hlive : upcalls_live (heap m_polled_closed)
            (upcalls (android_pipe_free (world m_polled_closed)
                        (HwPipe.pipe (HwPipe.mk None 2 1 true 1)))))
    by apply Forall_nil_2.
  specialize (Hfound Hin Hlive).
  destruct Hfound as (m' & l1 & l2 & E & El & Hlat' & Hheap & Hch & _ & _ & _ & _ & Hst).
  exists m'. destruct l1 as [|a [|b l1]].
  3:{ simpl in El. discriminate El. }
  2:{ simpl in El. discriminate El. }
  simpl in El. injection El as <-. simpl in Hch.
  split; [exact E|]. split; [exact Hlat'|]. split; [exact Hheap|].
  split; [exact Hch|]. rewrite Hst.
  split; [vm_compute; reflexivity|vm_compute; discriminate].
Defined.

(** On [m_dropped] channel 2 is in the table but its record is no longer
    on the traversal list, which runs from the record of channel 3 to the
    one of channel 1: the close is refused with [PIPE_ERROR_INVAL] and the
    channel stays in the table. *)
Lemma close_of_dropped_channel :
  latched_pipe m_dropped = Some 2%positive
  ∧ chain (heap m_dropped) (PipeDevice.pipes (dev m_dropped)) [3%positive; 1%positive]
  ∧ ∃ m', pipeDevice_doCommand (u32 PIPE_CMD_CLOSE) m_dropped = Ok (tt, m')
          ∧ PipeDevice.status (dev m') = u32 PIPE_ERROR_INVAL
          ∧ latched_pipe m' = Some 2%positive.
Proof.
  split; [vm_compute; reflexivity|]. split.
  { split; [vm_compute; reflexivity|]. eexists. split; [vm_compute; reflexivity|].
    split; [reflexivity|]. eexists. split; [vm_compute; reflexivity|reflexivity]. }
  exists (left_by (pipeDevice_doCommand (u32 PIPE_CMD_CLOSE) m_dropped) bench).
  split; [apply returned_Ok; vm_compute; reflexivity|].
  split; vm_compute; reflexivity.
Qed.

(** C2: a poll of channel 0xDEAD, which was never opened, and a poll of
    channel 3 after the host closed it. *)
Lemma doCommand_unknown_or_closed_witness :
  pipeDevice_doCommand (u32 PIPE_CMD_POLL) m_unknown
  = Ok (tt, upd_status PIPE_ERROR_INVAL m_unknown)
  ∧ pipeDevice_doCommand (u32 PIPE_CMD_POLL) m_closed3
    = Ok (tt, upd_status PIPE_ERROR_IO m_closed3).
Proof.
  split.
  - apply (proj1 (doCommand_unknown_or_closed m_unknown (u32 PIPE_CMD_POLL))).
    + vm_compute. discriminate.
    + vm_compute. reflexivity.
  - apply (proj2 (doCommand_unknown_or_closed m_closed3 (u32 PIPE_CMD_POLL))
             1%positive (HwPipe.mk None 3 1 true 1)).
    + vm_compute. reflexivity.
    + vm_compute. reflexivity.
    + reflexivity.
    + vm_compute. discriminate.
Defined.

(** C3: on [m_two_woken] the read of the channel register is served by the
    scan, which finds channel 1 at the end of the list. *)
Lemma irq_lowered_by_channel_reads_witness :
  header_ok = true
  ∧ ∀ v m', pipe_dev_read (u64 PIPE_REG_CHANNEL) m_two_woken = Ok (v, m') →
            irq m' = 0 :: irq m_two_woken.
Proof.
  split; [exact goldfish_header_ok|]. intros v m' E.
  apply (proj1 (irq_lowered_by_channel_reads m_two_woken goldfish_header_ok) v m' E).
  split; [vm_compute; reflexivity|]. right.
  exists 1%positive, (HwPipe.mk None 1 2 false 1).
  split; [vm_compute; reflexivity|]. split; [vm_compute; reflexivity|reflexivity].
Defined.

(** C3 as stated fails: this read returns the id of channel 1, which the
    scan found signaled, and it lowers the interrupt line. *)
Lemma channel_read_returns_id_and_lowers_irq :
  scan m_two_woken = Ok (Some 1%positive)
  ∧ ∃ m', pipe_dev_read (u64 PIPE_REG_CHANNEL) m_two_woken = Ok (1, m')
          ∧ irq m' = 0 :: irq m_two_woken.
Proof.
  split; [vm_compute; reflexivity|].
  exists (left_by (pipe_dev_read (u64 PIPE_REG_CHANNEL) m_two_woken) bench).
  split; [apply returned_Ok; vm_compute; reflexivity|vm_compute; reflexivity].
Qed.

(** C4: channel 0x700000005 woken by the host; the pair of reads gives 7
    and then 5. *)
Lemma channel_high_then_channel_witness :
  header_ok = true
  ∧ selected m_wide_woken = Ok (Some 1%positive)
  ∧ ∃ m1 m2,
      pipe_dev_read (u64 PIPE_REG_CHANNEL_HIGH) m_wide_woken = Ok (7, m1)
      ∧ pipe_dev_read (u64 PIPE_REG_CHANNEL) m1 = Ok (5, m2).
Proof.
  split; [exact goldfish_header_ok|].
  assert (Hsel : selected m_wide_woken = Ok (Some 1%positive))
    by (vm_compute; reflexivity).
  split; [exact Hsel|].
  assert (Hr : heap m_wide_woken !! 1%positive
               = Some (HwPipe.mk None 0x700000005 2 false 1))
    by (vm_compute; reflexivity).
  assert (E : pipe_dev_read (u64 PIPE_REG_CHANNEL_HIGH) m_wide_woken
              = Ok (7, left_by (pipe_dev_read (u64 PIPE_REG_CHANNEL_HIGH) m_wide_woken) bench))
    by (apply returned_Ok; vm_compute; reflexivity).
  destruct (channel_high_then_channel m_wide_woken _ 7 1%positive _
              goldfish_header_ok Hsel Hr E) as (_ & _ & _ & m2 & E2).
  eexists _, m2. split; [exact E|exact E2].
Defined.

(** C5: a zero-size read on channel 1; the host maps nothing and returns
    [NULL]. *)
Lemma zero_size_transfer_witness :
  (header_ok = true ∧ latched_pipe m_zero_size = Some 1%positive
   ∧ PipeDevice.size (dev m_zero_size) = 0)
  ∧ pipeDevice_doCommand (buffer_cmd true) m_zero_size
    = Ok (tt, upd_status PIPE_ERROR_INVAL
                (with_world (world m_zero_size) m_zero_size)).
Proof.
  assert (Hlat : latched_pipe m_zero_size = Some 1%positive)
    by (vm_compute; reflexivity).
  assert (Hsz : PipeDevice.size (dev m_zero_size) = 0) by (vm_compute; reflexivity).
  split; [split; [exact goldfish_header_ok|split; [exact Hlat|exact Hsz]]|].
  assert (Hr : heap m_zero_size !! 1%positive = Some (HwPipe.mk None 1 0 false 1))
    by (vm_compute; reflexivity).
  assert (Hmap : cpu_physical_memory_map (world m_zero_size)
                   (PipeDevice.address (dev m_zero_size)) 0 (buffer_dir true)
                 = (None, 0, world m_zero_size))
    by (vm_compute; reflexivity).
  exact (zero_size_transfer m_zero_size true 1%positive _ None 0
           (world m_zero_size) goldfish_header_ok Hlat Hr eq_refl Hsz Hmap).
Defined.

(** C5 as stated fails: the zero-size read on a live, open channel leaves
    [PIPE_ERROR_INVAL] in the status register, not 0. *)
Lemma zero_size_read_is_refused :
  latched_pipe m_zero_size = Some 1%positive
  ∧ HwPipe.closed <$> heap m_zero_size !! 1%positive = Some false
  ∧ PipeDevice.size (dev m_zero_size) = 0
  ∧ ∃ m', pipeDevice_doCommand (u32 PIPE_CMD_READ_BUFFER) m_zero_size = Ok (tt, m')
          ∧ PipeDevice.status (dev m') = u32 PIPE_ERROR_INVAL
          ∧ PipeDevice.status (dev m') ≠ 0.
Proof.
  split; [vm_compute; reflexivity|]. split; [vm_compute; reflexivity|].
  split; [vm_compute; reflexivity|].
  exists (left_by (pipeDevice_doCommand (u32 PIPE_CMD_READ_BUFFER) m_zero_size) bench).
  split; [apply returned_Ok; vm_compute; reflexivity|].
  split; [vm_compute; reflexivity|vm_compute; discriminate].
Qed.

(** C6: channel 1, whose high half is zero, woken by the host. *)
Lemma channel_high_read_asserts_high_half_witness :
  (header_ok = true ∧ selected m_narrow_woken = Ok (Some 1%positive)
   ∧ hi32 1 = 0)
  ∧ pipe_dev_read (u64 PIPE_REG_CHANNEL_HIGH) m_narrow_woken = Crash AssertFailed.
Proof.
  assert (Hsel : selected m_narrow_woken = Ok (Some 1%positive))
    by (vm_compute; reflexivity).
  split; [split; [exact goldfish_header_ok|split; [exact Hsel|reflexivity]]|].
  apply (channel_high_read_asserts_high_half m_narrow_woken 1%positive
           (HwPipe.mk None 1 2 false 1) goldfish_header_ok Hsel).
  - vm_compute. reflexivity.
  - reflexivity.
Defined.

(** C6, the failing input: channel 1 is open and woken by the host.  The
    read of the high half selects it and does not return 0: the device
    stops on its own assertion. *)
Lemma channel_high_read_aborts :
  selected m_narrow_woken = Ok (Some 1%positive)
  ∧ HwPipe.channel <$> heap m_narrow_woken !! 1%positive = Some 1
  ∧ pipe_dev_read (u64 PIPE_REG_CHANNEL_HIGH) m_narrow_woken = Crash AssertFailed
  ∧ ∀ m', pipe_dev_read (u64 PIPE_REG_CHANNEL_HIGH) m_narrow_woken ≠ Ok (0, m').
Proof.
  split; [vm_compute; reflexivity|]. split; [vm_compute; reflexivity|].
  assert (E : pipe_dev_read (u64 PIPE_REG_CHANNEL_HIGH) m_narrow_woken
              = Crash AssertFailed)
    by (apply crashed_Crash; vm_compute; reflexivity).
  split; [exact E|]. intros m' E'.
  pose proof (eq_trans (eq_sym E) E') as X. discriminate X.
Qed.

(** C7: a second open of channel 3, and the first open of channel 3 on the
    machine after power-on. *)
Lemma open_command_witness :
  header_ok = true
  ∧ pipeDevice_doCommand (u32 PIPE_CMD_OPEN) m_open3
    = Ok (tt, upd_status PIPE_ERROR_INVAL m_open3)
  ∧ ∃ m', pipeDevice_doCommand (u32 PIPE_CMD_OPEN) m_unknown = Ok (tt, m')
          ∧ latched_pipe m' = Some 1%positive
          ∧ PipeDevice.pipes (dev m') = Some 1%positive
          ∧ PipeDevice.status (dev m') = 0.
Proof.
  split; [exact goldfish_header_ok|]. split.
  - apply (proj1 (open_command m_open3 goldfish_header_ok) 1%positive
             (HwPipe.mk None 3 0 false 1)).
    + vm_compute. reflexivity.
    + vm_compute. reflexivity.
  - destruct (proj2 (open_command m_unknown goldfish_header_ok))
      as (m' & r' & E & _ & _ & _ & _ & _ & Hp & _ & _ & Hst & Hlat & _).
    + vm_compute. reflexivity.
    + apply Forall_nil_2.
    + exists m'. split; [exact E|]. split; [exact Hlat|]. split; [exact Hp|exact Hst].
Defined.

(** C7 as stated fails: an open of channel 3, which is in the table and
    which the host has closed, leaves [PIPE_ERROR_IO] in the status
    register, not [PIPE_ERROR_INVAL]. *)
Lemma open_of_closed_channel_is_io_error :
  latched_pipe m_closed3 = Some 1%positive
  ∧ ∃ m', pipeDevice_doCommand (u32 PIPE_CMD_OPEN) m_closed3 = Ok (tt, m')
          ∧ PipeDevice.status (dev m') = u32 PIPE_ERROR_IO
          ∧ PipeDevice.status (dev m') ≠ u32 PIPE_ERROR_INVAL.
Proof.
  split; [vm_compute; reflexivity|].
  exists (left_by (pipeDevice_doCommand (u32 PIPE_CMD_OPEN) m_closed3) bench).
  split; [apply returned_Ok; vm_compute; reflexivity|].
  split; [vm_compute; reflexivity|vm_compute; discriminate].
Qed.

(** C8: a read of 4 bytes asked for through a parameter block in the
    32-bit shape, and a write of 4 bytes asked for through a block in the
    64-bit shape.  The channel, the size and the address come from the
    block, and the count of bytes moved is stored in its [result] field
    (offset 16 in the 32-bit shape, 24 in the 64-bit shape). *)
Lemma access_params_runs_buffer_commands_witness :
  (header_ok = true
   ∧ PipeDevice.params_addr (dev (m_params32 PIPE_CMD_READ_BUFFER)) ≠ 0
   ∧ PipeDevice.params_addr (dev (m_params64 PIPE_CMD_WRITE_BUFFER)) ≠ 0)
  ∧ (∃ m', pipe_dev_write (u64 PIPE_REG_ACCESS_PARAMS) 0
             (m_params32 PIPE_CMD_READ_BUFFER) = Ok (tt, m')
           ∧ PipeDevice.channel (dev m') = 1
           ∧ PipeDevice.status (dev m') = 4
           ∧ ram_read (world m') 0x1010 4 = [4; 0; 0; 0])
  ∧ (∃ m', pipe_dev_write (u64 PIPE_REG_ACCESS_PARAMS) 0
             (m_params64 PIPE_CMD_WRITE_BUFFER) = Ok (tt, m')
           ∧ PipeDevice.channel (dev m') = 1
           ∧ PipeDevice.status (dev m') = 4
           ∧ ram_read (world m') 0x1018 4 = [4; 0; 0; 0]).
Proof.
  assert (H32 : PipeDevice.params_addr (dev (m_params32 PIPE_CMD_READ_BUFFER)) ≠ 0)
    by (vm_compute; discriminate).
  assert (H64 : PipeDevice.params_addr (dev (m_params64 PIPE_CMD_WRITE_BUFFER)) ≠ 0)
    by (vm_compute; discriminate).
  split; [split; [exact goldfish_header_ok|split; [exact H32|exact H64]]|].
  split.
  - destruct (access_params_runs_buffer_commands (m_params32 PIPE_CMD_READ_BUFFER) 0
                goldfish_header_ok H32) as [Hshape _].
    destruct Hshape as [_ Hrun]; [vm_compute; reflexivity|].
    rewrite Hrun by (left; vm_compute; reflexivity).
    match goal with |- ∃ m', ?x = _ ∧ _ => exists (left_by x bench) end.
    split; [apply returned_Ok; vm_compute; reflexivity|].
    split; [vm_compute; reflexivity|].
    split; vm_compute; reflexivity.
  - destruct (access_params_runs_buffer_commands (m_params64 PIPE_CMD_WRITE_BUFFER) 0
                goldfish_header_ok H64) as [_ Hshape].
    destruct Hshape as [_ Hrun]; [vm_compute; discriminate|].
    rewrite Hrun by (right; vm_compute; reflexivity).
    match goal with |- ∃ m', ?x = _ ∧ _ => exists (left_by x bench) end.
    split; [apply returned_Ok; vm_compute; reflexivity|].
    split; [vm_compute; reflexivity|].
    split; vm_compute; reflexivity.
Defined.


(** C10: a write to the register with [params_addr] at 0, and one with a
    parameter block that asks for a poll. *)
Lemma access_params_ignored_command_witness :
  header_ok = true
  ∧ pipe_dev_write (u64 PIPE_REG_ACCESS_PARAMS) 0 m_open3 = Ok (tt, m_open3)
  ∧ ∃ m', pipe_dev_write (u64 PIPE_REG_ACCESS_PARAMS) 0 (m_params32 PIPE_CMD_POLL)
          = Ok (tt, m')
          ∧ PipeDevice.channel (dev m') = 1
          ∧ PipeDevice.size (dev m') = 4
          ∧ PipeDevice.address (dev m') = 0x2000
          ∧ PipeDevice.status (dev m') = PipeDevice.status (dev (m_params32 PIPE_CMD_POLL))
          ∧ world m' = world (m_params32 PIPE_CMD_POLL).
Proof.
  split; [exact goldfish_header_ok|]. split.
  - apply (proj1 (access_params_ignored_command m_open3 0 goldfish_header_ok)).
    vm_compute. reflexivity.
  - destruct (proj2 (access_params_ignored_command (m_params32 PIPE_CMD_POLL) 0
                       goldfish_header_ok))
      as (m' & E & Hdev & Hst & Hw & _).
    + vm_compute. discriminate.
    + vm_compute. discriminate.
    + vm_compute. discriminate.
    + exists m'. split; [exact E|]. rewrite Hdev.
      split; [vm_compute; reflexivity|]. split; [vm_compute; reflexivity|].
      split; [vm_compute; reflexivity|]. split; [|exact Hw].
      rewrite <- Hdev. exact Hst.
Defined.

(** The note in [pipe_free]: with a service that wakes its pipe while it
    is torn down, the close of channel 1 leaves the freed record in the
    slot [cache_pipe]. *)
Lemma close_with_waking_service :
  let m := after_run (H0:=waking_host)
             [GuestWrite PIPE_REG_CHANNEL 1; GuestWrite PIPE_REG_COMMAND PIPE_CMD_OPEN]
             (power_on (H:=waking_host) ∅) in
  latched_pipe m = Some 1%positive
  ∧ ∃ m', pipeDevice_doCommand (host:=waking_host) (u32 PIPE_CMD_CLOSE) m = Ok (tt, m')
          ∧ heap m' !! 1%positive = None
          ∧ PipeDevice.cache_pipe (dev m') = Some 1%positive.
Proof.
  intros m. split; [vm_compute; reflexivity|].
  exists (left_by (pipeDevice_doCommand (host:=waking_host) (u32 PIPE_CMD_CLOSE) m)
            (power_on (H:=waking_host) ∅)).
  split; [apply returned_Ok; vm_compute; reflexivity|].
  split; vm_compute; reflexivity.
Qed.
(** ** The further theorems at work *)

Lemma zero_host_quiet : quiet_host.
Proof. repeat split. Qed.

Lemma bench_consistent : consistent bench.
Proof.
  split; [intros c p Hc; vm_compute in Hc; discriminate Hc|].
  exists [], []. split; [reflexivity|]. split; [reflexivity|].
  intros p r Hin. by apply not_elem_of_nil in Hin.
Qed.

Lemma bench_slots_live : slots_live bench.
Proof. intros c [Hc|Hc]; vm_compute in Hc; discriminate Hc. Qed.

(** X1: the block address 0x100001000 written in two halves. *)
Lemma params_addr_round_trip_witness :
  header_ok = true
  ∧ run [GuestWrite (u64 PIPE_REG_PARAMS_ADDR_LOW) 0x1000;
         GuestWrite (u64 PIPE_REG_PARAMS_ADDR_HIGH) 1] bench
    = Ok (tt, with_dev (PipeDevice.with_params_addr (u32 0x1000 + 2 ^ 32 * u32 1)) bench).
Proof.
  split; [exact goldfish_header_ok|].
  destruct (params_addr_round_trip bench 0x1000 1 goldfish_header_ok) as [H _].
  exact H.
Defined.

(** X2: the channel id 0x700000005 written in two halves. *)
Lemma latch_registers_witness :
  header_ok = true
  ∧ run [GuestWrite (u64 PIPE_REG_CHANNEL) 5;
         GuestWrite (u64 PIPE_REG_CHANNEL_HIGH) 7] bench
    = Ok (tt, with_dev (PipeDevice.with_channel (u32 5 + 2 ^ 32 * u32 7)) bench).
Proof.
  split; [exact goldfish_header_ok|].
  destruct (latch_registers bench 5 7 0 goldfish_header_ok) as [H _].
  exact H.
Defined.

(** X3: a read of the version register. *)
Lemma plain_reads_change_nothing_witness :
  (u64 PIPE_REG_VERSION ≠ u64 PIPE_REG_CHANNEL
   ∧ u64 PIPE_REG_VERSION ≠ u64 PIPE_REG_CHANNEL_HIGH)
  ∧ ∃ v, pipe_dev_read (u64 PIPE_REG_VERSION) bench = Ok (v, bench).
Proof.
  assert (H1 : u64 PIPE_REG_VERSION ≠ u64 PIPE_REG_CHANNEL)
    by (intros H; vm_compute in H; discriminate H).
  assert (H2 : u64 PIPE_REG_VERSION ≠ u64 PIPE_REG_CHANNEL_HIGH)
    by (intros H; vm_compute in H; discriminate H).
  split; [split; [exact H1|exact H2]|].
  destruct (plain_reads_change_nothing bench (u64 PIPE_REG_VERSION) H1 H2) as [H _].
  exact H.
Defined.

(** X4: a write at offset 0x40, where there is no register. *)
Lemma ignored_writes_witness :
  (0x40 ∉ register_labels) ∧ pipe_dev_write 0x40 7 bench = Ok (tt, bench).
Proof.
  assert (H : 0x40 ∉ register_labels).
  { intros Hin%list_elem_of_In. vm_compute in Hin.
    repeat (destruct Hin as [Hin|Hin]; [discriminate Hin|]). exact Hin. }
  split; [exact H|].
  destruct (ignored_writes bench 0x40 7) as [Hw _]. exact (Hw H).
Defined.

(** X5: command 99 on the open channel 3. *)
Lemma unknown_command_ignored_witness :
  (latched_pipe m_open3 = Some 1%positive ∧ (99 ∉ command_labels))
  ∧ pipeDevice_doCommand 99 m_open3 = Ok (tt, m_open3).
Proof.
  assert (Hl : latched_pipe m_open3 = Some 1%positive) by (vm_compute; reflexivity).
  assert (Hr : heap m_open3 !! 1%positive = Some (HwPipe.mk None 3 0 false 1))
    by (vm_compute; reflexivity).
  assert (H : 99 ∉ command_labels).
  { intros Hin%list_elem_of_In. vm_compute in Hin.
    repeat (destruct Hin as [Hin|Hin]; [discriminate Hin|]). exact Hin. }
  split; [split; [exact Hl|exact H]|].
  exact (unknown_command_ignored m_open3 99 1%positive _ Hl Hr eq_refl H).
Defined.

(** X6: a poll of the open channel 3; the zero pipe answers 3 (readable
    and writable). *)
Lemma poll_command_witness :
  (header_ok = true ∧ latched_pipe m_open3 = Some 1%positive)
  ∧ ∃ m', pipeDevice_doCommand (u32 PIPE_CMD_POLL) m_open3 = Ok (tt, m')
          ∧ PipeDevice.status (dev m') = 3.
Proof.
  assert (Hl : latched_pipe m_open3 = Some 1%positive) by (vm_compute; reflexivity).
  assert (Hr : heap m_open3 !! 1%positive = Some (HwPipe.mk None 3 0 false 1))
    by (vm_compute; reflexivity).
  split; [split; [exact goldfish_header_ok|exact Hl]|].
  destruct (poll_command m_open3 1%positive _ goldfish_header_ok Hl Hr eq_refl
              (Forall_nil_2 _))
    as (m' & E & Hst & _).
  exists m'. split; [exact E|]. exact Hst.
Defined.

(** X7: the first [PIPE_CMD_WAKE_ON_READ] on channel 3. *)
Lemma wake_on_command_witness :
  (header_ok = true ∧ latched_pipe m_open3 = Some 1%positive)
  ∧ ∃ m', pipeDevice_doCommand (wake_on_cmd true) m_open3 = Ok (tt, m')
          ∧ PipeDevice.status (dev m') = 0.
Proof.
  assert (Hl : latched_pipe m_open3 = Some 1%positive) by (vm_compute; reflexivity).
  assert (Hr : heap m_open3 !! 1%positive = Some (HwPipe.mk None 3 0 false 1))
    by (vm_compute; reflexivity).
  split; [split; [exact goldfish_header_ok|exact Hl]|].
  destruct (wake_on_command m_open3 true 1%positive _ goldfish_header_ok Hl Hr eq_refl)
    as [_ Hnew].
  destruct (Hnew eq_refl (Forall_nil_2 _)) as (m' & E & Hst & _).
  exists m'. split; [exact E|exact Hst].
Defined.

(** X8: a 4-byte read from the zero pipe into guest RAM at 0x2000. *)
Lemma buffer_command_witness :
  (header_ok = true ∧ latched_pipe m_buffer4 = Some 1%positive
   ∧ cpu_physical_memory_map (world m_buffer4) (PipeDevice.address (dev m_buffer4))
       (PipeDevice.size (dev m_buffer4)) (buffer_dir true)
     = (Some 0x2000, 4, world m_buffer4))
  ∧ ∃ m', pipeDevice_doCommand (buffer_cmd true) m_buffer4 = Ok (tt, m')
          ∧ PipeDevice.status (dev m') = 4.
Proof.
  assert (Hl : latched_pipe m_buffer4 = Some 1%positive) by (vm_compute; reflexivity).
  assert (Hr : heap m_buffer4 !! 1%positive = Some (HwPipe.mk None 1 0 false 1))
    by (vm_compute; reflexivity).
  assert (Hmap : cpu_physical_memory_map (world m_buffer4)
                   (PipeDevice.address (dev m_buffer4))
                   (PipeDevice.size (dev m_buffer4)) (buffer_dir true)
                 = (Some 0x2000, 4, world m_buffer4))
    by (vm_compute; reflexivity).
  split; [split; [exact goldfish_header_ok|split; [exact Hl|exact Hmap]]|].
  pose proof (buffer_command m_buffer4 true 1%positive _ _ _ _
                goldfish_header_ok Hl Hr eq_refl Hmap) as H.
  cbv zeta in H.
  assert (Hsz : PipeDevice.size (dev m_buffer4) = 4) by (vm_compute; reflexivity).
  rewrite Hsz in H. change (4 =? 4) with true in H. cbv iota in H.
  destruct (H (Forall_nil_2 _)) as (m' & E & Hst & _).
  exists m'. split; [exact E|]. exact Hst.
Defined.

(** X9: the host closes channel 3. *)
Lemma host_close_once_witness :
  heap m_open3 !! 1%positive = Some (HwPipe.mk None 3 0 false 1)
  ∧ ∃ m1, qemu2_android_pipe_close (Some 1%positive) m_open3 = Ok (tt, m1)
          ∧ qemu2_android_pipe_close (Some 1%positive) m1 = Ok (tt, m1).
Proof.
  assert (Hr : heap m_open3 !! 1%positive = Some (HwPipe.mk None 3 0 false 1))
    by (vm_compute; reflexivity).
  split; [exact Hr|].
  destruct (host_close_once m_open3 1%positive _ Hr) as (m1 & E1 & E2 & _).
  exists m1. split; [exact E1|exact E2].
Defined.

(** X10: the host wakes channel 3 for reading and the guest reads the
    channel register. *)
Lemma woken_channel_is_read_first_witness :
  (header_ok = true
   ∧ heap m_open3 !! 1%positive = Some (HwPipe.mk None 3 0 false 1))
  ∧ ∃ m1 m2,
      qemu2_android_pipe_wake (Some 1%positive) PIPE_WAKE_READ m_open3 = Ok (tt, m1)
      ∧ pipe_dev_read (u64 PIPE_REG_CHANNEL) m1 = Ok (3, m2)
      ∧ PipeDevice.wakes (dev m2) = 2.
Proof.
  assert (Hr : heap m_open3 !! 1%positive = Some (HwPipe.mk None 3 0 false 1))
    by (vm_compute; reflexivity).
  split; [split; [exact goldfish_header_ok|exact Hr]|].
  destruct (woken_channel_is_read_first m_open3 1%positive _ PIPE_WAKE_READ
              goldfish_header_ok Hr) as [Hopen _].
  assert (H64 : PipeDevice.cache_pipe_64bit (dev m_open3) = None)
    by (vm_compute; reflexivity).
  destruct (Hopen eq_refl H64) as (m1 & m2 & E1 & _ & E2 & Hw & _).
  exists m1, m2. split; [exact E1|]. split; [exact E2|exact Hw].
Defined.

(** X11: the run that opens channel 3. *)
Lemma run_keeps_consistent_witness :
  consistent bench
  ∧ run [GuestWrite PIPE_REG_CHANNEL 3; GuestWrite PIPE_REG_COMMAND PIPE_CMD_OPEN] bench
    = Ok (tt, m_open3)
  ∧ consistent m_open3.
Proof.
  assert (Hrun : run [GuestWrite PIPE_REG_CHANNEL 3;
                      GuestWrite PIPE_REG_COMMAND PIPE_CMD_OPEN] bench
                 = Ok (tt, m_open3)).
  { apply (returned_Ok _ tt bench). vm_compute. reflexivity. }
  split; [exact bench_consistent|]. split; [exact Hrun|].
  destruct (run_keeps_consistent
              [GuestWrite PIPE_REG_CHANNEL 3; GuestWrite PIPE_REG_COMMAND PIPE_CMD_OPEN]
              bench m_open3) as [_ H].
  exact (H bench_consistent Hrun).
Defined.

(** X12: the first command after power-on. *)
Lemma quiet_step_is_safe_witness :
  (quiet_host ∧ consistent bench ∧ slots_live bench
   ∧ step_allowed (GuestWrite PIPE_REG_COMMAND PIPE_CMD_OPEN) bench)
  ∧ ((∃ m', step (GuestWrite PIPE_REG_COMMAND PIPE_CMD_OPEN) bench = Ok (tt, m')
            ∧ consistent m' ∧ slots_live m')
     ∨ (GuestWrite PIPE_REG_COMMAND PIPE_CMD_OPEN = GuestRead (u64 PIPE_REG_CHANNEL_HIGH)
        ∧ step (GuestWrite PIPE_REG_COMMAND PIPE_CMD_OPEN) bench = Crash AssertFailed)).
Proof.
  split; [split; [exact zero_host_quiet|split; [exact bench_consistent|
          split; [exact bench_slots_live|exact I]]]|].
  exact (quiet_step_is_safe (GuestWrite PIPE_REG_COMMAND PIPE_CMD_OPEN) bench
           zero_host_quiet bench_consistent bench_slots_live I).
Defined.

(** X13: the host closes channel 3; the record keeps its id. *)
Lemma records_settle_witness :
  (header_ok = true
   ∧ step (HostClose 1%positive) m_open3 = Ok (tt, m_closed3)
   ∧ heap m_open3 !! 1%positive = Some (HwPipe.mk None 3 0 false 1))
  ∧ ∃ r', heap m_closed3 !! 1%positive = Some r' ∧ HwPipe.channel r' = 3
          ∧ HwPipe.closed r' = true.
Proof.
  assert (Hr : heap m_open3 !! 1%positive = Some (HwPipe.mk None 3 0 false 1))
    by (vm_compute; reflexivity).
  assert (Hstep : step (HostClose 1%positive) m_open3 = Ok (tt, m_closed3)).
  { apply (returned_Ok _ tt m_open3). vm_compute. reflexivity. }
  split; [split; [exact goldfish_header_ok|split; [exact Hstep|exact Hr]]|].
  destruct (records_settle (HostClose 1%positive) m_open3 m_closed3 1%positive _
              goldfish_header_ok Hstep Hr)
    as [(r' & Hr' & Hch & _ & _)|(_ & _ & v & Hs & _)]; [|discriminate Hs].
  exists r'. split; [exact Hr'|]. split; [exact Hch|].
  assert (Hc : heap m_closed3 !! 1%positive = Some (HwPipe.mk None 3 1 true 1))
    by (vm_compute; reflexivity).
  pose proof (eq_trans (eq_sym Hr') Hc) as X. injection X as ->. reflexivity.
Defined.

(** X14: the command that opens channel 3. *)
Lemma writes_never_lower_irq_witness :
  pipe_dev_write PIPE_REG_COMMAND PIPE_CMD_OPEN
    (after_run [GuestWrite PIPE_REG_CHANNEL 3] bench) = Ok (tt, m_open3)
  ∧ ∃ k, irq m_open3 = replicate k 1 ++ irq (after_run [GuestWrite PIPE_REG_CHANNEL 3] bench).
Proof.
  assert (Hw : pipe_dev_write PIPE_REG_COMMAND PIPE_CMD_OPEN
                 (after_run [GuestWrite PIPE_REG_CHANNEL 3] bench) = Ok (tt, m_open3)).
  { apply (returned_Ok _ tt bench). vm_compute. reflexivity. }
  split; [exact Hw|].
  destruct (writes_never_lower_irq _ _ _ _ Hw) as [H _]. exact H.
Defined.

(** X15: channel 1 is closed on the host whose service wakes its pipe
    while it is torn down. *)
Lemma close_with_wake_leaves_dangling_slot_witness :
  (header_ok = true
   ∧ latched_pipe m_waking_open = Some 1%positive
   ∧ chain (heap m_waking_open) (PipeDevice.pipes (dev m_waking_open)) [1%positive]
   ∧ upcalls (android_pipe_free (PipeHost:=waking_host) (world m_waking_open) 1)
     = [signalWake 1%positive 1])
  ∧ ∃ m', pipeDevice_doCommand (u32 PIPE_CMD_CLOSE) m_waking_open = Ok (tt, m')
          ∧ heap m' !! 1%positive = None
          ∧ PipeDevice.cache_pipe (dev m') = Some 1%positive
          ∧ pipe_dev_read (u64 PIPE_REG_CHANNEL) m' = Crash BadPointer.
Proof.
  assert (Hl : latched_pipe m_waking_open = Some 1%positive) by (vm_compute; reflexivity).
  assert (Hr : heap m_waking_open !! 1%positive = Some (HwPipe.mk None 1 0 false 1))
    by (vm_compute; reflexivity).
  assert (Hc : chain (heap m_waking_open) (PipeDevice.pipes (dev m_waking_open))
                 [1%positive]).
  { split; [vm_compute; reflexivity|]. eexists. split; [exact Hr|reflexivity]. }
  assert (Hup : upcalls (android_pipe_free (PipeHost:=waking_host)
                           (world m_waking_open) 1)
                = [signalWake 1%positive 1]) by reflexivity.
  split; [split; [exact goldfish_header_ok|split; [exact Hl|split; [exact Hc|exact Hup]]]|].
  assert (Hin : 1%positive ∈ [1%positive])
    by (apply list_elem_of_singleton; reflexivity).
  destruct (close_with_wake_leaves_dangling_slot m_waking_open 1%positive _
              [1%positive] 1 goldfish_header_ok Hl Hr eq_refl Hc Hin Hup)
    as (m' & E & Hh & Hcp & _ & _ & Hread).
  exists m'. split; [exact E|]. split; [exact Hh|]. split; [exact Hcp|].
  apply Hread. left. vm_compute. reflexivity.
Defined.

(** X16: channel 0xDEAD is opened and closed again. *)
Lemma open_then_close_witness :
  (header_ok = true ∧ quiet_host ∧ latched_pipe m_unknown = None)
  ∧ ∃ m1 m2,
      pipeDevice_doCommand (u32 PIPE_CMD_OPEN) m_unknown = Ok (tt, m1)
      ∧ pipeDevice_doCommand (u32 PIPE_CMD_CLOSE) m1 = Ok (tt, m2)
      ∧ heap m2 = heap m_unknown
      ∧ PipeDevice.pipes_by_channel (dev m2) = PipeDevice.pipes_by_channel (dev m_unknown).
Proof.
  assert (Hl : latched_pipe m_unknown = None) by (vm_compute; reflexivity).
  split; [split; [exact goldfish_header_ok|split; [exact zero_host_quiet|exact Hl]]|].
  destruct (open_then_close m_unknown goldfish_header_ok zero_host_quiet Hl)
    as (m1 & m2 & E1 & _ & _ & E2 & Hh & Ht & _).
  exists m1, m2. split; [exact E1|]. split; [exact E2|]. split; [exact Hh|exact Ht].
Defined.

(** X17: on [m_two_woken] the list runs from record 2 to record 1 and only
    record 1 (channel 1) is still signalled: two reads give 1 and then 0. *)
Lemma drain_reports_each_signalled_channel_once_witness :
  (header_ok = true ∧ in_slot m_two_woken = None
   ∧ chain (heap m_two_woken) (PipeDevice.pipes (dev m_two_woken))
       [2%positive; 1%positive])
  ∧ ∃ m', read_channels 2 m_two_woken = Ok ([1; 0], m')
          ∧ PipeDevice.wakes (dev m') = 2
          ∧ irq m' = 0 :: irq m_two_woken.
Proof.
  assert (Hs : in_slot m_two_woken = None) by (vm_compute; reflexivity).
  assert (Hr2 : heap m_two_woken !! 2%positive
                = Some (HwPipe.mk (Some 1%positive) 2 0 false 2))
    by (vm_compute; reflexivity).
  assert (Hr1 : heap m_two_woken !! 1%positive = Some (HwPipe.mk None 1 2 false 1))
    by (vm_compute; reflexivity).
  assert (Hc : chain (heap m_two_woken) (PipeDevice.pipes (dev m_two_woken))
                 [2%positive; 1%positive]).
  { split; [vm_compute; reflexivity|]. eexists. split; [exact Hr2|].
    split; [reflexivity|]. eexists. split; [exact Hr1|reflexivity]. }
  split; [split; [exact goldfish_header_ok|split; [exact Hs|exact Hc]]|].
  pose proof (drain_reports_each_signalled_channel_once m_two_woken
                [2%positive; 1%positive] goldfish_header_ok Hs Hc) as H.
  cbv zeta in H.
  assert (Hsig : signalled (heap m_two_woken) [2%positive; 1%positive]
                 = [HwPipe.mk None 1 2 false 1]) by (vm_compute; reflexivity).
  rewrite Hsig in H.
  destruct H as (m' & E & _ & _ & _ & Hw & Hi).
  exists m'. split; [exact E|]. split; [exact Hw|exact Hi].
Defined.

(** X18: the 32-bit parameter block of [m_params32] with a read command. *)
Lemma access_params_as_register_writes_witness :
  (header_ok = true
   ∧ PipeDevice.params_addr (dev (m_params32 6)) ≠ 0
   ∧ aps_cmd (m_params32 6) = u32 PIPE_CMD_READ_BUFFER)
  ∧ pipe_dev_write (u64 PIPE_REG_ACCESS_PARAMS) 0 (m_params32 6)
    = (run [GuestWrite (u64 PIPE_REG_CHANNEL) (aps_channel (m_params32 6));
            GuestWrite (u64 PIPE_REG_CHANNEL_HIGH)
              (Z.shiftr (aps_channel (m_params32 6)) 32);
            GuestWrite (u64 PIPE_REG_SIZE) (aps_size (m_params32 6));
            GuestWrite (u64 PIPE_REG_ADDRESS) (aps_address (m_params32 6));
            GuestWrite (u64 PIPE_REG_ADDRESS_HIGH)
              (Z.shiftr (aps_address (m_params32 6)) 32);
            GuestWrite (u64 PIPE_REG_COMMAND) (aps_cmd (m_params32 6))];;
       d ← get_dev;
       w ← get_world;
       set_world (cpu_physical_memory_write w
                    (PipeDevice.params_addr (dev (m_params32 6)))
                    (aps_result (m_params32 6) (PipeDevice.status d))))
      (m_params32 6).
Proof.
  assert (Hpa : PipeDevice.params_addr (dev (m_params32 6)) ≠ 0)
    by (intros H; vm_compute in H; discriminate H).
  assert (Hcmd : aps_cmd (m_params32 6) = u32 PIPE_CMD_READ_BUFFER)
    by (vm_compute; reflexivity).
  split; [split; [exact goldfish_header_ok|split; [exact Hpa|exact Hcmd]]|].
  exact (access_params_as_register_writes (m_params32 6) 0 goldfish_header_ok Hpa
           (or_introl Hcmd)).
Defined.

(** X19: the guest asks to be woken when channel 3 is readable and then
    reads the channel register. *)
Lemma wake_on_request_is_reported_witness :
  (header_ok = true ∧ latched_pipe m_open3 = Some 1%positive
   ∧ in_slot m_open3 = None ∧ PipeDevice.pipes (dev m_open3) = Some 1%positive)
  ∧ ∃ m1 m2,
      pipeDevice_doCommand (wake_on_cmd true) m_open3 = Ok (tt, m1)
      ∧ irq m1 = irq m_open3
      ∧ pipe_dev_read (u64 PIPE_REG_CHANNEL) m1 = Ok (3, m2)
      ∧ PipeDevice.wakes (dev m2) = 2.
Proof.
  assert (Hl : latched_pipe m_open3 = Some 1%positive) by (vm_compute; reflexivity).
  assert (Hr : heap m_open3 !! 1%positive = Some (HwPipe.mk None 3 0 false 1))
    by (vm_compute; reflexivity).
  assert (Hs : in_slot m_open3 = None) by (vm_compute; reflexivity).
  assert (Hp : PipeDevice.pipes (dev m_open3) = Some 1%positive)
    by (vm_compute; reflexivity).
  split; [split; [exact goldfish_header_ok|split; [exact Hl|split; [exact Hs|exact Hp]]]|].
  assert (Hflag : u8 (wake_on_flag true) ≠ 0)
    by (intros H; vm_compute in H; discriminate H).
  exact (wake_on_request_is_reported m_open3 true 1%positive _ goldfish_header_ok
           Hl Hr eq_refl eq_refl Hs Hp Hflag eq_refl).
Defined.

(** X20: on [m_pair] the scan finds channel 0x700000005; the host wakes
    channel 0x700000006 between the two reads, and the guest reads the high
    half 7 and the low half 6. *)
Lemma wake_between_pair_reads_witness :
  (header_ok = true
   ∧ heap m_pair !! 1%positive = Some (HwPipe.mk None 0x700000005 2 false 1)
   ∧ heap m_pair !! 2%positive = Some (HwPipe.mk (Some 1%positive) 0x700000006 0 false 2)
   ∧ in_slot m_pair = None ∧ scan m_pair = Ok (Some 1%positive))
  ∧ ∃ m1 m2 m3,
      pipe_dev_read (u64 PIPE_REG_CHANNEL_HIGH) m_pair = Ok (7, m1)
      ∧ qemu2_android_pipe_wake (Some 2%positive) PIPE_WAKE_READ m1 = Ok (tt, m2)
      ∧ pipe_dev_read (u64 PIPE_REG_CHANNEL) m2 = Ok (6, m3).
Proof.
  assert (Hr1 : heap m_pair !! 1%positive = Some (HwPipe.mk None 0x700000005 2 false 1))
    by (vm_compute; reflexivity).
  assert (Hr2 : heap m_pair !! 2%positive
                = Some (HwPipe.mk (Some 1%positive) 0x700000006 0 false 2))
    by (vm_compute; reflexivity).
  assert (Hs : in_slot m_pair = None) by (vm_compute; reflexivity).
  assert (Hsc : scan m_pair = Ok (Some 1%positive)) by (vm_compute; reflexivity).
  split; [split; [exact goldfish_header_ok|split; [exact Hr1|split; [exact Hr2|
          split; [exact Hs|exact Hsc]]]]|].
  assert (Hhi : hi32 (HwPipe.channel (HwPipe.mk None 0x700000005 2 false 1)) ≠ 0)
    by (intros H; vm_compute in H; discriminate H).
  assert (Hne : 2%positive ≠ 1%positive) by (intros H; discriminate H).
  destruct (wake_between_pair_reads m_pair 1%positive 2%positive _ _ PIPE_WAKE_READ
              goldfish_header_ok Hr1 Hhi Hr2 eq_refl Hne) as [_ Hscan].
  destruct (Hscan Hs Hsc) as (m1 & m2 & m3 & E1 & E2 & E3 & _).
  exists m1, m2, m3. split; [exact E1|]. split; [exact E2|exact E3].
Defined.

End Witnesses.
